(** * Jogo das Cadeiras Concorrente: a model of [src/main.cpp]

    The program runs [NUM_JOGADORES] player threads ([Jogador::joga]) and one
    coordinator thread ([Coordenador::iniciar_jogo]) over a handful of global
    variables.  The development has two layers:

    - the global variables as a record [Memoria] and the methods of
      [JogoDasCadeiras], [Jogador] and [Coordenador] as functions on it;
    - the threads as program counters over those methods, run under an
      explicit schedule ([passo], [executa]).

    Conventions of the thread model.  A step is one access to shared memory:
    one critical section, one operation on the semaphore or on an atomic
    flag, one [notify_all]; thread-local work is folded into the step before
    it.  Accesses the source makes without a lock (the reads of
    [jogadores_ativos] at lines 171, 184, 191 and 212, of
    [cadeiras_ocupadas] at line 104, the replacement of [cadeira_sem] at
    lines 183-184) are steps like the others.  The sleeps give no guarantee
    about what the other threads did meanwhile: they are steps that change
    nothing, and every interleaving is a behaviour.  The constant
    [NUM_JOGADORES] (4 in the source) is a parameter [N] of the definitions;
    the examples run with 4. *)

From Stdlib Require Import ZArith List Bool Lia FinFun.
From stdpp Require Import base list.
Import ListNotations.

Local Open Scope Z_scope.

(** ** Machine integers

    [jogadores_ativos.size() - 1] is computed in [size_t] (64 bits, unsigned)
    and then stored in an [int] (line 63) or passed as a [ptrdiff_t]
    (line 184). *)

Definition size_t_menos_1 (n : nat) : Z := (Z.of_nat n - 1) mod 2 ^ 64.
Definition para_int (z : Z) : Z := (z + 2 ^ 31) mod 2 ^ 32 - 2 ^ 31.
Definition para_ptrdiff (z : Z) : Z := (z + 2 ^ 63) mod 2 ^ 64 - 2 ^ 63.

(** ** Global variables (lines 13-23) and [std::cout] *)

Inductive Saida : Type :=
  | S_rodada (n_jogadores : Z) (n_cadeiras : Z)
  | S_parou
  | S_resultado (ocupantes : list Z) (eliminado_id : Z)
  | S_vencedor (vencedor : Z).

(** The member [cadeiras] of [JogoDasCadeiras] is kept with the globals;
    its member [num_jogadores] is never read. *)
Record Memoria : Type := {
  cadeira_sem : Z;
  musica_parada : bool;
  jogo_ativo : bool;
  jogadores_ativos : list Z;
  cadeiras_ocupadas : list (Z * Z);
  cadeiras : Z;
  saida : list Saida
}.

Definition com_sem (c : Z) (m : Memoria) : Memoria :=
  {| cadeira_sem := c; musica_parada := musica_parada m;
     jogo_ativo := jogo_ativo m; jogadores_ativos := jogadores_ativos m;
     cadeiras_ocupadas := cadeiras_ocupadas m; cadeiras := cadeiras m;
     saida := saida m |}.

Definition com_musica_parada (b : bool) (m : Memoria) : Memoria :=
  {| cadeira_sem := cadeira_sem m; musica_parada := b;
     jogo_ativo := jogo_ativo m; jogadores_ativos := jogadores_ativos m;
     cadeiras_ocupadas := cadeiras_ocupadas m; cadeiras := cadeiras m;
     saida := saida m |}.

Definition com_jogo_ativo (b : bool) (m : Memoria) : Memoria :=
  {| cadeira_sem := cadeira_sem m; musica_parada := musica_parada m;
     jogo_ativo := b; jogadores_ativos := jogadores_ativos m;
     cadeiras_ocupadas := cadeiras_ocupadas m; cadeiras := cadeiras m;
     saida := saida m |}.

Definition com_ativos (l : list Z) (m : Memoria) : Memoria :=
  {| cadeira_sem := cadeira_sem m; musica_parada := musica_parada m;
     jogo_ativo := jogo_ativo m; jogadores_ativos := l;
     cadeiras_ocupadas := cadeiras_ocupadas m; cadeiras := cadeiras m;
     saida := saida m |}.

Definition com_ocupadas (l : list (Z * Z)) (m : Memoria) : Memoria :=
  {| cadeira_sem := cadeira_sem m; musica_parada := musica_parada m;
     jogo_ativo := jogo_ativo m; jogadores_ativos := jogadores_ativos m;
     cadeiras_ocupadas := l; cadeiras := cadeiras m;
     saida := saida m |}.

Definition com_cadeiras (c : Z) (m : Memoria) : Memoria :=
  {| cadeira_sem := cadeira_sem m; musica_parada := musica_parada m;
     jogo_ativo := jogo_ativo m; jogadores_ativos := jogadores_ativos m;
     cadeiras_ocupadas := cadeiras_ocupadas m; cadeiras := c;
     saida := saida m |}.

Definition imprime (o : Saida) (m : Memoria) : Memoria :=
  {| cadeira_sem := cadeira_sem m; musica_parada := musica_parada m;
     jogo_ativo := jogo_ativo m; jogadores_ativos := jogadores_ativos m;
     cadeiras_ocupadas := cadeiras_ocupadas m; cadeiras := cadeiras m;
     saida := saida m ++ [o] |}.

(** ** The resource gate: [std::counting_semaphore] *)

(** Modelled from the spec: the body of [std::counting_semaphore] is the C++
    library's and is not part of the sources.  Section 4.1 gives the contract
    of a claim attempt ("non-blocking; returns true and consumes one unit of
    capacity if available, false otherwise"), and the comment at lines 45-49
    of the source describes the counter: the gate is its counter,
    [try_acquire] decrements it when it is positive and reports whether it
    did.  (The C++ standard also lets [try_acquire] fail on a positive
    counter and bounds the counter by [max()]; the contract of section 4.1
    has neither, and neither is modelled.) *)
Definition try_acquire (c : Z) : bool * Z :=
  if 0 <? c then (true, c - 1) else (false, c).

(** Modelled from the spec: [release(n)] "restores n units" (section 4.1);
    "Incrementa o contador do semaforo em n" (line 48). *)
Definition release (n : Z) (c : Z) : Z := c + n.

(** Modelled from the spec: a gate built with [new counting_semaphore(d)]
    starts with [d] units, whatever the gate it replaces held. *)
Definition novo_semaforo (d : Z) : Z := d.

(** ** [JogoDasCadeiras] *)

(** The constructor (lines 53-58) pushes the ids 1..num_jogadores. *)
Definition ids_iniciais (num_jogadores : Z) : list Z :=
  List.map Z.of_nat (seq 1 (Z.to_nat num_jogadores)).

(** The globals as initialised at lines 14-23, after the constructor ran. *)
Definition memoria_inicial (N : Z) : Memoria :=
  {| cadeira_sem := novo_semaforo (N - 1);
     musica_parada := false;
     jogo_ativo := true;
     jogadores_ativos := ids_iniciais N;
     cadeiras_ocupadas := [];
     cadeiras := N - 1;
     saida := [] |}.

(** [iniciar_rodada], one definition per critical section (lines 61-64,
    66-69, 71-77). *)
Definition iniciar_rodada_cadeiras (m : Memoria) : Memoria :=
  com_cadeiras (para_int (size_t_menos_1 (length (jogadores_ativos m)))) m.

Definition iniciar_rodada_limpa (m : Memoria) : Memoria :=
  com_ocupadas [] m.

Definition iniciar_rodada_anuncia (m : Memoria) : Memoria :=
  imprime (S_rodada (Z.of_nat (length (jogadores_ativos m))) (cadeiras m)) m.

Definition iniciar_rodada (m : Memoria) : Memoria :=
  iniciar_rodada_anuncia (iniciar_rodada_limpa (iniciar_rodada_cadeiras m)).

(** [parar_musica] up to the flag (lines 81-89); the [notify_all] of line 90
    acts on the threads and is part of the coordinator's steps below. *)
Definition parar_musica_anuncia (m : Memoria) : Memoria := imprime S_parou m.

Definition parar_musica_sinal (m : Memoria) : Memoria :=
  com_musica_parada true m.

(** [eliminar_jogador] (lines 93-99): erase-remove of every occurrence. *)
Definition remove_id (jogador_id : Z) (l : list Z) : list Z :=
  List.filter (fun x => negb (x =? jogador_id)) l.

Definition eliminar_jogador (jogador_id : Z) (m : Memoria) : Memoria :=
  com_ativos (remove_id jogador_id (jogadores_ativos m)) m.

(** [exibir_resultado_rodada] (lines 101-109): one line per occupied chair,
    read from [cadeiras_ocupadas] at the time of the call, then the
    eliminated id. *)
Definition exibir_resultado_rodada (eliminado_id : Z) (m : Memoria) : Memoria :=
  imprime (S_resultado (List.map fst (cadeiras_ocupadas m)) eliminado_id) m.

(** ** [Jogador] *)

(** Where a player thread stands in [joga] (lines 140-157). *)
Inductive PcJogador : Type :=
  | J_laco              (* line 141: while (jogo_ativo) *)
  | J_espera_parada     (* line 144: the predicate musica_parada is tested *)
  | J_dorme_parada      (* line 144: asleep on music_cv *)
  | J_checa_ativo       (* line 147: if (!jogo_ativo) break *)
  | J_tenta             (* line 126: try_acquire *)
  | J_senta             (* lines 127-128: emplace_back(id, id) *)
  | J_verifica          (* lines 135-137: verificar_eliminacao *)
  | J_espera_retomada   (* line 154: the predicate !musica_parada is tested *)
  | J_dorme_retomada    (* line 154: asleep on music_cv *)
  | J_fim.              (* joga returned *)

Record Jogador : Type := {
  jog_id : Z;
  eliminado : bool;
  pc : PcJogador
}.

Definition com_pc (p : PcJogador) (j : Jogador) : Jogador :=
  {| jog_id := jog_id j; eliminado := eliminado j; pc := p |}.

Definition com_eliminado (b : bool) (j : Jogador) : Jogador :=
  {| jog_id := jog_id j; eliminado := b; pc := pc j |}.

Definition senta (id : Z) (m : Memoria) : Memoria :=
  com_ocupadas (cadeiras_ocupadas m ++ [(id, id)]) m.

(** [tentar_ocupar_cadeira] (lines 125-132) as one call: the result of
    [try_acquire], the player and the memory afterwards. *)
Definition tentar_ocupar_cadeira (j : Jogador) (m : Memoria)
  : bool * Jogador * Memoria :=
  let (ok, c) := try_acquire (cadeira_sem m) in
  if ok then (true, j, senta (jog_id j) (com_sem c m))
  else (false, com_eliminado true j, m).

(** [verificar_eliminacao] (lines 134-138). *)
Definition verificar_eliminacao (j : Jogador) (m : Memoria) : Memoria :=
  if eliminado j then eliminar_jogador (jog_id j) m else m.

(** One step of [joga].  [None]: the thread cannot move (asleep on the
    condition variable, or finished). *)
Definition joga_passo (j : Jogador) (m : Memoria) : option (Jogador * Memoria) :=
  match pc j with
  | J_laco =>
      Some (com_pc (if jogo_ativo m then J_espera_parada else J_fim) j, m)
  | J_espera_parada =>
      Some (com_pc (if musica_parada m then J_checa_ativo else J_dorme_parada) j, m)
  | J_dorme_parada => None
  | J_checa_ativo =>
      Some (com_pc (if jogo_ativo m then J_tenta else J_fim) j, m)
  | J_tenta =>
      let (ok, c) := try_acquire (cadeira_sem m) in
      if ok then Some (com_pc J_senta j, com_sem c m)
      else Some (com_pc J_verifica (com_eliminado true j), m)
  | J_senta => Some (com_pc J_verifica j, senta (jog_id j) m)
  | J_verifica => Some (com_pc J_espera_retomada j, verificar_eliminacao j m)
  | J_espera_retomada =>
      Some (com_pc (if musica_parada m then J_dorme_retomada else J_laco) j, m)
  | J_dorme_retomada => None
  | J_fim => None
  end.

(** A thread asleep on [music_cv] that is woken (by [notify_all], or
    spuriously) tests its predicate again. *)
Definition acorda (j : Jogador) : Jogador :=
  match pc j with
  | J_dorme_parada => com_pc J_espera_parada j
  | J_dorme_retomada => com_pc J_espera_retomada j
  | _ => j
  end.

Definition dormindo (j : Jogador) : bool :=
  match pc j with
  | J_dorme_parada | J_dorme_retomada => true
  | _ => false
  end.

(** ** [Coordenador] *)

(** Where the coordinator stands in [iniciar_jogo] (lines 170-200), with
    [iniciar_rodada], [parar_musica] and [liberar_threads_eliminadas]
    inlined. *)
Inductive PcCoord : Type :=
  | C_laco              (* line 171 *)
  | C_rodada_cadeiras   (* lines 61-64 *)
  | C_rodada_limpa      (* lines 66-69 *)
  | C_rodada_anuncia    (* lines 71-77 *)
  | C_dorme_musica      (* line 173: sleep_random *)
  | C_para_anuncia      (* lines 81-84 *)
  | C_para_sinal        (* lines 86-89 *)
  | C_para_notifica     (* line 90 *)
  | C_dorme_sentar      (* line 175 *)
  | C_le_sentados       (* lines 203-209 *)
  | C_procura           (* lines 211-218 *)
  | C_exibe             (* line 220 *)
  | C_libera            (* line 221 *)
  | C_retoma            (* lines 178-181 *)
  | C_reconstroi        (* lines 183-184 *)
  | C_dorme_rodada      (* line 185 *)
  | C_encerra           (* line 188 *)
  | C_notifica_fim      (* line 189 *)
  | C_vencedor          (* lines 191-197 *)
  | C_destroi           (* line 199 *)
  | C_fim.

(** The locals of [liberar_threads_eliminadas]. *)
Record Coordenador : Type := {
  pcc : PcCoord;
  jogadores_sentados : list Z;
  eliminado_id : Z
}.

Definition com_pcc (p : PcCoord) (c : Coordenador) : Coordenador :=
  {| pcc := p; jogadores_sentados := jogadores_sentados c;
     eliminado_id := eliminado_id c |}.

(** Lines 203-209: the ids of [cadeiras_ocupadas], copied under the lock. *)
Definition le_sentados (m : Memoria) : list Z :=
  List.map fst (cadeiras_ocupadas m).

(** Lines 212-218: [std::find] over the copy, for each active id in stored
    order. *)
Definition sentado (sentados : list Z) (id : Z) : bool :=
  existsb (Z.eqb id) sentados.

Definition primeiro_em_pe (sentados ativos : list Z) : option Z :=
  List.find (fun id => negb (sentado sentados id)) ativos.

(** Lines 211-218: the eliminated id and the memory after the loop. *)
Definition procura_eliminado (sentados : list Z) (m : Memoria) : Z * Memoria :=
  match primeiro_em_pe sentados (jogadores_ativos m) with
  | Some id => (id, eliminar_jogador id m)
  | None => (-1, m)
  end.

(** Line 221. *)
Definition libera (N : Z) (m : Memoria) : Memoria :=
  com_sem (release N (cadeira_sem m)) m.

(** [liberar_threads_eliminadas] (lines 202-222) as one call. *)
Definition liberar_threads_eliminadas (N : Z) (m : Memoria)
  : Z * Memoria :=
  let sentados := le_sentados m in
  let (e, m1) := procura_eliminado sentados m in
  (e, libera N (exibir_resultado_rodada e m1)).

(** Lines 183-184: the old gate is deleted and a new one built. *)
Definition reconstroi (m : Memoria) : Memoria :=
  com_sem (novo_semaforo
             (para_ptrdiff (size_t_menos_1 (length (jogadores_ativos m))))) m.

(** Lines 191-197. *)
Definition anuncia_vencedor (m : Memoria) : Memoria :=
  match jogadores_ativos m with
  | [] => m
  | v :: _ => imprime (S_vencedor v) m
  end.

(** ** The threads together *)

Record Estado : Type := {
  mem : Memoria;
  jogadores : list Jogador;
  coord : Coordenador
}.

Definition notify_all (js : list Jogador) : list Jogador := List.map acorda js.

(** One step of [iniciar_jogo].  The sleeps are steps that change nothing.
    [delete cadeira_sem] at line 199 frees the gate; the model keeps its
    last counter. *)
Definition iniciar_jogo_passo (N : Z) (s : Estado) : option Estado :=
  let m := mem s in
  let c := coord s in
  let vai p m' := Some {| mem := m'; jogadores := jogadores s;
                          coord := com_pcc p c |} in
  match pcc c with
  | C_laco =>
      vai (if (1 <? length (jogadores_ativos m))%nat
           then C_rodada_cadeiras else C_encerra) m
  | C_rodada_cadeiras => vai C_rodada_limpa (iniciar_rodada_cadeiras m)
  | C_rodada_limpa => vai C_rodada_anuncia (iniciar_rodada_limpa m)
  | C_rodada_anuncia => vai C_dorme_musica (iniciar_rodada_anuncia m)
  | C_dorme_musica => vai C_para_anuncia m
  | C_para_anuncia => vai C_para_sinal (parar_musica_anuncia m)
  | C_para_sinal => vai C_para_notifica (parar_musica_sinal m)
  | C_para_notifica =>
      Some {| mem := m; jogadores := notify_all (jogadores s);
              coord := com_pcc C_dorme_sentar c |}
  | C_dorme_sentar => vai C_le_sentados m
  | C_le_sentados =>
      Some {| mem := m; jogadores := jogadores s;
              coord := {| pcc := C_procura;
                          jogadores_sentados := le_sentados m;
                          eliminado_id := eliminado_id c |} |}
  | C_procura =>
      let (e, m') := procura_eliminado (jogadores_sentados c) m in
      Some {| mem := m'; jogadores := jogadores s;
              coord := {| pcc := C_exibe;
                          jogadores_sentados := jogadores_sentados c;
                          eliminado_id := e |} |}
  | C_exibe => vai C_libera (exibir_resultado_rodada (eliminado_id c) m)
  | C_libera => vai C_retoma (libera N m)
  | C_retoma => vai C_reconstroi (com_musica_parada false m)
  | C_reconstroi => vai C_dorme_rodada (reconstroi m)
  | C_dorme_rodada => vai C_laco m
  | C_encerra => vai C_notifica_fim (com_jogo_ativo false m)
  | C_notifica_fim =>
      Some {| mem := m; jogadores := notify_all (jogadores s);
              coord := com_pcc C_vencedor c |}
  | C_vencedor => vai C_destroi (anuncia_vencedor m)
  | C_destroi => vai C_fim m
  | C_fim => None
  end.

(** What the scheduler can pick: the coordinator, player thread [i]
    ([jogadores_objs[i]], id [i + 1]), or a spurious wake-up of thread [i],
    which [condition_variable::wait] allows. *)
Inductive Evento : Type :=
  | E_coord
  | E_jogador (i : nat)
  | E_espurio (i : nat).

Definition passo (N : Z) (e : Evento) (s : Estado) : option Estado :=
  match e with
  | E_coord => iniciar_jogo_passo N s
  | E_jogador i =>
      match jogadores s !! i with
      | None => None
      | Some j =>
          match joga_passo j (mem s) with
          | None => None
          | Some (j', m') =>
              Some {| mem := m'; jogadores := <[i := j']> (jogadores s);
                      coord := coord s |}
          end
      end
  | E_espurio i =>
      match jogadores s !! i with
      | None => None
      | Some j =>
          if dormindo j
          then Some {| mem := mem s; jogadores := <[i := acorda j]> (jogadores s);
                       coord := coord s |}
          else None
      end
  end.

(** A schedule is a list of events; it runs if each event can move when its
    turn comes. *)
Fixpoint executa (N : Z) (agenda : list Evento) (s : Estado)
  : option Estado :=
  match agenda with
  | [] => Some s
  | e :: resto =>
      match passo N e s with
      | None => None
      | Some s' => executa N resto s'
      end
  end.

(** [main] (lines 228-259): the players are built with ids 1..N,
    every thread is at the top of its function. *)
Definition jogadores_iniciais (N : Z) : list Jogador :=
  List.map (fun id => {| jog_id := id; eliminado := false; pc := J_laco |})
           (ids_iniciais N).

Definition estado_inicial (N : Z) : Estado :=
  {| mem := memoria_inicial N;
     jogadores := jogadores_iniciais N;
     coord := {| pcc := C_laco; jogadores_sentados := []; eliminado_id := -1 |} |}.

Definition NUM_JOGADORES : Z := 4.

(** ** Claims made in sequence on one gate *)

(** The players of [js] call [tentar_ocupar_cadeira] one after the other,
    nothing else touching the gate in between: the number of calls that
    returned with a chair, and the memory afterwards. *)
Fixpoint tentativas (js : list Jogador) (m : Memoria) : nat * Memoria :=
  match js with
  | [] => (0%nat, m)
  | j :: resto =>
      let '(ok, _, m1) := tentar_ocupar_cadeira j m in
      let (n, m2) := tentativas resto m1 in
      ((if ok then S n else n), m2)
  end.

(** The [S_rodada] lines of the output: players and chairs announced at each
    round start. *)
Definition rodadas_anunciadas (m : Memoria) : list (Z * Z) :=
  flat_map (fun o => match o with S_rodada n c => [(n, c)] | _ => [] end)
           (saida m).

(** The rounds a game of [n] players should announce: [(n, n-1)], ...,
    [(2, 1)]. *)
Fixpoint rodadas_esperadas (k : nat) : list (Z * Z) :=
  match k with
  | O => []
  | S k' => (Z.of_nat (S k), Z.of_nat k) :: rodadas_esperadas k'
  end.

(** ** Predicates on states and schedules *)

(** Threads that took a unit of the gate and have not recorded their seat
    yet. *)
Definition n_sentando (js : list Jogador) : nat :=
  length (List.filter (fun j => match pc j with J_senta => true | _ => false end) js).

Definition sentando (j : Jogador) : nat :=
  match pc j with J_senta => 1%nat | _ => 0%nat end.

Definition esperando_parada (j : Jogador) : bool :=
  match pc j with
  | J_espera_parada | J_dorme_parada => true
  | _ => false
  end.

(** [jogo_ativo = false] was written and the broadcast of line 189 issued. *)
Definition apos_aviso_final (s : Estado) : bool :=
  match pcc (coord s) with
  | C_vencedor | C_destroi | C_fim => true
  | _ => false
  end.

(** The coordinator has cleared [cadeiras_ocupadas] (line 68) and has not
    yet run the elimination loop of lines 212-218. *)
Definition entre_limpar_e_resolver (s : Estado) : bool :=
  match pcc (coord s) with
  | C_rodada_anuncia | C_dorme_musica
  | C_para_anuncia | C_para_sinal | C_para_notifica | C_dorme_sentar
  | C_le_sentados | C_procura => true
  | _ => false
  end.

(** While [iniciar_rodada] runs. *)
Definition em_iniciar_rodada (s : Estado) : bool :=
  match pcc (coord s) with
  | C_rodada_cadeiras | C_rodada_limpa | C_rodada_anuncia => true
  | _ => false
  end.

(** Units of the gate: still in the counter, recorded as seats, or taken by
    a thread that has not recorded its seat yet. *)
Definition permissoes (s : Estado) : Z :=
  cadeira_sem (mem s)
  + Z.of_nat (length (cadeiras_ocupadas (mem s)))
  + Z.of_nat (n_sentando (jogadores s)).

(** [P] holds in every state the schedule goes through. *)
Fixpoint sempre (P : Estado -> bool) (N : Z)
  (agenda : list Evento) (s : Estado) : bool :=
  P s &&
  match agenda with
  | [] => true
  | e :: resto =>
      match passo N e s with
      | None => true
      | Some s' => sempre P N resto s'
      end
  end.

(** ** Schedules *)

Definition turno (i : nat) (n : nat) : list Evento := repeat (E_jogador i) n.
Definition coordenador (n : nat) : list Evento := repeat E_coord n.

(** The four threads enter [joga] and fall asleep waiting for the music to
    stop. *)
Definition agenda_espera : list Evento :=
  turno 0 2 ++ turno 1 2 ++ turno 2 2 ++ turno 3 2.

(** Round 1 up to line 175, every player done with lines 149-150 inside the
    500 ms: players 1, 2, 3 sit, player 4 finds no chair. *)
Definition agenda_sentar : list Evento :=
  agenda_espera ++ coordenador 8
  ++ turno 0 5 ++ turno 1 5 ++ turno 2 5 ++ turno 3 4.

(** ... and every player asleep waiting for the music to resume. *)
Definition agenda_rodada_1 : list Evento :=
  agenda_sentar ++ turno 0 1 ++ turno 1 1 ++ turno 2 1 ++ turno 3 1
  ++ coordenador 8.

(** A later round when no wait wakes without a notification: the players
    woken at line 90 find [musica_parada] set and sleep again. *)
Definition agenda_rodada_vazia : list Evento :=
  coordenador 8 ++ turno 0 1 ++ turno 1 1 ++ turno 2 1 ++ turno 3 1
  ++ coordenador 8.

(** The whole game as the sleeps time it. *)
Definition agenda_pontual : list Evento :=
  agenda_rodada_1 ++ agenda_rodada_vazia ++ agenda_rodada_vazia
  ++ coordenador 5
  ++ turno 0 2 ++ turno 1 2 ++ turno 2 2 ++ turno 3 2.

(** Round 1 up to the point where player 4, having found no chair, is about
    to run [verificar_eliminacao]. *)
Definition agenda_sem_cadeira : list Evento :=
  agenda_espera ++ coordenador 8
  ++ turno 0 5 ++ turno 1 5 ++ turno 2 5 ++ turno 3 3.

(** The game as the sleeps time it, except that during the 1000 ms of
    line 185 in the last round the wait of thread 0 at line 154 wakes
    without a notification. *)
Definition agenda_espurio : list Evento :=
  agenda_rodada_1 ++ agenda_rodada_vazia
  ++ coordenador 8 ++ turno 0 1 ++ turno 1 1 ++ turno 2 1 ++ turno 3 1
  ++ coordenador 7
  ++ [E_espurio 0] ++ turno 0 3
  ++ coordenador 6
  ++ turno 0 1 ++ turno 1 2 ++ turno 2 2 ++ turno 3 2.

(** The state a schedule leads to from the start of [main] with four
    players. *)
Definition estado_apos (agenda : list Evento) : Estado :=
  match executa NUM_JOGADORES agenda (estado_inicial NUM_JOGADORES) with
  | Some s => s
  | None => estado_inicial NUM_JOGADORES
  end.

(** [musica_parada] is written by the coordinator only: it is set from
    line 88 to line 180. *)
Definition musica_conforme (s : Estado) : bool :=
  eqb (musica_parada (mem s))
      (match pcc (coord s) with
       | C_para_notifica | C_dorme_sentar | C_le_sentados | C_procura
       | C_exibe | C_libera | C_retoma => true
       | _ => false
       end).

(** Player 4 is slow in round 1: it gets past its wait but claims only
    after the gate for round 2 was built (line 184), before round 2
    starts. *)
Definition agenda_atrasado : list Evento :=
  agenda_espera ++ coordenador 8
  ++ turno 0 6 ++ turno 1 6 ++ turno 2 6 ++ turno 3 2
  ++ coordenador 8
  ++ turno 3 1
  ++ coordenador 1.

(** Player 1 gets past its wait in round 1 and is slow: it claims after
    [release] (line 221) and records its seat after round 2 cleared
    [cadeiras_ocupadas]; players 2 and 3 then sit in round 2. *)
Definition agenda_sobra : list Evento :=
  agenda_espera ++ coordenador 8
  ++ turno 0 2
  ++ coordenador 5
  ++ turno 0 1
  ++ coordenador 6
  ++ turno 0 1
  ++ coordenador 5
  ++ turno 1 4 ++ turno 2 4.

(** Player 3 is slow in round 1: it takes the last unit of the gate and
    records its seat only after the coordinator read [cadeiras_ocupadas];
    player 4 meanwhile found no chair and took itself out. *)
Definition agenda_lento : list Evento :=
  agenda_espera ++ coordenador 8
  ++ turno 0 6 ++ turno 1 6 ++ turno 2 3 ++ turno 3 5
  ++ coordenador 3
  ++ turno 2 3
  ++ coordenador 5
  ++ coordenador 8 ++ turno 0 1 ++ turno 1 1 ++ turno 2 1 ++ turno 3 1
  ++ coordenador 8
  ++ coordenador 5
  ++ turno 0 2 ++ turno 1 2 ++ turno 2 2 ++ turno 3 2.

(** [jogo_ativo] is written by the coordinator only, once, at line 188. *)
Definition jogo_conforme (s : Estado) : bool :=
  eqb (jogo_ativo (mem s))
      (match pcc (coord s) with
       | C_notifica_fim | C_vencedor | C_destroi | C_fim => false
       | _ => true
       end).


(** The players are not scheduled between a stop of the music and its
    resumption: the coordinator finds nobody seated in all three rounds. *)
Definition agenda_ausente : list Evento :=
  agenda_espera ++ coordenador 16 ++ coordenador 16 ++ coordenador 16
  ++ coordenador 5
  ++ turno 0 1 ++ turno 1 1 ++ turno 2 1 ++ turno 3 1.

(** ** Case analysis on a step *)

Ltac caso_joga j m H :=
  unfold joga_passo in H;
  destruct (pc j) eqn:?; cbv beta iota in H;
  try match type of H with
      | context [try_acquire] =>
          destruct (try_acquire (cadeira_sem m)) as [[|] ?] eqn:?
      end;
  inversion H; subst; clear H.

Ltac caso_coord s H :=
  unfold iniciar_jogo_passo in H;
  destruct (pcc (coord s)) eqn:?; cbv beta iota zeta in H;
  try match type of H with
      | context [procura_eliminado] =>
          destruct (procura_eliminado (jogadores_sentados (coord s)) (mem s))
            as [? ?] eqn:?
      end;
  inversion H; subst; clear H.

(** Round 1 as the sleeps time it.  While the music plays in round 2, the
    waits of line 154 of all four threads wake without notification, so all
    four wait for the stop again; when the music stops the thread of
    player 4, eliminated in round 1, is served first. *)
Definition agenda_volta : list Evento :=
  agenda_rodada_1
  ++ coordenador 4
  ++ [E_espurio 0] ++ turno 0 3 ++ [E_espurio 1] ++ turno 1 3
  ++ [E_espurio 2] ++ turno 2 3 ++ [E_espurio 3] ++ turno 3 3
  ++ coordenador 4
  ++ turno 3 6 ++ turno 0 6 ++ turno 1 5 ++ turno 2 5
  ++ coordenador 8
  ++ coordenador 5
  ++ turno 0 2 ++ turno 1 2 ++ turno 2 2 ++ turno 3 2.

(** ** Schedules that keep to the timing of the sleeps

    The coordinator sleeps 500 ms at line 175 so that the players make their
    claims meanwhile.  A schedule keeps to that timing when

    - a thread runs [try_acquire] (line 126) only while the coordinator is in
      that sleep, and only if its participant is in the Active Set;
    - the coordinator leaves that sleep only when no thread is between its
      [try_acquire] and the end of [verificar_eliminacao]. *)

Definition quieto (j : Jogador) : bool :=
  match pc j with
  | J_senta | J_verifica => false
  | _ => true
  end.

Definition permitido (e : Evento) (s : Estado) : bool :=
  match e with
  | E_coord =>
      match pcc (coord s) with
      | C_dorme_sentar => forallb quieto (jogadores s)
      | _ => true
      end
  | E_jogador i =>
      match jogadores s !! i with
      | Some j =>
          match pc j with
          | J_tenta =>
              match pcc (coord s) with
              | C_dorme_sentar =>
                  existsb (Z.eqb (jog_id j)) (jogadores_ativos (mem s))
              | _ => false
              end
          | _ => true
          end
      | None => true
      end
  | E_espurio _ => true
  end.

Fixpoint pontual (N : Z) (agenda : list Evento) (s : Estado) : bool :=
  match agenda with
  | [] => true
  | e :: resto =>
      permitido e s &&
      match passo N e s with
      | None => true
      | Some s' => pontual N resto s'
      end
  end.

(** Steps of the coordinator in a schedule. *)
Definition n_coord (agenda : list Evento) : nat :=
  length (List.filter (fun e => match e with E_coord => true | _ => false end)
                      agenda).

(** Steps the coordinator still has to take before [iniciar_jogo] returns,
    when every round takes one participant out: a round is 16 steps, the
    end of the function 5. *)
Definition restam (s : Estado) : nat :=
  let a := length (jogadores_ativos (mem s)) in
  let c := Z.to_nat (cadeiras (mem s)) in
  match pcc (coord s) with
  | C_laco => 16 * (a - 1) + 5
  | C_rodada_cadeiras => 16 * (a - 1) + 4
  | C_rodada_limpa => 16 * (a - 1) + 3
  | C_rodada_anuncia => 16 * (a - 1) + 2
  | C_dorme_musica => 16 * c + 1
  | C_para_anuncia => 16 * c
  | C_para_sinal => 16 * c - 1
  | C_para_notifica => 16 * c - 2
  | C_dorme_sentar => 16 * c - 3
  | C_le_sentados => 16 * c - 4
  | C_procura => 16 * c - 5
  | C_exibe => 16 * c - 6
  | C_libera => 16 * c - 7
  | C_retoma => 16 * c - 8
  | C_reconstroi => 16 * c - 9
  | C_dorme_rodada => 16 * c - 10
  | C_encerra => 4
  | C_notifica_fim => 3
  | C_vencedor => 2
  | C_destroi => 1
  | C_fim => 0
  end.

(** Rounds still to be announced. *)
Definition rodadas_por_vir (s : Estado) : nat :=
  match pcc (coord s) with
  | C_laco | C_rodada_cadeiras | C_rodada_limpa | C_rodada_anuncia =>
      length (jogadores_ativos (mem s)) - 1
  | C_encerra | C_notifica_fim | C_vencedor | C_destroi | C_fim => 0
  | _ => Z.to_nat (cadeiras (mem s)) - 1
  end.

(** *** The invariant of such schedules *)

(** A thread that recorded its seat is past line 149 and stays in the wait
    of line 154 while the music is stopped. *)
Definition apos_sentar (j : Jogador) : Prop :=
  pc j = J_verifica \/ pc j = J_espera_retomada \/ pc j = J_dorme_retomada.

(** What the elimination loop will find. *)
Definition resolvivel (sentados : list Z) (m : Memoria) : Prop :=
  1 <= cadeiras m
  /\ ((Z.of_nat (length (jogadores_ativos m)) = cadeiras m + 1
       /\ (length sentados < length (jogadores_ativos m))%nat)
      \/ (Z.of_nat (length (jogadores_ativos m)) = cadeiras m
          /\ incl (jogadores_ativos m) sentados)).

(** The flags of the threads other than [f]: set only for participants
    out of the Active Set, whose threads are not in
    [verificar_eliminacao]. *)
Definition flags_fora (excepto : option nat) (s : Estado) : Prop :=
  forall i j,
    jogadores s !! i = Some j -> eliminado j = true -> excepto <> Some i ->
    ~ In (jog_id j) (jogadores_ativos (mem s)) /\ pc j <> J_verifica.

(** During the sleep of line 175. *)
Definition inv_janela (s : Estado) : Prop :=
  let m := mem s in
  1 <= cadeiras m
  /\ permissoes s = cadeiras m
  /\ 0 <= cadeira_sem m
  /\ List.NoDup (le_sentados m)
  /\ incl (le_sentados m) (jogadores_ativos m)
  /\ (forall i j, jogadores s !! i = Some j -> In (jog_id j) (le_sentados m) ->
                  apos_sentar j /\ eliminado j = false)
  /\ (forall i j, jogadores s !! i = Some j -> pc j = J_senta ->
                  eliminado j = false /\ In (jog_id j) (jogadores_ativos m))
  /\ ((Z.of_nat (length (jogadores_ativos m)) = cadeiras m + 1
       /\ flags_fora None s)
      \/ (Z.of_nat (length (jogadores_ativos m)) = cadeiras m + 1
          /\ cadeira_sem m = 0
          /\ exists f jf, jogadores s !! f = Some jf
                          /\ pc jf = J_verifica /\ eliminado jf = true
                          /\ In (jog_id jf) (jogadores_ativos m)
                          /\ flags_fora (Some f) s)
      \/ (Z.of_nat (length (jogadores_ativos m)) = cadeiras m
          /\ cadeira_sem m = 0
          /\ flags_fora None s)).

(** Outside that sleep, by the place of the coordinator. *)
Definition inv_fora_da_janela (s : Estado) : Prop :=
  let m := mem s in
  let a := Z.of_nat (length (jogadores_ativos m)) in
  (forall i j, jogadores s !! i = Some j -> quieto j = true)
  /\ flags_fora None s
  /\ match pcc (coord s) with
     | C_laco => cadeira_sem m = a - 1 /\ 1 <= a
     | C_rodada_cadeiras => cadeira_sem m = a - 1 /\ 2 <= a
     | C_rodada_limpa => cadeira_sem m = a - 1 /\ 2 <= a /\ cadeiras m = a - 1
     | C_rodada_anuncia | C_dorme_musica | C_para_anuncia | C_para_sinal
     | C_para_notifica =>
         cadeira_sem m = a - 1 /\ 2 <= a /\ cadeiras m = a - 1
         /\ cadeiras_ocupadas m = []
     | C_dorme_sentar => False
     | C_le_sentados => resolvivel (le_sentados m) m
     | C_procura => resolvivel (jogadores_sentados (coord s)) m
     | C_exibe | C_libera | C_retoma | C_reconstroi =>
         a = cadeiras m /\ 1 <= cadeiras m
     | C_dorme_rodada => a = cadeiras m /\ 1 <= cadeiras m /\ cadeira_sem m = a - 1
     | C_encerra | C_notifica_fim | C_vencedor | C_destroi | C_fim => a = 1
     end.

Definition inv (N : Z) (s : Estado) : Prop :=
  let m := mem s in
  List.NoDup (jogadores_ativos m)
  /\ List.NoDup (List.map jog_id (jogadores s))
  /\ Z.of_nat (length (jogadores_ativos m)) < 2 ^ 31
  /\ musica_conforme s = true
  /\ rodadas_anunciadas m ++ rodadas_esperadas (rodadas_por_vir s)
     = rodadas_esperadas (Z.to_nat N - 1)
  /\ (if match pcc (coord s) with C_dorme_sentar => true | _ => false end
      then inv_janela s
      else inv_fora_da_janela s).

(** Thread [i] moves to [j'], the memory and the coordinator as they
    are. *)
Definition com_jogador (i : nat) (j' : Jogador) (s : Estado) : Estado :=
  {| mem := mem s; jogadores := <[i := j']> (jogadores s); coord := coord s |}.

(** Building the invariant after a step of the coordinator. *)
Ltac fecha :=
  repeat match goal with |- _ /\ _ => split end;
  first [assumption | reflexivity | lia].

Ltac monta_inv :=
  unfold inv; cbn [mem jogadores coord pcc com_pcc];
  split; [try assumption|];
  split; [try assumption|];
  split; [try assumption|];
  split; [try assumption|];
  split; [unfold rodadas_por_vir; cbn [mem coord pcc com_pcc]; try assumption
         | unfold inv_fora_da_janela, flags_fora;
           cbn [mem jogadores coord pcc com_pcc jogadores_sentados] ].


(** Steps the threads inside lines 127-137 still have to take before they
    are out of them. *)
Definition pendencia (j : Jogador) : nat :=
  match pc j with
  | J_senta => 2
  | J_verifica => 1
  | _ => 0
  end.

Definition pendencias (js : list Jogador) : nat :=
  list_sum (List.map pendencia js).

(** ** The rest of the program

    [main] (lines 228-259), the output as a whole, and the invariants the
    program keeps in every execution and in those that keep to the timing of
    the sleeps. *)

(** *** [main] *)

(** [main] returns (line 258) once the joins of lines 248-256 returned:
    every player thread is out of [joga] and the coordinator is out of
    [iniciar_jogo]. *)
Definition saiu (j : Jogador) : bool :=
  match pc j with J_fim => true | _ => false end.

Definition main_retorna (s : Estado) : bool :=
  forallb saiu (jogadores s)
  && match pcc (coord s) with C_fim => true | _ => false end.

(** *** The output *)

(** The lines one iteration of the loop of [iniciar_jogo] prints: lines
    73-76, line 83, lines 103-108. *)
Definition linhas_da_rodada (r : Z * Z * list Z * Z) : list Saida :=
  let '(n, c, ocupantes, e) := r in
  [S_rodada n c; S_parou; S_resultado ocupantes e].

(** Players and chairs announced at the start of a round. *)
Definition anuncio (r : Z * Z * list Z * Z) : Z * Z :=
  let '(n, c, _, _) := r in (n, c).

(** What of the current iteration is printed already, by the place of the
    coordinator; after the loop, the winner's line if there is one. *)
Definition cauda_conforme (N : Z) (p : PcCoord) (fim : list Saida) : bool :=
  match p with
  | C_laco | C_rodada_cadeiras | C_rodada_limpa | C_rodada_anuncia
  | C_libera | C_retoma | C_reconstroi | C_dorme_rodada
  | C_encerra | C_notifica_fim | C_vencedor =>
      match fim with [] => true | _ => false end
  | C_dorme_musica | C_para_anuncia =>
      match fim with [S_rodada _ _] => true | _ => false end
  | C_para_sinal | C_para_notifica | C_dorme_sentar | C_le_sentados
  | C_procura | C_exibe =>
      match fim with [S_rodada _ _; S_parou] => true | _ => false end
  | C_destroi | C_fim =>
      match fim with
      | [] => true
      | [S_vencedor v] => (1 <=? v) && (v <=? N)
      | _ => false
      end
  end.

(** The output so far: the lines of the iterations that are over, then what
    the current place of the coordinator allows. *)
Definition saida_conforme (N : Z) (s : Estado) : Prop :=
  exists rs fim,
    saida (mem s) = flat_map linhas_da_rodada rs ++ fim
    /\ cauda_conforme N (pcc (coord s)) fim = true.

(** *** Schedules and steps *)

(** Steps of thread [i] in a schedule. *)
Definition n_jogador (i : nat) (agenda : list Evento) : nat :=
  length (List.filter
            (fun e => match e with E_jogador k => Nat.eqb k i | _ => false end)
            agenda).

(** Schedules in which only the coordinator runs. *)
Definition so_coordenador (agenda : list Evento) : bool :=
  forallb (fun e => match e with E_coord => true | _ => false end) agenda.

(** The game as the sleeps time it, up to the return of [iniciar_jogo]: the
    player threads have been woken by the broadcast of line 189 and have not
    run since. *)
Definition agenda_fim_do_jogo : list Evento :=
  agenda_rodada_1 ++ agenda_rodada_vazia ++ agenda_rodada_vazia
  ++ coordenador 5.

(** The state a schedule leads to from the start of [main] with [N]
    players. *)
Definition estado_apos_de (N : Z) (agenda : list Evento) : Estado :=
  match executa N agenda (estado_inicial N) with
  | Some s => s
  | None => estado_inicial N
  end.

(** Once [jogo_ativo] is false and [musica_parada] is false: the steps a
    thread that is not in the wait of line 144 has left before [joga]
    returns, at most. *)
Definition passos_ate_fim (j : Jogador) : nat :=
  match pc j with
  | J_tenta => 5
  | J_senta => 4
  | J_verifica => 3
  | J_espera_retomada => 2
  | J_laco | J_checa_ativo => 1
  | _ => 0
  end.

(** *** What every execution keeps *)

(** The stop of the music reached every thread: none is asleep in the wait
    of line 144 while [musica_parada] is set, except between the store of
    line 88 and the [notify_all] of line 90. *)
Definition parada_avisada (s : Estado) : Prop :=
  forall i j, jogadores s !! i = Some j -> pc j = J_dorme_parada ->
    musica_parada (mem s) = true -> pcc (coord s) = C_para_notifica.

(** After the broadcast of line 189: both flags are false and no thread is
    asleep in the wait of line 154. *)
Definition inv_final (s : Estado) : Prop :=
  apos_aviso_final s = true
  /\ musica_parada (mem s) = false
  /\ jogo_ativo (mem s) = false
  /\ forall i j, jogadores s !! i = Some j -> pc j <> J_dorme_retomada.

(** A thread whose flag [eliminado] is set and which is past
    [verificar_eliminacao] has its id out of the Active Set. *)
Definition flags_resolvidos (s : Estado) : Prop :=
  forall i j, jogadores s !! i = Some j -> eliminado j = true ->
    pc j <> J_verifica -> ~ In (jog_id j) (jogadores_ativos (mem s)).

(** A list of ids in strictly increasing order. *)
Fixpoint crescente (l : list Z) : Prop :=
  match l with
  | [] => True
  | x :: resto => (forall y, In y resto -> x < y) /\ crescente resto
  end.

(** The entry line 128 records for a thread. *)
Definition assento (j : Jogador) : Z * Z := (jog_id j, jog_id j).

(** A seat is a pair [(id, id)] of a participant id; a result line lists
    participant ids and reports a participant id or the sentinel -1. *)
Definition assento_conforme (N : Z) (p : Z * Z) : Prop :=
  snd p = fst p /\ 1 <= fst p <= N.

Definition resultado_no_intervalo (N : Z) (o : Saida) : Prop :=
  match o with
  | S_resultado ocupantes e =>
      (forall x, In x ocupantes -> 1 <= x <= N)
      /\ (e = -1 \/ 1 <= e <= N)
  | _ => True
  end.

Definition assentos_conformes (N : Z) (s : Estado) : Prop :=
  Forall (assento_conforme N) (cadeiras_ocupadas (mem s))
  /\ Forall (resultado_no_intervalo N) (saida (mem s))
  /\ (pcc (coord s) = C_exibe ->
      eliminado_id (coord s) = -1 \/ 1 <= eliminado_id (coord s) <= N).

(** After the loop of [iniciar_jogo] (line 171 found at most one active
    participant) the Active Set has at most one id; once lines 191-197 ran,
    either the Active Set is empty, or the winner's line is the last of the
    output and names its one id. *)
Definition desfecho (s : Estado) : Prop :=
  match pcc (coord s) with
  | C_encerra | C_notifica_fim | C_vencedor =>
      (length (jogadores_ativos (mem s)) <= 1)%nat
  | C_destroi | C_fim =>
      jogadores_ativos (mem s) = []
      \/ exists v antes,
           saida (mem s) = antes ++ [S_vencedor v]
           /\ jogadores_ativos (mem s) = [v]
  | _ => True
  end.

(** What a step of a player thread, or a wake-up of one, can do to the
    globals: nothing to the flags, the chair count and the output; the
    Seated Set grows at its end by entries [(id, id)] of player threads, the
    gate loses the units taken, the Active Set loses ids. *)
Definition efeito_de_jogadores (s s' : Estado) : Prop :=
  coord s' = coord s
  /\ musica_parada (mem s') = musica_parada (mem s)
  /\ jogo_ativo (mem s') = jogo_ativo (mem s)
  /\ cadeiras (mem s') = cadeiras (mem s)
  /\ saida (mem s') = saida (mem s)
  /\ List.map jog_id (jogadores s') = List.map jog_id (jogadores s)
  /\ permissoes s' = permissoes s
  /\ cadeira_sem (mem s') <= cadeira_sem (mem s)
  /\ jogadores_ativos (mem s') `sublist_of` jogadores_ativos (mem s)
  /\ exists novos,
       cadeiras_ocupadas (mem s') = cadeiras_ocupadas (mem s) ++ novos
       /\ forall p, In p novos ->
            snd p = fst p /\ In (fst p) (List.map jog_id (jogadores s)).

(** *** What the executions that keep to the timing of the sleeps keep *)

(** Once lines 191-197 ran: the winner's line is the last of the output and
    names the one participant left. *)
Definition vencedor_anunciado (s : Estado) : Prop :=
  match pcc (coord s) with
  | C_destroi | C_fim =>
      exists v antes,
        jogadores_ativos (mem s) = [v]
        /\ saida (mem s) = antes ++ [S_vencedor v]
  | _ => True
  end.

(** A result line is consistent when no participant is listed twice and the
    participant reported as eliminated, if there is one, is an id of 1..N
    that is not listed as seated. *)
Definition linha_conforme (N : Z) (o : Saida) : Prop :=
  match o with
  | S_resultado ocupantes e =>
      List.NoDup ocupantes
      /\ (e = -1 \/ (1 <= e <= N /\ ~ In e ocupantes))
  | _ => True
  end.

(** The result lines printed so far are consistent, and the one the
    coordinator is preparing (lines 203-218) will be. *)
Definition resultados_conformes (N : Z) (s : Estado) : Prop :=
  Forall (linha_conforme N) (saida (mem s))
  /\ match pcc (coord s) with
     | C_le_sentados => List.NoDup (le_sentados (mem s))
     | C_procura =>
         List.NoDup (le_sentados (mem s))
         /\ jogadores_sentados (coord s) = le_sentados (mem s)
     | C_exibe =>
         List.NoDup (le_sentados (mem s))
         /\ (eliminado_id (coord s) = -1
             \/ (1 <= eliminado_id (coord s) <= N
                 /\ ~ In (eliminado_id (coord s)) (le_sentados (mem s))))
     | _ => True
     end.

(** *** A game of fewer than two players *)

(** With at most one participant the loop of [iniciar_jogo] is never
    entered: the music never stops, no thread gets past the wait of line
    144, the Active Set and the Seated Set stay as [main] left them, and
    the only line the game can print is the winner's. *)
Definition sem_rodadas (N : Z) (s : Estado) : Prop :=
  musica_parada (mem s) = false
  /\ jogadores_ativos (mem s) = ids_iniciais N
  /\ cadeiras_ocupadas (mem s) = []
  /\ (forall i j, jogadores s !! i = Some j ->
        pc j = J_laco \/ pc j = J_espera_parada \/ pc j = J_dorme_parada
        \/ pc j = J_fim)
  /\ match pcc (coord s) with
     | C_laco | C_encerra | C_notifica_fim | C_vencedor => saida (mem s) = []
     | C_destroi | C_fim =>
         saida (mem s) = List.map S_vencedor (ids_iniciais N)
     | _ => False
     end.
(** * Facts *)

(** ** Machine integers *)

Lemma para_int_size_t (n : nat) :
  Z.of_nat n < 2 ^ 31 -> para_int (size_t_menos_1 n) = Z.of_nat n - 1.
Proof.
  intros Hn. unfold para_int, size_t_menos_1.
  destruct n as [|k].
  - reflexivity.
  - rewrite (Z.mod_small (Z.of_nat (S k) - 1)) by lia.
    rewrite Z.mod_small by lia. lia.
Qed.

Lemma para_ptrdiff_size_t (n : nat) :
  Z.of_nat n < 2 ^ 63 -> para_ptrdiff (size_t_menos_1 n) = Z.of_nat n - 1.
Proof.
  intros Hn. unfold para_ptrdiff, size_t_menos_1.
  destruct n as [|k].
  - reflexivity.
  - rewrite (Z.mod_small (Z.of_nat (S k) - 1)) by lia.
    rewrite Z.mod_small by lia. lia.
Qed.

(** ** The gate *)

Lemma try_acquire_livre (c : Z) : 0 < c -> try_acquire c = (true, c - 1).
Proof.
  intros H. unfold try_acquire.
  destruct (Z.ltb_spec 0 c); [reflexivity | lia].
Qed.

Lemma try_acquire_esgotado (c : Z) : c <= 0 -> try_acquire c = (false, c).
Proof.
  intros H. unfold try_acquire.
  destruct (Z.ltb_spec 0 c); [lia | reflexivity].
Qed.

Lemma tentar_ocupar_cadeira_livre (j : Jogador) (m : Memoria) :
  0 < cadeira_sem m ->
  tentar_ocupar_cadeira j m
  = (true, j, senta (jog_id j) (com_sem (cadeira_sem m - 1) m)).
Proof.
  intros H. unfold tentar_ocupar_cadeira.
  rewrite try_acquire_livre by assumption. reflexivity.
Qed.

Lemma tentar_ocupar_cadeira_esgotado (j : Jogador) (m : Memoria) :
  cadeira_sem m <= 0 ->
  tentar_ocupar_cadeira j m = (false, com_eliminado true j, m).
Proof.
  intros H. unfold tentar_ocupar_cadeira.
  rewrite try_acquire_esgotado by assumption. reflexivity.
Qed.

(** From a gate with [c >= 0] units, [min (length js) c] claims succeed, one
    seat is recorded per success, and the gate keeps the rest. *)
Lemma tentativas_conta (js : list Jogador) :
  forall m, 0 <= cadeira_sem m ->
    let r := tentativas js m in
    Z.of_nat (fst r) = Z.min (Z.of_nat (length js)) (cadeira_sem m)
    /\ cadeira_sem (snd r) = cadeira_sem m - Z.of_nat (fst r)
    /\ length (cadeiras_ocupadas (snd r))
       = (length (cadeiras_ocupadas m) + fst r)%nat
    /\ jogadores_ativos (snd r) = jogadores_ativos m.
Proof.
  induction js as [|j resto IH]; intros m Hc; cbn zeta.
  - cbn. repeat split; lia.
  - cbn [tentativas length].
    destruct (Z_lt_le_dec 0 (cadeira_sem m)) as [Hpos|Hzero].
    + rewrite tentar_ocupar_cadeira_livre by assumption.
      set (m1 := senta (jog_id j) (com_sem (cadeira_sem m - 1) m)).
      assert (Hm1 : cadeira_sem m1 = cadeira_sem m - 1) by reflexivity.
      assert (Hc1 : 0 <= cadeira_sem m1) by lia.
      specialize (IH m1 Hc1). cbn zeta in IH.
      destruct (tentativas resto m1) as [n m2]. cbn [fst snd] in *.
      destruct IH as (Hn & Hs & Hl & Ha).
      repeat split.
      * lia.
      * lia.
      * rewrite Hl. unfold m1, senta. cbn. rewrite length_app. cbn. lia.
      * rewrite Ha. reflexivity.
    + rewrite tentar_ocupar_cadeira_esgotado by assumption.
      specialize (IH m Hc). cbn zeta in IH.
      destruct (tentativas resto m) as [n m2]. cbn [fst snd] in *.
      destruct IH as (Hn & Hs & Hl & Ha).
      repeat split; try assumption. lia.
Qed.

(** ** The Active Set under [eliminar_jogador] *)

Lemma remove_id_In (x y : Z) (l : list Z) :
  In y (remove_id x l) <-> In y l /\ y <> x.
Proof.
  unfold remove_id. rewrite filter_In.
  destruct (Z.eqb_spec y x); cbn; intuition congruence.
Qed.

Lemma remove_id_ausente (x : Z) (l : list Z) :
  ~ In x l -> remove_id x l = l.
Proof.
  induction l as [|a l IH]; intros Hx; [reflexivity|].
  cbn. destruct (Z.eqb_spec a x) as [->|Hne]; cbn.
  - exfalso. apply Hx. now left.
  - f_equal. apply IH. intros H. apply Hx. now right.
Qed.

Lemma remove_id_idempotente (x : Z) (l : list Z) :
  remove_id x (remove_id x l) = remove_id x l.
Proof.
  apply remove_id_ausente. rewrite remove_id_In. intros [_ H]. now apply H.
Qed.

Lemma remove_id_length_le (x : Z) (l : list Z) :
  (length (remove_id x l) <= length l)%nat.
Proof.
  unfold remove_id.
  induction l as [|a l IH]; cbn [List.filter length]; [lia|].
  destruct (negb (a =? x)); cbn [length]; lia.
Qed.

Lemma remove_id_NoDup (x : Z) (l : list Z) :
  List.NoDup l -> List.NoDup (remove_id x l).
Proof.
  intros H. unfold remove_id. now apply List.NoDup_filter.
Qed.

Lemma remove_id_length (x : Z) (l : list Z) :
  List.NoDup l -> In x l -> S (length (remove_id x l)) = length l.
Proof.
  induction l as [|a l IH]; intros Hnd Hin; [destruct Hin|].
  inversion Hnd as [|? ? Hna Hnd']; subst.
  unfold remove_id. cbn [List.filter].
  destruct (Z.eqb_spec a x) as [->|Hne]; cbn [negb length].
  - fold (remove_id x l). now rewrite remove_id_ausente.
  - fold (remove_id x l). f_equal. apply IH; [assumption|].
    destruct Hin as [Heq|Hin]; [congruence | assumption].
Qed.

(** ** The elimination loop of [liberar_threads_eliminadas] *)

Lemma sentado_In (sentados : list Z) (id : Z) :
  sentado sentados id = true <-> In id sentados.
Proof.
  unfold sentado. rewrite existsb_exists. split.
  - intros (y & Hy & Heq). apply Z.eqb_eq in Heq. now subst.
  - intros H. exists id. split; [assumption | apply Z.eqb_refl].
Qed.

Lemma primeiro_em_pe_achado (sentados antes depois : list Z) (x : Z) :
  (forall y, In y antes -> In y sentados) ->
  ~ In x sentados ->
  primeiro_em_pe sentados (antes ++ x :: depois) = Some x.
Proof.
  intros Hantes Hx. unfold primeiro_em_pe.
  induction antes as [|a antes IH]; cbn.
  - destruct (sentado sentados x) eqn:E; [|reflexivity].
    apply sentado_In in E. contradiction.
  - assert (Ha : sentado sentados a = true).
    { apply sentado_In, Hantes. now left. }
    rewrite Ha. cbn. apply IH. intros y Hy. apply Hantes. now right.
Qed.

Lemma primeiro_em_pe_nenhum (sentados ativos : list Z) :
  (forall y, In y ativos -> In y sentados) ->
  primeiro_em_pe sentados ativos = None.
Proof.
  intros H. unfold primeiro_em_pe.
  induction ativos as [|a ativos IH]; cbn; [reflexivity|].
  assert (Ha : sentado sentados a = true).
  { apply sentado_In, H. now left. }
  rewrite Ha. cbn. apply IH. intros y Hy. apply H. now right.
Qed.

Lemma primeiro_em_pe_Some (sentados ativos : list Z) (x : Z) :
  primeiro_em_pe sentados ativos = Some x ->
  In x ativos /\ ~ In x sentados.
Proof.
  unfold primeiro_em_pe. intros H. apply find_some in H as [Hin Hs].
  split; [assumption|]. intros Hc. apply sentado_In in Hc.
  rewrite Hc in Hs. discriminate.
Qed.

Lemma primeiro_em_pe_None (sentados ativos : list Z) :
  primeiro_em_pe sentados ativos = None ->
  forall y, In y ativos -> In y sentados.
Proof.
  unfold primeiro_em_pe. intros H y Hy.
  pose proof (find_none _ _ H y Hy) as Hs. cbn in Hs.
  apply sentado_In. now destruct (sentado sentados y).
Qed.

Lemma procura_eliminado_ativos (sentados : list Z) (m : Memoria) :
  jogadores_ativos (snd (procura_eliminado sentados m)) = jogadores_ativos m
  \/ jogadores_ativos (snd (procura_eliminado sentados m))
     = remove_id (fst (procura_eliminado sentados m)) (jogadores_ativos m).
Proof.
  unfold procura_eliminado.
  destruct (primeiro_em_pe sentados (jogadores_ativos m)); cbn; auto.
Qed.

(** ** C6: the claim attempt *)



(** ** C8: rebuilding the gate *)



Lemma liberar_achado (N : Z) (m : Memoria) (x : Z) :
  primeiro_em_pe (le_sentados m) (jogadores_ativos m) = Some x ->
  liberar_threads_eliminadas N m
  = (x, libera N (exibir_resultado_rodada x (eliminar_jogador x m))).
Proof.
  intros H. unfold liberar_threads_eliminadas, procura_eliminado.
  now rewrite H.
Qed.

Lemma liberar_nenhum (N : Z) (m : Memoria) :
  primeiro_em_pe (le_sentados m) (jogadores_ativos m) = None ->
  liberar_threads_eliminadas N m
  = (-1, libera N (exibir_resultado_rodada (-1) m)).
Proof.
  intros H. unfold liberar_threads_eliminadas, procura_eliminado.
  now rewrite H.
Qed.

(** ** C10: the coordinator's resolution *)

(** C10. [liberar_threads_eliminadas] goes through the Active Set in stored
    order against the ids seated in the round.  The first active id that is
    not seated is removed and reported; every other participant stays, and
    with distinct ids the Active Set loses exactly one entry.  When every
    active id is seated, nobody is removed and the id reported as eliminated
    is the sentinel -1.  In both cases the seated ids and that id are what is
    printed. *)
Theorem C10_resolution (N : Z) (m : Memoria) :
  let sentados := List.map fst (cadeiras_ocupadas m) in
  let r := liberar_threads_eliminadas N m in
  (forall antes x depois,
      jogadores_ativos m = antes ++ x :: depois ->
      (forall y, In y antes -> In y sentados) ->
      ~ In x sentados ->
      fst r = x
      /\ jogadores_ativos (snd r) = remove_id x (jogadores_ativos m)
      /\ (forall y, In y (jogadores_ativos m) -> y <> x ->
                    In y (jogadores_ativos (snd r)))
      /\ (List.NoDup (jogadores_ativos m) ->
          S (length (jogadores_ativos (snd r))) = length (jogadores_ativos m)))
  /\ ((forall y, In y (jogadores_ativos m) -> In y sentados) ->
      fst r = -1 /\ jogadores_ativos (snd r) = jogadores_ativos m)
  /\ saida (snd r) = saida m ++ [S_resultado sentados (fst r)].
Proof.
  intros sentados r.
  split; [|split].
  - intros antes x depois Hat Hantes Hx.
    assert (Hr : r = (x, libera N (exibir_resultado_rodada x (eliminar_jogador x m)))).
    { unfold r. apply liberar_achado. unfold le_sentados. fold sentados.
      rewrite Hat. now apply primeiro_em_pe_achado. }
    rewrite Hr. cbn [fst snd].
    split; [reflexivity|]. split; [reflexivity|]. split.
    + intros y Hy Hne.
      change (In y (remove_id x (jogadores_ativos m))).
      apply remove_id_In. now split.
    + intros Hnd.
      change (S (length (remove_id x (jogadores_ativos m)))
              = length (jogadores_ativos m)).
      apply remove_id_length; [assumption|].
      rewrite Hat. apply in_or_app. right. now left.
  - intros Htodos.
    assert (Hr : r = (-1, libera N (exibir_resultado_rodada (-1) m))).
    { unfold r. apply liberar_nenhum. unfold le_sentados. fold sentados.
      now apply primeiro_em_pe_nenhum. }
    rewrite Hr. split; reflexivity.
  - unfold r, sentados.
    destruct (primeiro_em_pe (le_sentados m) (jogadores_ativos m)) as [x|] eqn:E.
    + rewrite (liberar_achado N m x E). reflexivity.
    + rewrite (liberar_nenhum N m E). reflexivity.
Qed.

Lemma C10_resolution_witness :
  (let m := com_ocupadas [(3, 3); (1, 1)] (memoria_inicial 4) in
   fst (liberar_threads_eliminadas 4 m) = 2
   /\ jogadores_ativos (snd (liberar_threads_eliminadas 4 m)) = [1; 3; 4])
  /\ (let m := com_ocupadas [(2, 2); (1, 1)]
                 (com_ativos [1; 2] (memoria_inicial 4)) in
      fst (liberar_threads_eliminadas 4 m) = -1
      /\ jogadores_ativos (snd (liberar_threads_eliminadas 4 m)) = [1; 2]).
Proof.
  split.
  - cbv zeta.
    destruct (C10_resolution 4 (com_ocupadas [(3, 3); (1, 1)] (memoria_inicial 4)))
      as (H & _ & _).
    destruct (H [1] 2 [3; 4]) as (H1 & H2 & _).
    + reflexivity.
    + cbn. intros y [<-|[]]. tauto.
    + cbn. intros [H0|[H0|[]]]; discriminate.
    + split; [exact H1 | exact H2].
  - cbv zeta.
    destruct (C10_resolution 4 (com_ocupadas [(2, 2); (1, 1)]
                                  (com_ativos [1; 2] (memoria_inicial 4))))
      as (_ & H & _).
    apply H. cbn. tauto.
Defined.

(** ** What one step changes *)

Lemma joga_passo_preserva (j j' : Jogador) (m m' : Memoria) :
  joga_passo j m = Some (j', m') ->
  musica_parada m' = musica_parada m
  /\ jogo_ativo m' = jogo_ativo m
  /\ cadeiras m' = cadeiras m
  /\ saida m' = saida m
  /\ jog_id j' = jog_id j.
Proof.
  intros H. caso_joga j m H; cbn; repeat split; try reflexivity;
    unfold verificar_eliminacao; destruct (eliminado j); reflexivity.
Qed.

Lemma joga_passo_ativos (j j' : Jogador) (m m' : Memoria) :
  joga_passo j m = Some (j', m') ->
  jogadores_ativos m' = jogadores_ativos m
  \/ (pc j = J_verifica /\ eliminado j = true
      /\ jogadores_ativos m' = remove_id (jog_id j) (jogadores_ativos m)).
Proof.
  intros H. caso_joga j m H; cbn; try (left; reflexivity).
  unfold verificar_eliminacao. destruct (eliminado j) eqn:E.
  - right. repeat split.
  - left. reflexivity.
Qed.

Lemma iniciar_jogo_passo_ativos (N : Z) (s s' : Estado) :
  iniciar_jogo_passo N s = Some s' ->
  jogadores_ativos (mem s') = jogadores_ativos (mem s)
  \/ (pcc (coord s) = C_procura
      /\ jogadores_ativos (mem s')
         = remove_id (eliminado_id (coord s')) (jogadores_ativos (mem s))).
Proof.
  intros H. caso_coord s H; cbn; try (left; reflexivity).
  - match goal with E : procura_eliminado _ _ = _ |- _ =>
      pose proof (procura_eliminado_ativos (jogadores_sentados (coord s)) (mem s)) as Hp;
      rewrite E in Hp; cbn in Hp
    end.
    destruct Hp as [Hp|Hp]; [left | right]; auto.
  - left. unfold anuncia_vencedor.
    destruct (jogadores_ativos (mem s)) eqn:E; cbn; congruence.
Qed.

Lemma passo_ativos (N : Z) (e : Evento) (s s' : Estado) :
  passo N e s = Some s' ->
  jogadores_ativos (mem s') = jogadores_ativos (mem s)
  \/ exists x, jogadores_ativos (mem s') = remove_id x (jogadores_ativos (mem s)).
Proof.
  destruct e as [|i|i]; cbn [passo].
  - intros H. apply iniciar_jogo_passo_ativos in H as [H|[_ H]]; eauto.
  - destruct (jogadores s !! i) as [j|]; [|discriminate].
    destruct (joga_passo j (mem s)) as [[j' m']|] eqn:E; [|discriminate].
    intros H. inversion H; subst; clear H. cbn.
    apply joga_passo_ativos in E as [E|(_ & _ & E)]; eauto.
  - destruct (jogadores s !! i) as [j|]; [|discriminate].
    destruct (dormindo j); [|discriminate].
    intros H. inversion H; subst. now left.
Qed.

Lemma executa_app (N : Z) (a b : list Evento) (s : Estado) :
  executa N (a ++ b) s
  = match executa N a s with
    | Some s' => executa N b s'
    | None => None
    end.
Proof.
  revert s. induction a as [|e a IH]; intros s; cbn; [reflexivity|].
  destruct (passo N e s); [apply IH | reflexivity].
Qed.

Lemma executa_ativos (N : Z) (ag : list Evento) :
  forall s s', executa N ag s = Some s' ->
    forall x, In x (jogadores_ativos (mem s')) -> In x (jogadores_ativos (mem s)).
Proof.
  induction ag as [|e ag IH]; intros s s' H x Hx; cbn in H.
  - inversion H; subst. assumption.
  - destruct (passo N e s) as [s1|] eqn:E; [|discriminate].
    specialize (IH s1 s' H x Hx).
    apply passo_ativos in E as [E|[y E]]; rewrite E in IH; [assumption|].
    now apply remove_id_In in IH.
Qed.


(** ** C9: an eliminated id does not come back *)

(** C9. Removing an id that was already removed changes nothing, an id is
    absent from the Active Set once [eliminar_jogador] ran on it, and no step
    of any thread adds an id: an id absent from the Active Set is absent in
    every later state, so in every later round. *)
Theorem C9_eliminated_once (N : Z) (id : Z) (m : Memoria)
  (ag : list Evento) (s s' : Estado) :
  eliminar_jogador id (eliminar_jogador id m) = eliminar_jogador id m
  /\ ~ In id (jogadores_ativos (eliminar_jogador id m))
  /\ (executa N ag s = Some s' ->
      ~ In id (jogadores_ativos (mem s)) ->
      ~ In id (jogadores_ativos (mem s'))).
Proof.
  split; [|split].
  - unfold eliminar_jogador, com_ativos. cbn [jogadores_ativos cadeira_sem
      musica_parada jogo_ativo cadeiras_ocupadas cadeiras saida].
    now rewrite remove_id_idempotente.
  - cbn. rewrite remove_id_In. intros [_ H]. now apply H.
  - intros H Hs Hs'. apply Hs. eapply executa_ativos; eassumption.
Qed.

Lemma C9_eliminated_once_witness :
  ~ In 4 (jogadores_ativos (mem (estado_apos agenda_pontual))).
Proof.
  destruct (C9_eliminated_once NUM_JOGADORES 4 (memoria_inicial 4)
              (coordenador 8 ++ agenda_rodada_vazia ++ agenda_rodada_vazia
               ++ coordenador 5
               ++ turno 0 2 ++ turno 1 2 ++ turno 2 2 ++ turno 3 2)
              (estado_apos (agenda_sentar
                            ++ turno 0 1 ++ turno 1 1 ++ turno 2 1 ++ turno 3 1))
              (estado_apos agenda_pontual))
    as (_ & _ & H).
  apply H.
  - vm_compute. reflexivity.
  - vm_compute. intros [H0|[H0|[H0|[]]]]; discriminate.
Defined.

(** ** C2: who removes from the Active Set *)

(** C2, as the code has it.  The Active Set changes by removal only, and at
    two places: the coordinator's elimination loop (lines 212-218), and a
    player's [verificar_eliminacao] when its own flag [eliminado] is set,
    which removes that player's id.  No other step of any thread changes
    it. *)
Theorem C2_removal_sites (N : Z) (e : Evento) (s s' : Estado) :
  passo N e s = Some s' ->
  jogadores_ativos (mem s') <> jogadores_ativos (mem s) ->
  (e = E_coord /\ pcc (coord s) = C_procura
   /\ jogadores_ativos (mem s')
      = remove_id (eliminado_id (coord s')) (jogadores_ativos (mem s)))
  \/ (exists i j, e = E_jogador i /\ jogadores s !! i = Some j
      /\ pc j = J_verifica /\ eliminado j = true
      /\ jogadores_ativos (mem s')
         = remove_id (jog_id j) (jogadores_ativos (mem s))).
Proof.
  destruct e as [|i|i]; cbn [passo].
  - intros H Hne. left.
    apply iniciar_jogo_passo_ativos in H as [H|[Hp H]]; [contradiction|].
    repeat split; assumption.
  - destruct (jogadores s !! i) as [j|] eqn:Ej; [|discriminate].
    destruct (joga_passo j (mem s)) as [[j' m']|] eqn:E; [|discriminate].
    intros H Hne. inversion H; subst; clear H. cbn in *.
    apply joga_passo_ativos in E as [E|(Hp & He & E)]; [contradiction|].
    right. exists i, j. repeat split; assumption.
  - destruct (jogadores s !! i) as [j|]; [|discriminate].
    destruct (dormindo j); [|discriminate].
    intros H Hne. inversion H; subst. cbn in Hne. contradiction.
Qed.

(** C2 fails as stated: in round 1, while the coordinator sleeps at
    line 175, the thread of player 4 (which found no chair) runs
    [verificar_eliminacao] and takes its own id out of the Active Set. *)
Lemma C2_counterexample :
  exists s s',
    executa NUM_JOGADORES agenda_sem_cadeira (estado_inicial NUM_JOGADORES) = Some s
    /\ passo NUM_JOGADORES (E_jogador 3) s = Some s'
    /\ pcc (coord s) = C_dorme_sentar
    /\ coord s' = coord s
    /\ jogadores_ativos (mem s) = [1; 2; 3; 4]
    /\ jogadores_ativos (mem s') = [1; 2; 3].
Proof.
  eexists. eexists.
  split; [vm_compute; reflexivity|].
  split; [vm_compute; reflexivity|].
  vm_compute. repeat split.
Qed.

Lemma C2_removal_sites_witness :
  exists i j, E_jogador 3 = E_jogador i
    /\ jogadores (estado_apos agenda_sem_cadeira) !! i = Some j
    /\ pc j = J_verifica /\ eliminado j = true.
Proof.
  destruct (C2_removal_sites NUM_JOGADORES (E_jogador 3)
              (estado_apos agenda_sem_cadeira)
              (estado_apos (agenda_sem_cadeira ++ turno 3 1)))
    as [(H & _)|(i & j & H1 & H2 & H3 & H4 & _)].
  - vm_compute. reflexivity.
  - vm_compute. discriminate.
  - discriminate H.
  - exists i, j. repeat split; assumption.
Defined.

(** ** C1: leaving the waits when the game ends *)

Lemma musica_conforme_inicial (N : Z) : musica_conforme (estado_inicial N) = true.
Proof. reflexivity. Qed.

Lemma passo_musica_conforme (N : Z) (e : Evento) (s s' : Estado) :
  passo N e s = Some s' -> musica_conforme s = true -> musica_conforme s' = true.
Proof.
  unfold musica_conforme. destruct e as [|i|i]; cbn [passo].
  - intros H. caso_coord s H; cbn; try (intros Hm; exact Hm);
      try reflexivity.
    + destruct (length (jogadores_ativos (mem s))) as [|[|n]]; auto.
    + match goal with E : procura_eliminado _ _ = _ |- _ =>
        unfold procura_eliminado in E;
        destruct (primeiro_em_pe _ _); inversion E; subst; cbn
      end; intros Hm; exact Hm.
    + unfold anuncia_vencedor. destruct (jogadores_ativos (mem s)); cbn;
        intros Hm; exact Hm.
  - destruct (jogadores s !! i) as [j|]; [|discriminate].
    destruct (joga_passo j (mem s)) as [[j' m']|] eqn:E; [|discriminate].
    intros H. inversion H; subst; clear H. cbn.
    apply joga_passo_preserva in E as (-> & _). auto.
  - destruct (jogadores s !! i) as [j|]; [|discriminate].
    destruct (dormindo j); [|discriminate].
    intros H. inversion H; subst. cbn. auto.
Qed.

Lemma executa_musica_conforme (N : Z) (ag : list Evento) :
  forall s s', executa N ag s = Some s' ->
    musica_conforme s = true -> musica_conforme s' = true.
Proof.
  induction ag as [|e ag IH]; intros s s' H Hm; cbn in H.
  - inversion H; subst. assumption.
  - destruct (passo N e s) as [s1|] eqn:E; [|discriminate].
    eapply IH; [eassumption|]. eapply passo_musica_conforme; eassumption.
Qed.

Lemma apos_aviso_final_musica (s : Estado) :
  musica_conforme s = true -> apos_aviso_final s = true ->
  musica_parada (mem s) = false.
Proof.
  unfold musica_conforme, apos_aviso_final.
  destruct (pcc (coord s)); try discriminate;
    destruct (musica_parada (mem s)); cbn; congruence.
Qed.

(** After the broadcast of line 189 the coordinator only prints; a thread in
    the wait of line 144 tests [musica_parada], finds it false and sleeps
    again, whatever wakes it. *)
Lemma passo_preso (N : Z) (e : Evento) (s s' : Estado) (i : nat) (j : Jogador) :
  apos_aviso_final s = true ->
  musica_parada (mem s) = false ->
  jogadores s !! i = Some j ->
  esperando_parada j = true ->
  passo N e s = Some s' ->
  apos_aviso_final s' = true
  /\ musica_parada (mem s') = false
  /\ exists j', jogadores s' !! i = Some j' /\ esperando_parada j' = true.
Proof.
  intros Hfim Hm Hj He.
  destruct e as [|k|k]; cbn [passo].
  - intros H. unfold apos_aviso_final in *.
    caso_coord s H; try discriminate; cbn.
    + repeat split; eauto.
      unfold anuncia_vencedor. destruct (jogadores_ativos (mem s)); cbn; assumption.
    + repeat split; eauto.
  - destruct (jogadores s !! k) as [jk|] eqn:Ek; [|discriminate].
    destruct (joga_passo jk (mem s)) as [[jk' m']|] eqn:E; [|discriminate].
    intros H. inversion H; subst; clear H. cbn.
    pose proof (joga_passo_preserva _ _ _ _ E) as (Hmm & _).
    repeat split.
    + exact Hfim.
    + congruence.
    + destruct (Nat.eq_dec k i) as [->|Hne].
      * assert (jk = j) by congruence. subst jk.
        exists jk'. split.
        -- apply list_lookup_insert_eq. eapply lookup_lt_Some; eassumption.
        -- unfold esperando_parada in He. unfold joga_passo in E.
           destruct (pc j); try discriminate.
           rewrite Hm in E. inversion E; subst. reflexivity.
      * exists j. split; [|assumption].
        rewrite list_lookup_insert_ne by assumption. assumption.
  - destruct (jogadores s !! k) as [jk|] eqn:Ek; [|discriminate].
    destruct (dormindo jk) eqn:Ed; [|discriminate].
    intros H. inversion H; subst; clear H. cbn.
    repeat split; try assumption.
    destruct (Nat.eq_dec k i) as [->|Hne].
    + assert (jk = j) by congruence. subst jk.
      exists (acorda j). split.
      * apply list_lookup_insert_eq. eapply lookup_lt_Some; eassumption.
      * unfold esperando_parada, dormindo in *. unfold acorda.
        destruct (pc j) eqn:Ep; try discriminate; cbn; reflexivity.
    + exists j. split; [|assumption].
      rewrite list_lookup_insert_ne by assumption. assumption.
Qed.

(** C1, at the code.  Take any state the program can reach in which the
    coordinator has stored [jogo_ativo = false] and issued the broadcast of
    line 189, and a player thread that is in the wait for the music to stop
    (line 144).  Then [jogo_ativo] is false, [musica_parada] is false, and
    whatever the scheduler does next (including waking the thread), the
    thread is still in that wait: its wait never returns and it never
    reaches the test of line 147. *)
Theorem C1_stuck_in_wait_for_stop (N : Z) (ag1 ag2 : list Evento)
  (s s' : Estado) (i : nat) (j : Jogador) :
  executa N ag1 (estado_inicial N) = Some s ->
  apos_aviso_final s = true ->
  jogadores s !! i = Some j ->
  esperando_parada j = true ->
  executa N ag2 s = Some s' ->
  musica_parada (mem s) = false
  /\ exists j', jogadores s' !! i = Some j' /\ esperando_parada j' = true.
Proof.
  intros Hreach Hfim Hj He Hrun.
  assert (Hm : musica_parada (mem s) = false).
  { apply apos_aviso_final_musica; [|assumption].
    eapply executa_musica_conforme; [eassumption|].
    apply musica_conforme_inicial. }
  split; [assumption|].
  clear Hreach. revert s j Hfim Hj He Hm Hrun.
  induction ag2 as [|e ag2 IH]; intros s j Hfim Hj He Hm Hrun; cbn in Hrun.
  - inversion Hrun; subst. eauto.
  - destruct (passo N e s) as [s1|] eqn:E; [|discriminate].
    destruct (passo_preso N e s s1 i j Hfim Hm Hj He E)
      as (Hfim1 & Hm1 & j1 & Hj1 & He1).
    eapply IH; eassumption.
Qed.

(** The failing run: thread 0 woke without notification during the last
    round's sleep, went round its loop while [jogo_ativo] was still true and
    entered the wait for the music to stop.  The game then ends, the three
    other threads return, thread 0 is asleep at line 144 for good. *)
Lemma C1_stuck_in_wait_for_stop_witness :
  let s := estado_apos agenda_espurio in
  pcc (coord s) = C_fim
  /\ jogo_ativo (mem s) = false
  /\ List.map pc (jogadores s) = [J_dorme_parada; J_fim; J_fim; J_fim]
  /\ forall s', executa NUM_JOGADORES [E_espurio 0; E_jogador 0] s = Some s' ->
       exists j', jogadores s' !! 0%nat = Some j' /\ esperando_parada j' = true.
Proof.
  cbv zeta. split; [vm_compute; reflexivity|].
  split; [vm_compute; reflexivity|].
  split; [vm_compute; reflexivity|].
  intros s' Hs'.
  refine (proj2 (C1_stuck_in_wait_for_stop NUM_JOGADORES agenda_espurio
                   [E_espurio 0; E_jogador 0] (estado_apos agenda_espurio) s' 0
                   {| jog_id := 1; eliminado := false; pc := J_dorme_parada |}
                   _ _ _ _ Hs')).
  - vm_compute. reflexivity.
  - vm_compute. reflexivity.
  - vm_compute. reflexivity.
  - reflexivity.
Defined.

(** The part of C1 the code does keep: after the final broadcast a thread
    in the wait for the music to resume (line 154) gets through it, finds
    [jogo_ativo] false at line 141 and returns. *)
Lemma passo_jogo_conforme (N : Z) (e : Evento) (s s' : Estado) :
  passo N e s = Some s' -> jogo_conforme s = true -> jogo_conforme s' = true.
Proof.
  unfold jogo_conforme. destruct e as [|i|i]; cbn [passo].
  - intros H. caso_coord s H; cbn; try (intros Hm; exact Hm);
      try reflexivity.
    + destruct (length (jogadores_ativos (mem s))) as [|[|n]]; auto.
    + match goal with E : procura_eliminado _ _ = _ |- _ =>
        unfold procura_eliminado in E;
        destruct (primeiro_em_pe _ _); inversion E; subst; cbn
      end; intros Hm; exact Hm.
    + unfold anuncia_vencedor. destruct (jogadores_ativos (mem s)); cbn;
        intros Hm; exact Hm.
  - destruct (jogadores s !! i) as [j|]; [|discriminate].
    destruct (joga_passo j (mem s)) as [[j' m']|] eqn:E; [|discriminate].
    intros H. inversion H; subst; clear H. cbn.
    apply joga_passo_preserva in E as (_ & -> & _). auto.
  - destruct (jogadores s !! i) as [j|]; [|discriminate].
    destruct (dormindo j); [|discriminate].
    intros H. inversion H; subst. cbn. auto.
Qed.

Lemma executa_jogo_conforme (N : Z) (ag : list Evento) :
  forall s s', executa N ag s = Some s' ->
    jogo_conforme s = true -> jogo_conforme s' = true.
Proof.
  induction ag as [|e ag IH]; intros s s' H Hm; cbn in H.
  - inversion H; subst. assumption.
  - destruct (passo N e s) as [s1|] eqn:E; [|discriminate].
    eapply IH; [eassumption|]. eapply passo_jogo_conforme; eassumption.
Qed.

Lemma sai_da_espera_retomada (N : Z) (ag : list Evento) (s : Estado)
  (i : nat) (j : Jogador) :
  executa N ag (estado_inicial N) = Some s ->
  apos_aviso_final s = true ->
  jogadores s !! i = Some j ->
  pc j = J_espera_retomada ->
  executa N (turno i 2) s
  = Some {| mem := mem s; jogadores := <[i := com_pc J_fim j]> (jogadores s);
            coord := coord s |}.
Proof.
  intros Hrun Hfim Hj Hpc.
  assert (Hm : musica_parada (mem s) = false).
  { apply apos_aviso_final_musica; [|assumption].
    eapply executa_musica_conforme; [eassumption|].
    apply musica_conforme_inicial. }
  assert (Hja : jogo_ativo (mem s) = false).
  { pose proof (executa_jogo_conforme N ag _ _ Hrun eq_refl) as Hc.
    unfold jogo_conforme in Hc. unfold apos_aviso_final in Hfim.
    destruct (pcc (coord s)); try discriminate;
      destruct (jogo_ativo (mem s)); cbn in Hc; congruence. }
  assert (Hlen : (i < length (jogadores s))%nat)
    by (eapply lookup_lt_Some; eassumption).
  cbn [turno repeat executa passo]. rewrite Hj.
  unfold joga_passo at 1. rewrite Hpc, Hm.
  cbn [mem jogadores coord].
  rewrite list_lookup_insert_eq by assumption.
  unfold joga_passo. cbn [pc com_pc]. rewrite Hja.
  rewrite list_insert_insert_eq. reflexivity.
Qed.

(** The same end without any spurious wake-up: when the players are not
    scheduled while the music is stopped, all four are asleep at line 144
    when [iniciar_jogo] returns. *)
Lemma presos_sem_despertar_espurio :
  exists s,
    executa NUM_JOGADORES agenda_ausente (estado_inicial NUM_JOGADORES) = Some s
    /\ pcc (coord s) = C_fim
    /\ jogo_ativo (mem s) = false
    /\ musica_parada (mem s) = false
    /\ List.map pc (jogadores s)
       = [J_dorme_parada; J_dorme_parada; J_dorme_parada; J_dorme_parada].
Proof.
  eexists. split; [vm_compute; reflexivity|].
  vm_compute. repeat split.
Qed.

(** ** The coordinator running alone *)

Lemma coord_iniciar_rodada (N : Z) (s : Estado) :
  pcc (coord s) = C_rodada_cadeiras ->
  executa N (coordenador 3) s
  = Some {| mem := iniciar_rodada (mem s); jogadores := jogadores s;
            coord := com_pcc C_dorme_musica (coord s) |}.
Proof.
  destruct s as [m js [p se el]]. cbn. intros ->. reflexivity.
Qed.

Lemma coord_sem_eliminado (N : Z) (s : Estado) :
  pcc (coord s) = C_procura ->
  (forall y, In y (jogadores_ativos (mem s)) ->
             In y (jogadores_sentados (coord s))) ->
  exists s1,
    executa N (coordenador 7) s = Some s1
    /\ eliminado_id (coord s1) = -1
    /\ jogadores_ativos (mem s1) = jogadores_ativos (mem s)
    /\ saida (mem s1)
       = saida (mem s)
         ++ [S_resultado (List.map fst (cadeiras_ocupadas (mem s))) (-1)]
    /\ pcc (coord s1)
       = if (1 <? length (jogadores_ativos (mem s)))%nat
         then C_rodada_cadeiras else C_encerra.
Proof.
  destruct s as [m js [p se el]]. cbn [coord mem pcc jogadores_sentados].
  intros -> Htodos.
  cbn [coordenador repeat executa passo iniciar_jogo_passo coord mem pcc
       jogadores_sentados eliminado_id jogadores com_pcc].
  unfold procura_eliminado. rewrite (primeiro_em_pe_nenhum se _ Htodos).
  cbn [executa passo iniciar_jogo_passo coord mem pcc
       jogadores_sentados eliminado_id jogadores com_pcc].
  eexists. split; [reflexivity|]. cbn. repeat split.
Qed.

(** ** C5: what the coordinator does when an invariant is broken *)

(** C5, as the code has it.  The coordinator has no abort: until
    [iniciar_jogo] returns it always has a next step.  When the elimination
    loop finds every active participant seated, it removes nobody, the id
    printed as eliminated is the sentinel -1, and the coordinator goes on
    with [release], the resume and the new gate, back to the loop test: a
    new round starts if more than one participant is active.  When the
    Active Set is empty after the loop, no winner is printed and the
    function carries on to its end. *)
Theorem C5_no_abort (N : Z) (s : Estado) :
  (pcc (coord s) <> C_fim -> iniciar_jogo_passo N s <> None)
  /\ (pcc (coord s) = C_procura ->
      (forall y, In y (jogadores_ativos (mem s)) ->
                 In y (jogadores_sentados (coord s))) ->
      exists s1,
        executa N (coordenador 7) s = Some s1
        /\ eliminado_id (coord s1) = -1
        /\ jogadores_ativos (mem s1) = jogadores_ativos (mem s)
        /\ saida (mem s1)
           = saida (mem s)
             ++ [S_resultado (List.map fst (cadeiras_ocupadas (mem s))) (-1)]
        /\ pcc (coord s1)
           = if (1 <? length (jogadores_ativos (mem s)))%nat
             then C_rodada_cadeiras else C_encerra)
  /\ (pcc (coord s) = C_vencedor ->
      jogadores_ativos (mem s) = [] ->
      exists s1,
        iniciar_jogo_passo N s = Some s1
        /\ pcc (coord s1) = C_destroi
        /\ saida (mem s1) = saida (mem s)).
Proof.
  split; [|split].
  - intros Hpc. unfold iniciar_jogo_passo.
    destruct (pcc (coord s)); try discriminate;
      try (destruct (procura_eliminado _ _); discriminate).
    contradiction.
  - apply coord_sem_eliminado.
  - intros Hpc Hvazio. unfold iniciar_jogo_passo. rewrite Hpc.
    eexists. split; [reflexivity|]. cbn.
    unfold anuncia_vencedor. rewrite Hvazio. split; reflexivity.
Qed.

(** C5 fails as stated: in the game as the sleeps time it, the elimination
    loop of round 1 finds players 1, 2, 3 all seated (player 4 took itself
    out already) and no one to eliminate; the coordinator prints -1 and
    starts round 2, and the game runs to its end with a winner. *)
Lemma C5_counterexample :
  exists s1 s2,
    executa NUM_JOGADORES
      (agenda_sentar ++ turno 0 1 ++ turno 1 1 ++ turno 2 1 ++ turno 3 1
       ++ coordenador 2)
      (estado_inicial NUM_JOGADORES) = Some s1
    /\ pcc (coord s1) = C_procura
    /\ jogadores_ativos (mem s1) = [1; 2; 3]
    /\ jogadores_sentados (coord s1) = [1; 2; 3]
    /\ executa NUM_JOGADORES agenda_pontual (estado_inicial NUM_JOGADORES) = Some s2
    /\ pcc (coord s2) = C_fim
    /\ saida (mem s2)
       = [S_rodada 4 3; S_parou; S_resultado [1; 2; 3] (-1);
          S_rodada 3 2; S_parou; S_resultado [] 1;
          S_rodada 2 1; S_parou; S_resultado [] 2;
          S_vencedor 3].
Proof.
  eexists. eexists.
  split; [vm_compute; reflexivity|].
  split; [vm_compute; reflexivity|].
  split; [vm_compute; reflexivity|].
  split; [vm_compute; reflexivity|].
  split; [vm_compute; reflexivity|].
  vm_compute. split; reflexivity.
Qed.

Lemma C5_no_abort_witness :
  let s := estado_apos (agenda_sentar ++ turno 0 1 ++ turno 1 1 ++ turno 2 1
                        ++ turno 3 1 ++ coordenador 2) in
  iniciar_jogo_passo NUM_JOGADORES s <> None
  /\ (exists s1, executa NUM_JOGADORES (coordenador 7) s = Some s1
                 /\ eliminado_id (coord s1) = -1
                 /\ pcc (coord s1) = C_rodada_cadeiras)
  /\ (exists s1,
        iniciar_jogo_passo NUM_JOGADORES
          {| mem := com_ativos [] (memoria_inicial 4);
             jogadores := [];
             coord := {| pcc := C_vencedor; jogadores_sentados := [];
                         eliminado_id := -1 |} |} = Some s1
        /\ saida (mem s1) = []).
Proof.
  cbv zeta. split; [|split].
  - apply (C5_no_abort NUM_JOGADORES). vm_compute. discriminate.
  - destruct (C5_no_abort NUM_JOGADORES
                (estado_apos (agenda_sentar ++ turno 0 1 ++ turno 1 1
                              ++ turno 2 1 ++ turno 3 1 ++ coordenador 2)))
      as (_ & H & _).
    destruct H as (s1 & H1 & H2 & _ & _ & H5).
    + vm_compute. reflexivity.
    + vm_compute. tauto.
    + exists s1. repeat split; assumption.
  - destruct (C5_no_abort NUM_JOGADORES
                {| mem := com_ativos [] (memoria_inicial 4);
                   jogadores := [];
                   coord := {| pcc := C_vencedor; jogadores_sentados := [];
                               eliminado_id := -1 |} |})
      as (_ & _ & H).
    destruct H as (s1 & H1 & _ & H3); [reflexivity | reflexivity |].
    exists s1. split; assumption.
Defined.

(** ** C7: the start of a round *)

Lemma length_ids_iniciais (N : Z) : length (ids_iniciais N) = Z.to_nat N.
Proof. unfold ids_iniciais. now rewrite length_map, length_seq. Qed.

(** C7, as the code has it.  [iniciar_rodada] sets the chair count to
    [size(Active Set) - 1], empties the Seated Set and announces the round;
    it leaves the gate, the Active Set and the music flag as they are.  The
    gate of a round is the one built at lines 183-184 at the end of the
    previous iteration, and for the first round the one of line 14: when
    [iniciar_rodada] comes right after either, the gate holds the chair
    count.  In the running program the music is not stopped while
    [iniciar_rodada] runs, so a thread in its wait for the stop does not get
    through to its claim before line 88. *)
Theorem C7_round_start (N : Z) (m : Memoria) (ag : list Evento) (s : Estado) :
  let n := Z.of_nat (length (jogadores_ativos m)) in
  n < 2 ^ 31 ->
  (cadeiras (iniciar_rodada m) = n - 1
   /\ cadeiras_ocupadas (iniciar_rodada m) = []
   /\ saida (iniciar_rodada m) = saida m ++ [S_rodada n (n - 1)]
   /\ cadeira_sem (iniciar_rodada m) = cadeira_sem m
   /\ jogadores_ativos (iniciar_rodada m) = jogadores_ativos m
   /\ musica_parada (iniciar_rodada m) = musica_parada m)
  /\ cadeira_sem (iniciar_rodada (reconstroi m))
     = cadeiras (iniciar_rodada (reconstroi m))
  /\ (0 <= N < 2 ^ 31 ->
      cadeira_sem (iniciar_rodada (memoria_inicial N))
      = cadeiras (iniciar_rodada (memoria_inicial N)))
  /\ (executa N ag (estado_inicial N) = Some s ->
      em_iniciar_rodada s = true ->
      musica_parada (mem s) = false
      /\ forall i j j' m',
           jogadores s !! i = Some j -> esperando_parada j = true ->
           joga_passo j (mem s) = Some (j', m') -> pc j' = J_dorme_parada).
Proof.
  intros n Hn.
  assert (Hcad : forall m0, jogadores_ativos m0 = jogadores_ativos m ->
                   cadeiras (iniciar_rodada m0) = n - 1).
  { intros m0 H0. unfold iniciar_rodada, iniciar_rodada_cadeiras. cbn.
    rewrite H0. now apply para_int_size_t. }
  split; [|split; [|split]].
  - split; [now apply Hcad|].
    split; [reflexivity|].
    split.
    + unfold iniciar_rodada, iniciar_rodada_anuncia, iniciar_rodada_limpa,
        iniciar_rodada_cadeiras. cbn. fold n.
      now rewrite para_int_size_t.
    + repeat split.
  - rewrite Hcad by reflexivity.
    unfold iniciar_rodada, reconstroi, novo_semaforo. cbn.
    apply para_ptrdiff_size_t. fold n. lia.
  - intros HN.
    unfold iniciar_rodada, iniciar_rodada_cadeiras, memoria_inicial,
      novo_semaforo. cbn.
    rewrite length_ids_iniciais, para_int_size_t; lia.
  - intros Hrun Hpc.
    assert (Hm : musica_parada (mem s) = false).
    { pose proof (executa_musica_conforme N ag _ _ Hrun
                    (musica_conforme_inicial N)) as Hc.
      unfold musica_conforme in Hc. unfold em_iniciar_rodada in Hpc.
      destruct (pcc (coord s)); try discriminate;
        destruct (musica_parada (mem s)); cbn in Hc; congruence. }
    split; [assumption|].
    intros i j j' m' _ He Hp. unfold esperando_parada in He.
    unfold joga_passo in Hp. rewrite Hm in Hp.
    destruct (pc j); try discriminate; inversion Hp; reflexivity.
Qed.

(** C7 fails as stated: here player 4 claimed late, on the gate built for
    round 2, before round 2 began.  [iniciar_rodada] then computes two
    chairs and clears the Seated Set, and the gate keeps its one unit. *)
Lemma C7_counterexample :
  exists s0 s1,
    executa NUM_JOGADORES agenda_atrasado (estado_inicial NUM_JOGADORES) = Some s0
    /\ pcc (coord s0) = C_rodada_cadeiras
    /\ executa NUM_JOGADORES (coordenador 3) s0 = Some s1
    /\ mem s1 = iniciar_rodada (mem s0)
    /\ jogadores_ativos (mem s1) = [1; 2; 3]
    /\ cadeiras (mem s1) = 2
    /\ cadeiras_ocupadas (mem s1) = []
    /\ cadeira_sem (mem s0) = 1
    /\ cadeira_sem (mem s1) = 1.
Proof.
  eexists. eexists.
  split; [vm_compute; reflexivity|].
  split; [vm_compute; reflexivity|].
  split; [vm_compute; reflexivity|].
  vm_compute. repeat split.
Qed.

Lemma C7_round_start_witness :
  cadeiras (iniciar_rodada (memoria_inicial 4)) = 3
  /\ cadeira_sem (iniciar_rodada (memoria_inicial 4)) = 3
  /\ musica_parada (mem (estado_apos (agenda_espera ++ coordenador 2))) = false.
Proof.
  destruct (C7_round_start NUM_JOGADORES (memoria_inicial 4)
              (agenda_espera ++ coordenador 2)
              (estado_apos (agenda_espera ++ coordenador 2)))
    as ((H1 & _ & _ & H4 & _) & _ & _ & H).
  - vm_compute. reflexivity.
  - split; [exact H1|]. split; [exact H4|].
    apply H; vm_compute; reflexivity.
Defined.

(** ** C4: seats recorded in a round *)

Lemma procura_eliminado_resto (sentados : list Z) (m : Memoria) :
  let m' := snd (procura_eliminado sentados m) in
  cadeira_sem m' = cadeira_sem m
  /\ cadeiras_ocupadas m' = cadeiras_ocupadas m
  /\ cadeiras m' = cadeiras m
  /\ saida m' = saida m.
Proof.
  unfold procura_eliminado.
  destruct (primeiro_em_pe sentados (jogadores_ativos m)); cbn; repeat split.
Qed.

Lemma n_sentando_cons (j : Jogador) (js : list Jogador) :
  n_sentando (j :: js) = (sentando j + n_sentando js)%nat.
Proof.
  unfold n_sentando, sentando. cbn [List.filter].
  destruct (pc j); reflexivity.
Qed.

Lemma n_sentando_insert (js : list Jogador) :
  forall (i : nat) (j j' : Jogador),
    js !! i = Some j ->
    (n_sentando (<[i := j']> js) + sentando j
     = n_sentando js + sentando j')%nat.
Proof.
  induction js as [|a js IH]; intros i j j' Hi; [discriminate|].
  destruct i as [|i]; cbn in Hi.
  - inversion Hi; subst. cbn [insert list_insert].
    rewrite !n_sentando_cons. lia.
  - change (<[S i := j']> (a :: js)) with (a :: <[i := j']> js).
    rewrite !n_sentando_cons. specialize (IH i j j' Hi). lia.
Qed.

Lemma n_sentando_notify_all (js : list Jogador) :
  n_sentando (notify_all js) = n_sentando js.
Proof.
  induction js as [|a js IH]; [reflexivity|].
  change (notify_all (a :: js)) with (acorda a :: notify_all js).
  rewrite !n_sentando_cons, IH. f_equal.
  unfold sentando, acorda. destruct (pc a) eqn:E; cbn; rewrite ?E; reflexivity.
Qed.

Lemma n_sentando_acorda (js : list Jogador) (i : nat) (j : Jogador) :
  js !! i = Some j -> n_sentando (<[i := acorda j]> js) = n_sentando js.
Proof.
  intros Hi. pose proof (n_sentando_insert js i j (acorda j) Hi) as H.
  assert (sentando (acorda j) = sentando j).
  { unfold sentando, acorda. destruct (pc j) eqn:E; cbn; rewrite ?E; reflexivity. }
  lia.
Qed.

(** Between the clearing and the resolution no step creates or destroys a
    unit of the gate, the chair count stays, and the counter stays
    non-negative. *)
Arguments n_sentando _ : simpl never.

Lemma passo_permissoes (N : Z) (e : Evento) (s s' : Estado) :
  passo N e s = Some s' ->
  entre_limpar_e_resolver s = true ->
  permissoes s' = permissoes s
  /\ cadeiras (mem s') = cadeiras (mem s)
  /\ (0 <= cadeira_sem (mem s) -> 0 <= cadeira_sem (mem s')).
Proof.
  unfold permissoes. destruct e as [|i|i]; cbn [passo].
  - intros H Hj. unfold entre_limpar_e_resolver in Hj.
    caso_coord s H; try discriminate; cbn;
      rewrite ?n_sentando_notify_all; repeat split; try lia.
    all: match goal with E : procura_eliminado _ _ = _ |- _ =>
           pose proof (procura_eliminado_resto (jogadores_sentados (coord s)) (mem s)) as Hp;
           rewrite E in Hp; cbn in Hp; destruct Hp as (Hp1 & Hp2 & Hp3 & _)
         end; rewrite ?Hp1, ?Hp2, ?Hp3; lia.
  - destruct (jogadores s !! i) as [j|] eqn:Ej; [|discriminate].
    destruct (joga_passo j (mem s)) as [[j' m']|] eqn:E; [|discriminate].
    intros H _. inversion H; subst; clear H. cbn.
    pose proof (n_sentando_insert (jogadores s) i j j' Ej) as Hn.
    unfold sentando in Hn.
    caso_joga j (mem s) E;
      destruct (jogo_ativo (mem s)); destruct (musica_parada (mem s));
      cbn in *;
      try match goal with
          | H : try_acquire _ = _ |- _ =>
              unfold try_acquire in H;
              destruct (Z.ltb_spec 0 (cadeira_sem (mem s)));
              inversion H; subst; clear H
          end;
      rewrite ?length_app; cbn;
      try (unfold verificar_eliminacao; destruct (eliminado j); cbn);
      repeat split; try lia.
  - destruct (jogadores s !! i) as [j|] eqn:Ej; [|discriminate].
    destruct (dormindo j); [|discriminate].
    intros H _. inversion H; subst; clear H. cbn.
    rewrite (n_sentando_acorda _ _ _ Ej). repeat split; lia.
Qed.

Lemma executa_na_janela (N : Z) (ag : list Evento) :
  forall s s',
    executa N ag s = Some s' ->
    sempre entre_limpar_e_resolver N ag s = true ->
    permissoes s' = permissoes s
    /\ cadeiras (mem s') = cadeiras (mem s)
    /\ (0 <= cadeira_sem (mem s) -> 0 <= cadeira_sem (mem s')).
Proof.
  induction ag as [|e ag IH]; intros s s' H Hj; cbn in H, Hj.
  - inversion H; subst. repeat split; auto.
  - apply andb_prop in Hj as [Hs Hj].
    destruct (passo N e s) as [s1|] eqn:E; [|discriminate].
    destruct (passo_permissoes N e s s1 E Hs) as (Hp & Hc & Hz).
    destruct (IH s1 s' H Hj) as (Hp' & Hc' & Hz').
    repeat split; [congruence | congruence | auto].
Qed.

(** C4, as the code has it.  Take a round that begins ([sr], the
    coordinator entering [iniciar_rodada]) with the gate holding
    [size(Active Set) - 1] units and no thread holding a unit it has not
    recorded yet, and let the coordinator compute the chair count and clear
    the Seated Set.  From then on, whatever the threads do, at every point up
    to the elimination loop the Seated Set has at most as many entries as
    the round has chairs, which is the capacity the gate had for the round
    and the size the Active Set had when the round began, minus one. *)
Theorem C4_seated_bounded (N : Z) (sr s0 s : Estado) (ag : list Evento) :
  let n := Z.of_nat (length (jogadores_ativos (mem sr))) in
  pcc (coord sr) = C_rodada_cadeiras ->
  1 <= n < 2 ^ 31 ->
  cadeira_sem (mem sr) = n - 1 ->
  n_sentando (jogadores sr) = 0%nat ->
  executa N (coordenador 2) sr = Some s0 ->
  executa N ag s0 = Some s ->
  sempre entre_limpar_e_resolver N ag s0 = true ->
  Z.of_nat (length (cadeiras_ocupadas (mem s))) <= cadeiras (mem s)
  /\ cadeiras (mem s) = cadeira_sem (mem sr)
  /\ cadeiras (mem s) = n - 1.
Proof.
  intros n Hpc Hn Hsem Hsent H0 Hrun Hj.
  destruct (executa_na_janela N ag s0 s Hrun Hj) as (Hp & Hc & Hz).
  destruct sr as [m js [p se el]]. cbn in Hpc, Hsem, Hsent, n. subst p.
  cbn in H0. inversion H0; subst s0; clear H0.
  unfold permissoes in Hp. cbn in Hp, Hc, Hz.
  fold n in Hp, Hc, Hz. rewrite para_int_size_t in Hc by (fold n; lia).
  rewrite Hsent in Hp. fold n in Hc. cbn [mem] in *.
  specialize (Hz ltac:(lia)).
  repeat split; lia.
Qed.

Lemma C4_seated_bounded_witness :
  Z.of_nat (length (cadeiras_ocupadas (mem (estado_apos agenda_sentar)))) <= 3.
Proof.
  destruct (C4_seated_bounded NUM_JOGADORES
              (estado_apos (agenda_espera ++ coordenador 1))
              (estado_apos (agenda_espera ++ coordenador 3))
              (estado_apos agenda_sentar)
              (coordenador 5 ++ turno 0 5 ++ turno 1 5 ++ turno 2 5 ++ turno 3 4))
    as (H & _).
  - vm_compute. reflexivity.
  - vm_compute. split; [discriminate | reflexivity].
  - vm_compute. reflexivity.
  - vm_compute. reflexivity.
  - vm_compute. reflexivity.
  - vm_compute. reflexivity.
  - vm_compute. reflexivity.
  - exact H.
Defined.

(** C4 fails as stated, twice over.  In round 1 as the sleeps time it,
    three seats are recorded and player 4 has taken itself out of the Active
    Set before the coordinator resolves: 3 seats, 3 active.  And when a
    thread records late a seat it claimed in the round before, the Seated
    Set outgrows the round's chairs: 3 seats, 2 chairs. *)
Lemma C4_counterexample :
  (exists s,
      executa NUM_JOGADORES agenda_sentar (estado_inicial NUM_JOGADORES) = Some s
      /\ entre_limpar_e_resolver s = true
      /\ length (cadeiras_ocupadas (mem s)) = 3%nat
      /\ length (jogadores_ativos (mem s)) = 3%nat
      /\ ~ (Z.of_nat (length (cadeiras_ocupadas (mem s)))
            <= Z.of_nat (length (jogadores_ativos (mem s))) - 1))
  /\ (exists s,
      executa NUM_JOGADORES agenda_sobra (estado_inicial NUM_JOGADORES) = Some s
      /\ entre_limpar_e_resolver s = true
      /\ length (cadeiras_ocupadas (mem s)) = 3%nat
      /\ cadeiras (mem s) = 2
      /\ ~ (Z.of_nat (length (cadeiras_ocupadas (mem s))) <= cadeiras (mem s))).
Proof.
  split; eexists; (split; [vm_compute; reflexivity|]);
    vm_compute; repeat split; intros H; apply H; reflexivity.
Qed.

(** ** Facts used for the rounds *)

Lemma le_sentados_senta (id : Z) (m : Memoria) :
  le_sentados (senta id m) = le_sentados m ++ [id].
Proof. unfold le_sentados, senta. cbn. now rewrite map_app. Qed.

Lemma rodadas_anunciadas_imprime (o : Saida) (m : Memoria) :
  rodadas_anunciadas (imprime o m)
  = rodadas_anunciadas m
    ++ match o with S_rodada n c => [(n, c)] | _ => [] end.
Proof.
  unfold rodadas_anunciadas, imprime. cbn [saida].
  rewrite flat_map_app. cbn. now rewrite app_nil_r.
Qed.

Lemma lookup_jogadores_seq (n : nat) :
  forall (a i : nat) (j : Jogador),
    List.map (fun x => {| jog_id := Z.of_nat x; eliminado := false; pc := J_laco |})
             (seq a n) !! i = Some j ->
    jog_id j = Z.of_nat (a + i) /\ eliminado j = false.
Proof.
  induction n as [|n IH]; intros a i j H; [discriminate|].
  destruct i as [|i]; cbn in H.
  - inversion H; subst. cbn. split; [f_equal; lia | reflexivity].
  - apply IH in H as [H1 H2]. split; [rewrite H1; f_equal; lia | assumption].
Qed.

Lemma lookup_jogadores_iniciais (N : Z) (i : nat) (j : Jogador) :
  jogadores_iniciais N !! i = Some j ->
  jog_id j = Z.of_nat (S i) /\ eliminado j = false.
Proof.
  unfold jogadores_iniciais, ids_iniciais. rewrite map_map.
  apply lookup_jogadores_seq.
Qed.



(** ** C3: the number of rounds *)

Lemma lookup_map_id (js : list Jogador) :
  forall i j, js !! i = Some j -> List.map jog_id js !! i = Some (jog_id j).
Proof.
  induction js as [|a js IH]; intros i j H; [discriminate|].
  destruct i as [|i]; cbn in *.
  - now inversion H.
  - now apply IH.
Qed.

Lemma ids_lookup (js : list Jogador) (i i' : nat) (j j' : Jogador) :
  List.NoDup (List.map jog_id js) ->
  js !! i = Some j -> js !! i' = Some j' -> jog_id j = jog_id j' -> i = i'.
Proof.
  intros Hnd Hi Hi' Hid.
  apply lookup_map_id in Hi, Hi'. rewrite Hid in Hi.
  apply NoDup_ListNoDup in Hnd.
  eapply NoDup_lookup; eassumption.
Qed.

Lemma map_id_insert (js : list Jogador) :
  forall i j j', js !! i = Some j -> jog_id j' = jog_id j ->
    List.map jog_id (<[i := j']> js) = List.map jog_id js.
Proof.
  induction js as [|a js IH]; intros i j j' H Hid; [reflexivity|].
  destruct i as [|i]; cbn in *.
  - inversion H; subst. now rewrite Hid.
  - f_equal. eapply IH; eassumption.
Qed.

Lemma lookup_insert_casos (js : list Jogador) (i k : nat) (j' jk : Jogador) :
  <[i := j']> js !! k = Some jk ->
  (k = i /\ jk = j') \/ (k <> i /\ js !! k = Some jk).
Proof.
  intros H. destruct (Nat.eq_dec i k) as [<-|Hne].
  - left. split; [reflexivity|].
    assert (Hlen : (i < length js)%nat).
    { apply lookup_lt_Some in H. now rewrite length_insert in H. }
    rewrite list_lookup_insert_eq in H by assumption. now inversion H.
  - right. rewrite list_lookup_insert_ne in H by assumption. split; auto.
Qed.

Lemma forallb_quieto (js : list Jogador) :
  forallb quieto js = true ->
  forall i j, js !! i = Some j -> quieto j = true.
Proof.
  intros H i j Hj. rewrite forallb_forall in H. apply H.
  apply list_elem_of_In, list_elem_of_lookup. eauto.
Qed.

Lemma quieto_sentando (j : Jogador) : quieto j = true -> sentando j = 0%nat.
Proof. unfold quieto, sentando. destruct (pc j); intros; congruence. Qed.

Lemma n_sentando_quietos (js : list Jogador) :
  (forall i j, js !! i = Some j -> quieto j = true) -> n_sentando js = 0%nat.
Proof.
  induction js as [|a js IH]; intros H; [reflexivity|].
  rewrite n_sentando_cons, (quieto_sentando a (H 0%nat a eq_refl)).
  rewrite IH; [reflexivity|]. intros i j Hj. exact (H (S i) j Hj).
Qed.

(** The ids of the threads that hold a unit and have not recorded it. *)
Lemma sentando_ids (js : list Jogador) :
  exists T : list Z,
    length T = n_sentando js
    /\ (forall x, In x T <->
          exists i j, js !! i = Some j /\ pc j = J_senta /\ jog_id j = x)
    /\ (List.NoDup (List.map jog_id js) -> List.NoDup T).
Proof.
  induction js as [|a js (T & Hlen & Hin & Hnd)].
  - exists []. split; [reflexivity|]. split.
    + intros x. split; [intros []|]. intros (i & j & H & _). discriminate.
    + constructor.
  - destruct (pc a) eqn:Ea.
    all: try (exists T; split;
              [ rewrite n_sentando_cons; unfold sentando; rewrite Ea; exact Hlen |];
              split;
              [ intros x; rewrite Hin; split;
                [ intros (i & j & H1 & H2 & H3); exists (S i), j; auto
                | intros (i & j & H1 & H2 & H3); destruct i as [|i];
                  [ cbn in H1; inversion H1; subst; congruence
                  | exists i, j; auto ] ]
              | intros H; inversion H; subst; auto ]).
    exists (jog_id a :: T). split; [|split].
    + rewrite n_sentando_cons. unfold sentando. rewrite Ea. cbn. now rewrite Hlen.
    + intros x. split.
      * intros [<-|Hx].
        -- exists 0%nat, a. auto.
        -- apply Hin in Hx as (i & j & H1 & H2 & H3). exists (S i), j. auto.
      * intros (i & j & H1 & H2 & H3). destruct i as [|i].
        -- cbn in H1. inversion H1; subst. now left.
        -- right. apply Hin. exists i, j. auto.
    + intros H. cbn in H. inversion H as [|? ? Hna Hnd']; subst.
      constructor; [|auto].
      intros Hx. apply Hin in Hx as (i & j & H1 & _ & H3).
      apply Hna. rewrite <- H3. apply in_map.
      apply list_elem_of_In, list_elem_of_lookup. eauto.
Qed.

(** *** A thread moves without touching the memory *)

Lemma flags_fora_com_jogador (exc : option nat) (s : Estado)
  (i : nat) (j j' : Jogador) :
  flags_fora exc s ->
  jogadores s !! i = Some j ->
  jog_id j' = jog_id j -> eliminado j' = eliminado j ->
  pc j' <> J_verifica ->
  flags_fora exc (com_jogador i j' s).
Proof.
  intros Hf Hj Hid Hel Hpc k jk Hk Hek Hexc. cbn in *.
  apply lookup_insert_casos in Hk as [[-> ->]|[Hne Hk]].
  - split; [|assumption]. rewrite Hid.
    apply (Hf i j Hj); [congruence | assumption].
  - exact (Hf k jk Hk Hek Hexc).
Qed.

Lemma inv_janela_passivo (s : Estado) (i : nat) (j j' : Jogador) :
  inv_janela s ->
  jogadores s !! i = Some j ->
  jog_id j' = jog_id j -> eliminado j' = eliminado j ->
  quieto j = true -> quieto j' = true ->
  (apos_sentar j -> apos_sentar j') ->
  inv_janela (com_jogador i j' s).
Proof.
  intros (Hc & Hp & Hs & Hnd & Hinc & Hsent & Hsenta & Hmodo)
         Hj Hid Hel Hq Hq' Hapos.
  assert (Hpc' : pc j' <> J_verifica).
  { intros E. unfold quieto in Hq'. rewrite E in Hq'. discriminate. }
  unfold inv_janela. cbn [mem com_jogador].
  split; [assumption|]. split.
  { unfold permissoes in *. cbn [mem jogadores com_jogador].
    pose proof (n_sentando_insert (jogadores s) i j j' Hj) as Hn.
    rewrite (quieto_sentando j Hq), (quieto_sentando j' Hq') in Hn. lia. }
  split; [assumption|]. split; [assumption|]. split; [assumption|].
  split.
  { intros k jk Hk Hin. cbn in Hk.
    apply lookup_insert_casos in Hk as [[-> ->]|[Hne Hk]].
    - rewrite Hid in Hin. destruct (Hsent i j Hj Hin) as [Ha He].
      split; [now apply Hapos | congruence].
    - exact (Hsent k jk Hk Hin). }
  split.
  { intros k jk Hk Hpc. cbn in Hk.
    apply lookup_insert_casos in Hk as [[-> ->]|[Hne Hk]].
    - unfold quieto in Hq'. rewrite Hpc in Hq'. discriminate.
    - exact (Hsenta k jk Hk Hpc). }
  destruct Hmodo as [(Ha & Hf)|[(Ha & Hz & f & jf & Hjf & Hpf & Hef & Hif & Hf)|(Ha & Hz & Hf)]].
  - left. split; [assumption|].
    eapply flags_fora_com_jogador; eassumption.
  - right; left. split; [assumption|]. split; [assumption|].
    exists f, jf. assert (Hne : i <> f).
    { intros ->. assert (jf = j) by congruence. subst jf.
      unfold quieto in Hq. rewrite Hpf in Hq. discriminate. }
    cbn [jogadores com_jogador].
    rewrite list_lookup_insert_ne by assumption.
    split; [assumption|]. split; [assumption|]. split; [assumption|].
    split; [assumption|].
    eapply flags_fora_com_jogador; eassumption.
  - right; right. split; [assumption|]. split; [assumption|].
    eapply flags_fora_com_jogador; eassumption.
Qed.

Lemma inv_fora_da_janela_passivo (s : Estado) (i : nat) (j j' : Jogador) :
  inv_fora_da_janela s ->
  jogadores s !! i = Some j ->
  jog_id j' = jog_id j -> eliminado j' = eliminado j ->
  quieto j' = true ->
  inv_fora_da_janela (com_jogador i j' s).
Proof.
  intros (Hq & Hf & Hc) Hj Hid Hel Hq'.
  assert (Hpc' : pc j' <> J_verifica).
  { intros E. unfold quieto in Hq'. rewrite E in Hq'. discriminate. }
  unfold inv_fora_da_janela. cbn [mem coord com_jogador].
  split; [|split; [|exact Hc]].
  - intros k jk Hk. cbn in Hk.
    apply lookup_insert_casos in Hk as [[-> ->]|[Hne Hk]]; eauto.
  - eapply flags_fora_com_jogador; eassumption.
Qed.

Lemma inv_passivo (N : Z) (s : Estado) (i : nat) (j j' : Jogador) :
  inv N s ->
  jogadores s !! i = Some j ->
  jog_id j' = jog_id j -> eliminado j' = eliminado j ->
  quieto j = true -> quieto j' = true ->
  (pcc (coord s) = C_dorme_sentar -> apos_sentar j -> apos_sentar j') ->
  inv N (com_jogador i j' s).
Proof.
  intros (Hnd & Hids & Hmax & Hmus & Hrod & Hfase) Hj Hid Hel Hq Hq' Hapos.
  unfold inv. cbn [mem coord com_jogador jogadores].
  split; [assumption|]. split.
  { now rewrite (map_id_insert _ _ _ _ Hj Hid). }
  split; [assumption|]. split; [exact Hmus|]. split; [exact Hrod|].
  destruct (pcc (coord s)) eqn:Ep;
    try (eapply inv_fora_da_janela_passivo; eassumption).
  eapply inv_janela_passivo; eauto.
Qed.

(** *** Claims during the sleep of line 175 *)

Lemma apos_sentar_nao (j : Jogador) :
  apos_sentar j -> pc j <> J_tenta /\ pc j <> J_senta.
Proof. intros [H|[H|H]]; rewrite H; split; discriminate. Qed.

(** When the gate is empty, every participant counted by the chairs is
    seated or about to record its seat. *)
Lemma janela_cheia (s : Estado) (A' : list Z) :
  List.NoDup (List.map jog_id (jogadores s)) ->
  List.NoDup (le_sentados (mem s)) ->
  (forall i j, jogadores s !! i = Some j -> In (jog_id j) (le_sentados (mem s)) ->
               apos_sentar j /\ eliminado j = false) ->
  (forall i j, jogadores s !! i = Some j -> pc j = J_senta -> In (jog_id j) A') ->
  incl (le_sentados (mem s)) A' ->
  cadeira_sem (mem s) = 0 ->
  permissoes s = Z.of_nat (length A') ->
  forall x, In x A' ->
    In x (le_sentados (mem s))
    \/ exists k jk, jogadores s !! k = Some jk /\ pc jk = J_senta /\ jog_id jk = x.
Proof.
  intros Hids Hnd Hsent Hsenta Hinc Hz Hp x Hx.
  destruct (sentando_ids (jogadores s)) as (T & HlenT & HinT & HndT).
  assert (Hcheio : incl A' (le_sentados (mem s) ++ T)).
  { apply List.NoDup_length_incl.
    - apply List.NoDup_app; [assumption | now apply HndT |].
      intros a Ha HaT. apply HinT in HaT as (k & jk & Hk & Hpk & <-).
      destruct (Hsent k jk Hk Ha) as [Hap _].
      apply apos_sentar_nao in Hap as [_ Hap]. contradiction.
    - rewrite length_app, HlenT. unfold permissoes in Hp.
      unfold le_sentados. rewrite length_map. lia.
    - intros a Ha. apply in_app_or in Ha as [Ha|Ha]; [now apply Hinc|].
      apply HinT in Ha as (k & jk & Hk & Hpk & <-). eauto. }
  pose proof (Hcheio x Hx) as Hx'.
  apply in_app_or in Hx' as [Hx'|Hx']; [now left|].
  right. now apply HinT.
Qed.

Lemma flags_fora_limpo (exc : option nat) (s : Estado)
  (i : nat) (j' : Jogador) (m' : Memoria) :
  flags_fora exc s ->
  eliminado j' = false ->
  jogadores_ativos m' = jogadores_ativos (mem s) ->
  flags_fora exc {| mem := m'; jogadores := <[i := j']> (jogadores s);
                    coord := coord s |}.
Proof.
  intros Hf Hel Ha k jk Hk Hek Hexc. cbn in *. rewrite Ha.
  apply lookup_insert_casos in Hk as [[-> ->]|[Hne Hk]]; [congruence|].
  exact (Hf k jk Hk Hek Hexc).
Qed.

(** Line 126 with a unit left. *)
Lemma inv_janela_tenta_livre (s : Estado) (i : nat) (j : Jogador) :
  inv_janela s ->
  jogadores s !! i = Some j -> pc j = J_tenta ->
  In (jog_id j) (jogadores_ativos (mem s)) ->
  0 < cadeira_sem (mem s) ->
  inv_janela {| mem := com_sem (cadeira_sem (mem s) - 1) (mem s);
                jogadores := <[i := com_pc J_senta j]> (jogadores s);
                coord := coord s |}.
Proof.
  intros (Hc & Hp & Hs & Hnd & Hinc & Hsent & Hsenta & Hmodo) Hj Hpc Hin Hlivre.
  destruct Hmodo as [(Ha & Hf)|[(_ & Hz & _)|(_ & Hz & _)]]; try lia.
  assert (Hel : eliminado j = false).
  { destruct (eliminado j) eqn:E; [|reflexivity].
    destruct (Hf i j Hj E) as [Hn _]; [discriminate | contradiction]. }
  unfold inv_janela. cbn [mem jogadores].
  change (cadeiras (com_sem _ (mem s))) with (cadeiras (mem s)).
  change (le_sentados (com_sem _ (mem s))) with (le_sentados (mem s)).
  change (jogadores_ativos (com_sem _ (mem s))) with (jogadores_ativos (mem s)).
  change (cadeira_sem (com_sem _ (mem s))) with (cadeira_sem (mem s) - 1).
  split; [assumption|]. split.
  { unfold permissoes in *. cbn [mem jogadores cadeira_sem com_sem cadeiras_ocupadas].
    pose proof (n_sentando_insert (jogadores s) i j (com_pc J_senta j) Hj) as Hn.
    unfold sentando in Hn. rewrite Hpc in Hn. cbn in Hn. lia. }
  split; [lia|]. split; [assumption|]. split; [assumption|]. split.
  { intros k jk Hk Hink.
    apply lookup_insert_casos in Hk as [[-> ->]|[Hne Hk]].
    - exfalso. destruct (Hsent i j Hj Hink) as [Hap _].
      apply apos_sentar_nao in Hap as [Hap _]. contradiction.
    - exact (Hsent k jk Hk Hink). }
  split.
  { intros k jk Hk Hpk.
    apply lookup_insert_casos in Hk as [[-> ->]|[Hne Hk]].
    - split; assumption.
    - exact (Hsenta k jk Hk Hpk). }
  left. split; [assumption|].
  apply flags_fora_limpo; auto.
Qed.

(** Line 126 with the gate empty: nobody failed before. *)
Lemma inv_janela_tenta_esgotado (s : Estado) (i : nat) (j : Jogador) :
  List.NoDup (jogadores_ativos (mem s)) ->
  List.NoDup (List.map jog_id (jogadores s)) ->
  inv_janela s ->
  jogadores s !! i = Some j -> pc j = J_tenta ->
  In (jog_id j) (jogadores_ativos (mem s)) ->
  cadeira_sem (mem s) <= 0 ->
  inv_janela (com_jogador i (com_pc J_verifica (com_eliminado true j)) s).
Proof.
  intros HndA Hids (Hc & Hp & Hs & Hnd & Hinc & Hsent & Hsenta & Hmodo)
         Hj Hpc Hin Hcheio.
  assert (Hz : cadeira_sem (mem s) = 0) by lia.
  set (j' := com_pc J_verifica (com_eliminado true j)).
  assert (Hfora : ~ In (jog_id j) (le_sentados (mem s))).
  { intros Hx. destruct (Hsent i j Hj Hx) as [Hap _].
    apply apos_sentar_nao in Hap as [Hap _]. contradiction. }
  assert (Hnsenta : forall k jk, jogadores s !! k = Some jk -> pc jk = J_senta ->
                                 jog_id jk <> jog_id j).
  { intros k jk Hk Hpk Heq.
    assert (k = i) by (eapply ids_lookup; eassumption). subst k.
    congruence. }
  assert (Hcomum :
            permissoes (com_jogador i j' s) = cadeiras (mem s)
            /\ (forall k jk, jogadores (com_jogador i j' s) !! k = Some jk ->
                   In (jog_id jk) (le_sentados (mem s)) ->
                   apos_sentar jk /\ eliminado jk = false)
            /\ (forall k jk, jogadores (com_jogador i j' s) !! k = Some jk ->
                   pc jk = J_senta ->
                   eliminado jk = false /\ In (jog_id jk) (jogadores_ativos (mem s)))).
  { split; [|split].
    - unfold permissoes in *. cbn [mem jogadores com_jogador].
      pose proof (n_sentando_insert (jogadores s) i j j' Hj) as Hn.
      unfold sentando in Hn. rewrite Hpc in Hn. cbn in Hn. lia.
    - intros k jk Hk Hink. cbn in Hk.
      apply lookup_insert_casos in Hk as [[-> ->]|[Hne Hk]].
      + contradiction.
      + exact (Hsent k jk Hk Hink).
    - intros k jk Hk Hpk. cbn in Hk.
      apply lookup_insert_casos in Hk as [[-> ->]|[Hne Hk]].
      + discriminate.
      + exact (Hsenta k jk Hk Hpk). }
  destruct Hcomum as (Hp' & Hsent' & Hsenta').
  destruct Hmodo as [(Ha & Hf)|[(Ha & _ & f & jf & Hjf & Hpf & Hef & Hif & Hf)|(Ha & _ & Hf)]].
  - (* first failure of the round *)
    unfold inv_janela. cbn [mem com_jogador].
    split; [assumption|]. split; [exact Hp'|]. split; [assumption|].
    split; [assumption|]. split; [assumption|]. split; [exact Hsent'|].
    split; [exact Hsenta'|].
    right; left. split; [assumption|]. split; [assumption|].
    exists i, j'. cbn [jogadores com_jogador].
    rewrite list_lookup_insert_eq by (eapply lookup_lt_Some; eassumption).
    split; [reflexivity|]. split; [reflexivity|]. split; [reflexivity|].
    split; [exact Hin|].
    intros k jk Hk Hek Hexc. cbn in Hk.
    apply lookup_insert_casos in Hk as [[-> ->]|[Hne Hk]]; [congruence|].
    apply (Hf k jk Hk Hek). discriminate.
  - (* a second failure is impossible: one participant is out, the others
       are seated *)
    exfalso.
    assert (Hif' : jog_id jf <> jog_id j).
    { intros Heq. assert (f = i) by (eapply ids_lookup; eassumption).
      subst f. congruence. }
    assert (Hff : ~ In (jog_id jf) (le_sentados (mem s))).
    { intros Hx. destruct (Hsent f jf Hjf Hx) as [_ He]. congruence. }
    destruct (janela_cheia s (remove_id (jog_id jf) (jogadores_ativos (mem s))))
      with (x := jog_id j) as [Hx|(k & jk & Hk & Hpk & Hidk)]; auto.
    + intros k jk Hk Hpk. apply remove_id_In.
      split; [now apply (Hsenta k jk Hk Hpk)|].
      intros Heq. assert (k = f) by (eapply ids_lookup; eassumption).
      subst k. congruence.
    + intros a Hain. apply remove_id_In. split; [now apply Hinc|].
      intros ->. contradiction.
    + pose proof (remove_id_length (jog_id jf) _ HndA Hif). lia.
    + apply remove_id_In. split; auto.
    + exact (Hnsenta k jk Hk Hpk Hidk).
  - exfalso.
    destruct (janela_cheia s (jogadores_ativos (mem s)))
      with (x := jog_id j) as [Hx|(k & jk & Hk & Hpk & Hidk)]; auto.
    + intros k jk Hk Hpk. now apply (Hsenta k jk Hk Hpk).
    + lia.
    + exact (Hnsenta k jk Hk Hpk Hidk).
Qed.

(** Lines 127-128. *)
Lemma inv_janela_senta (s : Estado) (i : nat) (j : Jogador) :
  List.NoDup (List.map jog_id (jogadores s)) ->
  inv_janela s ->
  jogadores s !! i = Some j -> pc j = J_senta ->
  inv_janela {| mem := senta (jog_id j) (mem s);
                jogadores := <[i := com_pc J_verifica j]> (jogadores s);
                coord := coord s |}.
Proof.
  intros Hids (Hc & Hp & Hs & Hnd & Hinc & Hsent & Hsenta & Hmodo) Hj Hpc.
  destruct (Hsenta i j Hj Hpc) as [Hel Hin].
  assert (Hfora : ~ In (jog_id j) (le_sentados (mem s))).
  { intros Hx. destruct (Hsent i j Hj Hx) as [Hap _].
    apply apos_sentar_nao in Hap as [_ Hap]. contradiction. }
  unfold inv_janela. cbn [mem jogadores].
  rewrite le_sentados_senta.
  change (cadeiras (senta _ (mem s))) with (cadeiras (mem s)).
  change (jogadores_ativos (senta _ (mem s))) with (jogadores_ativos (mem s)).
  change (cadeira_sem (senta _ (mem s))) with (cadeira_sem (mem s)).
  split; [assumption|]. split.
  { unfold permissoes in *. cbn [mem jogadores cadeira_sem senta com_ocupadas
                                 cadeiras_ocupadas].
    rewrite length_app. cbn [length].
    pose proof (n_sentando_insert (jogadores s) i j (com_pc J_verifica j) Hj) as Hn.
    unfold sentando in Hn. rewrite Hpc in Hn. cbn in Hn. lia. }
  split; [assumption|]. split.
  { apply List.NoDup_app; [assumption | repeat constructor; intros [] |].
    intros a Ha [<-|[]]. contradiction. }
  split.
  { intros a Ha. apply in_app_or in Ha as [Ha|[<-|[]]]; auto. }
  split.
  { intros k jk Hk Hink.
    apply lookup_insert_casos in Hk as [[-> ->]|[Hne Hk]].
    - split; [left; reflexivity | exact Hel].
    - apply in_app_or in Hink as [Hink|[Heq|[]]].
      + exact (Hsent k jk Hk Hink).
      + exfalso. apply Hne. eapply ids_lookup; eauto. }
  split.
  { intros k jk Hk Hpk.
    apply lookup_insert_casos in Hk as [[-> ->]|[Hne Hk]].
    - discriminate.
    - exact (Hsenta k jk Hk Hpk). }
  destruct Hmodo as [(Ha & Hf)|[(Ha & Hz & f & jf & Hjf & Hpf & Hef & Hif & Hf)|(Ha & Hz & Hf)]].
  - left. split; [assumption|]. apply flags_fora_limpo; auto.
  - right; left. split; [assumption|]. split; [assumption|].
    exists f, jf. assert (Hne : i <> f) by (intros ->; congruence).
    rewrite list_lookup_insert_ne by assumption.
    split; [assumption|]. split; [assumption|]. split; [assumption|].
    split; [assumption|]. apply flags_fora_limpo; auto.
  - right; right. split; [assumption|]. split; [assumption|].
    apply flags_fora_limpo; auto.
Qed.

(** Lines 134-138. *)
Lemma inv_janela_verifica (s : Estado) (i : nat) (j : Jogador) :
  List.NoDup (jogadores_ativos (mem s)) ->
  List.NoDup (List.map jog_id (jogadores s)) ->
  inv_janela s ->
  jogadores s !! i = Some j -> pc j = J_verifica ->
  inv_janela {| mem := verificar_eliminacao j (mem s);
                jogadores := <[i := com_pc J_espera_retomada j]> (jogadores s);
                coord := coord s |}.
Proof.
  intros HndA Hids (Hc & Hp & Hs & Hnd & Hinc & Hsent & Hsenta & Hmodo) Hj Hpc.
  set (j' := com_pc J_espera_retomada j).
  assert (Hperm : forall m', cadeira_sem m' = cadeira_sem (mem s) ->
                    cadeiras_ocupadas m' = cadeiras_ocupadas (mem s) ->
                    permissoes {| mem := m';
                                  jogadores := <[i := j']> (jogadores s);
                                  coord := coord s |} = cadeiras (mem s)).
  { intros m' H1 H2. unfold permissoes in *. cbn [mem jogadores].
    rewrite H1, H2.
    pose proof (n_sentando_insert (jogadores s) i j j' Hj) as Hn.
    unfold sentando in Hn. rewrite Hpc in Hn. cbn in Hn. lia. }
  assert (Hsent' : forall k jk, <[i := j']> (jogadores s) !! k = Some jk ->
                     In (jog_id jk) (le_sentados (mem s)) ->
                     apos_sentar jk /\ eliminado jk = false).
  { intros k jk Hk Hink.
    apply lookup_insert_casos in Hk as [[-> ->]|[Hne Hk]].
    - destruct (Hsent i j Hj Hink) as [_ He].
      split; [right; left; reflexivity | exact He].
    - exact (Hsent k jk Hk Hink). }
  assert (Hsenta' : forall k jk, <[i := j']> (jogadores s) !! k = Some jk ->
                     pc jk = J_senta ->
                     eliminado jk = false
                     /\ In (jog_id jk) (jogadores_ativos (mem s))
                     /\ k <> i).
  { intros k jk Hk Hpk.
    apply lookup_insert_casos in Hk as [[-> ->]|[Hne Hk]].
    - discriminate.
    - destruct (Hsenta k jk Hk Hpk). auto. }
  unfold verificar_eliminacao. destruct (eliminado j) eqn:Hel.
  - (* the thread failed its claim: it takes itself out *)
    destruct Hmodo as [(_ & Hf)|[(Ha & Hz & f & jf & Hjf & Hpf & Hef & Hif & Hf)|(_ & _ & Hf)]].
    + exfalso. destruct (Hf i j Hj Hel) as [_ Hn]; [discriminate | contradiction].
    + assert (f = i).
      { destruct (Nat.eq_dec f i) as [|Hne]; [assumption|]. exfalso.
        destruct (Hf i j Hj Hel) as [_ Hn]; [congruence | contradiction]. }
      subst f. assert (jf = j) by congruence. subst jf.
      assert (Hfora : ~ In (jog_id j) (le_sentados (mem s))).
      { intros Hx. destruct (Hsent i j Hj Hx) as [_ He]. congruence. }
      unfold inv_janela. cbn [mem jogadores].
      change (cadeiras (eliminar_jogador _ (mem s))) with (cadeiras (mem s)).
      change (le_sentados (eliminar_jogador _ (mem s))) with (le_sentados (mem s)).
      change (cadeira_sem (eliminar_jogador _ (mem s))) with (cadeira_sem (mem s)).
      change (jogadores_ativos (eliminar_jogador (jog_id j) (mem s)))
        with (remove_id (jog_id j) (jogadores_ativos (mem s))).
      split; [assumption|]. split; [now apply Hperm|]. split; [assumption|].
      split; [assumption|]. split.
      { intros a Hain. apply remove_id_In. split; [now apply Hinc|].
        intros ->. contradiction. }
      split; [exact Hsent'|]. split.
      { intros k jk Hk Hpk. destruct (Hsenta' k jk Hk Hpk) as (H1 & H2 & H3).
        split; [assumption|]. apply remove_id_In. split; [assumption|].
        intros Heq. apply H3.
        rewrite list_lookup_insert_ne in Hk by auto.
        eapply ids_lookup; eauto. }
      right; right.
      split; [pose proof (remove_id_length (jog_id j) _ HndA Hif); lia|].
      split; [assumption|].
      intros k jk Hk Hek _. cbn in Hk.
      apply lookup_insert_casos in Hk as [[-> ->]|[Hne Hk]].
      * split; [|discriminate].
        change (~ In (jog_id j) (remove_id (jog_id j) (jogadores_ativos (mem s)))).
        rewrite remove_id_In. intros [_ H]. now apply H.
      * destruct (Hf k jk Hk Hek) as [H1 H2]; [congruence|].
        split; [|assumption].
        change (~ In (jog_id jk) (remove_id (jog_id j) (jogadores_ativos (mem s)))).
        rewrite remove_id_In. intros [H _]. contradiction.
    + exfalso. destruct (Hf i j Hj Hel) as [_ Hn]; [discriminate | contradiction].
  - (* the thread is seated *)
    unfold inv_janela. cbn [mem jogadores].
    split; [assumption|]. split; [now apply Hperm|]. split; [assumption|].
    split; [assumption|]. split; [assumption|]. split; [exact Hsent'|].
    split.
    { intros k jk Hk Hpk. destruct (Hsenta' k jk Hk Hpk) as (H1 & H2 & _). auto. }
    destruct Hmodo as [(Ha & Hf)|[(Ha & Hz & f & jf & Hjf & Hpf & Hef & Hif & Hf)|(Ha & Hz & Hf)]].
    + left. split; [assumption|]. apply flags_fora_limpo; auto.
    + right; left. split; [assumption|]. split; [assumption|].
      exists f, jf. assert (Hne : i <> f) by (intros ->; congruence).
      rewrite list_lookup_insert_ne by assumption.
      split; [assumption|]. split; [assumption|]. split; [assumption|].
      split; [assumption|]. apply flags_fora_limpo; auto.
    + right; right. split; [assumption|]. split; [assumption|].
      apply flags_fora_limpo; auto.
Qed.

(** *** The coordinator's steps *)

Lemma lookup_notify_all (js : list Jogador) :
  forall i j', notify_all js !! i = Some j' ->
    exists j, js !! i = Some j /\ j' = acorda j.
Proof.
  induction js as [|a js IH]; intros i j' H; [discriminate|].
  destruct i as [|i]; cbn in *.
  - inversion H. eauto.
  - now apply IH.
Qed.

Lemma acorda_preserva (j : Jogador) :
  jog_id (acorda j) = jog_id j
  /\ eliminado (acorda j) = eliminado j
  /\ (quieto j = true -> quieto (acorda j) = true)
  /\ (pc j <> J_verifica -> pc (acorda j) <> J_verifica).
Proof.
  unfold acorda, quieto. destruct (pc j) eqn:E; cbn; rewrite ?E; repeat split;
    auto; discriminate.
Qed.

Lemma map_id_notify_all (js : list Jogador) :
  List.map jog_id (notify_all js) = List.map jog_id js.
Proof.
  unfold notify_all. rewrite map_map. apply map_ext.
  intros j. apply acorda_preserva.
Qed.

Lemma rodadas_esperadas_S (k : nat) :
  rodadas_esperadas (S k)
  = (Z.of_nat (S (S k)), Z.of_nat (S k)) :: rodadas_esperadas k.
Proof. reflexivity. Qed.

Lemma passo_coord_inv (N : Z) (s s' : Estado) :
  inv N s ->
  permitido E_coord s = true ->
  iniciar_jogo_passo N s = Some s' ->
  inv N s' /\ S (restam s') = restam s.
Proof.
  intros Hinv Hperm Hpasso.
  assert (Hmus' : musica_conforme s' = true).
  { destruct Hinv as (_ & _ & _ & Hmus & _).
    exact (passo_musica_conforme N E_coord s s' Hpasso Hmus). }
  destruct Hinv as (Hnd & Hids & Hmax & Hmus & Hrod & Hfase).
  destruct s as [m js [p se el]].
  cbn [mem jogadores coord pcc] in *.
  unfold rodadas_por_vir in Hrod. cbn [mem coord pcc] in Hrod.
  unfold permitido in Hperm. cbn [coord pcc jogadores] in Hperm.
  unfold iniciar_jogo_passo in Hpasso.
  cbn [mem jogadores coord pcc jogadores_sentados eliminado_id com_pcc] in Hpasso.
  destruct p;
    unfold inv_fora_da_janela, flags_fora in Hfase;
    cbn [mem jogadores coord pcc jogadores_sentados] in Hfase.
  - (* C_laco *)
    destruct Hfase as (Hq & Hf & Hsem & Ha).
    destruct (Nat.ltb_spec 1 (length (jogadores_ativos m))) as [Hlt|Hle];
      inversion Hpasso; subst s'; clear Hpasso.
    + split; [|unfold restam; cbn; lia].
      monta_inv. fecha.
    + assert (Hum : length (jogadores_ativos m) = 1%nat) by lia.
      split; [|unfold restam; cbn; lia].
      monta_inv.
      * rewrite Hum in Hrod. exact Hrod.
      * fecha.
  - (* C_rodada_cadeiras *)
    destruct Hfase as (Hq & Hf & Hsem & Ha).
    inversion Hpasso; subst s'; clear Hpasso.
    split; [|unfold restam; cbn; lia].
    monta_inv. split; [assumption|]. split; [assumption|].
    split; [assumption|]. split; [assumption|].
    now apply para_int_size_t.
  - (* C_rodada_limpa *)
    destruct Hfase as (Hq & Hf & Hsem & Ha & Hc).
    inversion Hpasso; subst s'; clear Hpasso.
    split; [|unfold restam; cbn; lia].
    monta_inv. fecha.
  - (* C_rodada_anuncia *)
    destruct Hfase as (Hq & Hf & Hsem & Ha & Hc & Ho).
    inversion Hpasso; subst s'; clear Hpasso.
    split.
    2:{ unfold restam. cbn. rewrite Hc. lia. }
    monta_inv.
    + unfold iniciar_rodada_anuncia.
      rewrite rodadas_anunciadas_imprime, <- app_assoc.
      rewrite <- Hrod. f_equal. cbn [cadeiras imprime app].
      destruct (length (jogadores_ativos m)) as [|[|a]] eqn:Ea; try lia.
      replace (Z.to_nat (cadeiras m) - 1)%nat with a by lia.
      replace (S (S a) - 1)%nat with (S a) by lia.
      rewrite rodadas_esperadas_S. do 2 f_equal. lia.
    + fecha.
  - (* C_dorme_musica *)
    destruct Hfase as (Hq & Hf & Hsem & Ha & Hc & Ho).
    inversion Hpasso; subst s'; clear Hpasso.
    split; [|unfold restam; cbn; lia].
    monta_inv. fecha.
  - (* C_para_anuncia *)
    destruct Hfase as (Hq & Hf & Hsem & Ha & Hc & Ho).
    inversion Hpasso; subst s'; clear Hpasso.
    split; [|unfold restam; cbn; lia].
    monta_inv.
    + unfold parar_musica_anuncia. rewrite rodadas_anunciadas_imprime, app_nil_r.
      exact Hrod.
    + fecha.
  - (* C_para_sinal *)
    destruct Hfase as (Hq & Hf & Hsem & Ha & Hc & Ho).
    inversion Hpasso; subst s'; clear Hpasso.
    split; [|unfold restam; cbn; lia].
    monta_inv. fecha.
  - (* C_para_notifica *)
    destruct Hfase as (Hq & Hf & Hsem & Ha & Hc & Ho).
    inversion Hpasso; subst s'; clear Hpasso.
    split; [|unfold restam; cbn; lia].
    unfold inv; cbn [mem jogadores coord pcc com_pcc].
    split; [assumption|]. split; [now rewrite map_id_notify_all|].
    split; [assumption|]. split; [assumption|]. split; [exact Hrod|].
    unfold inv_janela. cbn [mem jogadores].
    assert (Hq' : forall i j, notify_all js !! i = Some j -> quieto j = true).
    { intros i j Hj. apply lookup_notify_all in Hj as (j0 & Hj0 & ->).
      apply acorda_preserva. now apply (Hq i j0). }
    split; [lia|]. split.
    { unfold permissoes. cbn [mem jogadores]. rewrite Ho.
      rewrite (n_sentando_quietos _ Hq'). cbn [length]. lia. }
    split; [lia|]. unfold le_sentados. rewrite Ho. cbn [List.map].
    split; [constructor|]. split; [intros a []|].
    split; [intros i j _ []|]. split.
    { intros i j Hj Hpj. specialize (Hq' i j Hj).
      unfold quieto in Hq'. rewrite Hpj in Hq'. discriminate. }
    left. split; [lia|]. unfold flags_fora. cbn [mem jogadores].
    intros i j Hj He _.
    apply lookup_notify_all in Hj as (j0 & Hj0 & ->).
    destruct (acorda_preserva j0) as (Hid & Hel & _ & Hpc).
    rewrite Hid. rewrite Hel in He.
    destruct (Hf i j0 Hj0 He) as [H1 H2]; [discriminate|].
    split; [assumption | now apply Hpc].
  - (* C_dorme_sentar: the coordinator wakes from the settle sleep *)
    destruct Hfase as (Hc & Hp & Hs & Hndo & Hinc & Hsent & Hsenta & Hmodo).
    cbn [mem jogadores] in *.
    inversion Hpasso; subst s'; clear Hpasso.
    split; [|unfold restam; cbn; lia].
    pose proof (forallb_quieto js Hperm) as Hq.
    assert (Hlen : Z.of_nat (length (le_sentados m)) + cadeira_sem m = cadeiras m).
    { unfold permissoes in Hp. cbn [mem jogadores] in Hp.
      rewrite (n_sentando_quietos js Hq) in Hp.
      unfold le_sentados. rewrite length_map. lia. }
    monta_inv. split; [assumption|].
    destruct Hmodo as [(Ha & Hf)|[(Ha & Hz & f & jf & Hjf & Hpf & _)|(Ha & Hz & Hf)]].
    + split; [exact Hf|]. split; [assumption|]. left. split; lia.
    + exfalso. specialize (Hq f jf Hjf). unfold quieto in Hq.
      rewrite Hpf in Hq. discriminate.
    + split; [exact Hf|]. split; [assumption|]. right. split; [assumption|].
      apply List.NoDup_length_incl; [assumption | lia | assumption].
  - (* C_le_sentados *)
    destruct Hfase as (Hq & Hf & Hres).
    pose proof Hres as (Hc1 & _).
    inversion Hpasso; subst s'; clear Hpasso.
    split; [|unfold restam; cbn; lia].
    monta_inv. fecha.
  - (* C_procura *)
    destruct Hfase as (Hq & Hf & Hc & Hres).
    unfold procura_eliminado in Hpasso.
    destruct (primeiro_em_pe se (jogadores_ativos m)) as [x|] eqn:E;
      inversion Hpasso; subst s'; clear Hpasso.
    + apply primeiro_em_pe_Some in E as (Hx & Hxs).
      destruct Hres as [(Ha & _)|(_ & Hall)]; [|exfalso; auto].
      pose proof (remove_id_length x _ Hnd Hx) as Hlen.
      split; [|unfold restam; cbn; lia].
      unfold inv. cbn [mem jogadores coord pcc jogadores_ativos eliminar_jogador
                       com_ativos].
      split; [now apply remove_id_NoDup|]. split; [assumption|].
      split; [lia|]. split; [assumption|]. split; [exact Hrod|].
      unfold inv_fora_da_janela, flags_fora.
      cbn [mem jogadores coord pcc jogadores_ativos eliminar_jogador com_ativos
           cadeiras].
      split; [assumption|]. split.
      { intros i j Hj He Hexc. destruct (Hf i j Hj He Hexc) as [H1 H2].
        split; [|assumption]. rewrite remove_id_In. tauto. }
      split; lia.
    + pose proof (primeiro_em_pe_None _ _ E) as Hall.
      destruct Hres as [(Ha & Hlt)|(Ha & _)].
      * exfalso.
        pose proof (List.NoDup_incl_length Hnd Hall). lia.
      * split; [|unfold restam; cbn; lia].
        monta_inv. fecha.
  - (* C_exibe *)
    destruct Hfase as (Hq & Hf & Ha & Hc).
    inversion Hpasso; subst s'; clear Hpasso.
    split; [|unfold restam; cbn; lia].
    monta_inv.
    + unfold exibir_resultado_rodada.
      rewrite rodadas_anunciadas_imprime, app_nil_r. exact Hrod.
    + fecha.
  - (* C_libera *)
    destruct Hfase as (Hq & Hf & Ha & Hc).
    inversion Hpasso; subst s'; clear Hpasso.
    split; [|unfold restam; cbn; lia].
    monta_inv. fecha.
  - (* C_retoma *)
    destruct Hfase as (Hq & Hf & Ha & Hc).
    inversion Hpasso; subst s'; clear Hpasso.
    split; [|unfold restam; cbn; lia].
    monta_inv. fecha.
  - (* C_reconstroi *)
    destruct Hfase as (Hq & Hf & Ha & Hc).
    inversion Hpasso; subst s'; clear Hpasso.
    split; [|unfold restam; cbn; lia].
    monta_inv. split; [assumption|]. split; [assumption|].
    split; [assumption|]. split; [assumption|].
    unfold reconstroi, novo_semaforo. cbn [cadeira_sem com_sem jogadores_ativos].
    apply para_ptrdiff_size_t. lia.
  - (* C_dorme_rodada *)
    destruct Hfase as (Hq & Hf & Ha & Hc & Hsem).
    inversion Hpasso; subst s'; clear Hpasso.
    split; [|unfold restam; cbn; lia].
    monta_inv.
    + replace (length (jogadores_ativos m) - 1)%nat
        with (Z.to_nat (cadeiras m) - 1)%nat by lia.
      exact Hrod.
    + fecha.
  - (* C_encerra *)
    destruct Hfase as (Hq & Hf & Ha).
    inversion Hpasso; subst s'; clear Hpasso.
    split; [|unfold restam; cbn; lia].
    monta_inv. fecha.
  - (* C_notifica_fim *)
    destruct Hfase as (Hq & Hf & Ha).
    inversion Hpasso; subst s'; clear Hpasso.
    split; [|unfold restam; cbn; lia].
    unfold inv; cbn [mem jogadores coord pcc com_pcc].
    split; [assumption|]. split; [now rewrite map_id_notify_all|].
    split; [assumption|]. split; [assumption|]. split; [exact Hrod|].
    unfold inv_fora_da_janela, flags_fora. cbn [mem jogadores coord pcc com_pcc].
    split.
    { intros i j Hj. apply lookup_notify_all in Hj as (j0 & Hj0 & ->).
      apply acorda_preserva. now apply (Hq i j0). }
    split; [|assumption].
    intros i j Hj He Hexc.
    apply lookup_notify_all in Hj as (j0 & Hj0 & ->).
    destruct (acorda_preserva j0) as (Hid & Hel & _ & Hpc).
    rewrite Hid. rewrite Hel in He.
    destruct (Hf i j0 Hj0 He Hexc) as [H1 H2].
    split; [assumption | now apply Hpc].
  - (* C_vencedor *)
    destruct Hfase as (Hq & Hf & Ha).
    inversion Hpasso; subst s'; clear Hpasso.
    split; [|unfold restam; cbn; lia].
    assert (Hat : jogadores_ativos (anuncia_vencedor m) = jogadores_ativos m).
    { unfold anuncia_vencedor. destruct (jogadores_ativos m) eqn:E; cbn; congruence. }
    unfold inv; cbn [mem jogadores coord pcc com_pcc]. rewrite Hat.
    split; [assumption|]. split; [assumption|].
    split; [assumption|]. split; [assumption|]. split.
    { unfold rodadas_por_vir; cbn [mem coord pcc com_pcc].
      unfold anuncia_vencedor. destruct (jogadores_ativos m); [exact Hrod|].
      rewrite rodadas_anunciadas_imprime, app_nil_r. exact Hrod. }
    unfold inv_fora_da_janela, flags_fora. cbn [mem jogadores coord pcc com_pcc].
    rewrite Hat. fecha.
  - (* C_destroi *)
    destruct Hfase as (Hq & Hf & Ha).
    inversion Hpasso; subst s'; clear Hpasso.
    split; [|unfold restam; cbn; lia].
    monta_inv. fecha.
  - discriminate.
Qed.

Lemma musica_na_janela (s : Estado) :
  musica_conforme s = true -> pcc (coord s) = C_dorme_sentar ->
  musica_parada (mem s) = true.
Proof.
  unfold musica_conforme. intros H Hp. rewrite Hp in H.
  destruct (musica_parada (mem s)); [reflexivity | discriminate].
Qed.

Lemma restam_na_janela (s s' : Estado) :
  pcc (coord s) = C_dorme_sentar ->
  coord s' = coord s ->
  cadeiras (mem s') = cadeiras (mem s) ->
  restam s' = restam s.
Proof. intros Hp Hc Hcad. unfold restam. now rewrite Hc, Hp, Hcad. Qed.

Lemma passo_jogador_inv (N : Z) (i : nat) (s s' : Estado) :
  inv N s ->
  permitido (E_jogador i) s = true ->
  passo N (E_jogador i) s = Some s' ->
  inv N s' /\ restam s' = restam s.
Proof.
  intros Hinv Hperm Hpasso.
  assert (Hmus' : musica_conforme s' = true).
  { destruct Hinv as (_ & _ & _ & Hmus & _).
    exact (passo_musica_conforme N _ s s' Hpasso Hmus). }
  cbn [passo] in Hpasso. unfold permitido in Hperm.
  destruct (jogadores s !! i) as [j|] eqn:Hj; [|discriminate].
  assert (Hquieto : pcc (coord s) <> C_dorme_sentar -> quieto j = true).
  { intros Hp. destruct Hinv as (_ & _ & _ & _ & _ & Hfase).
    destruct (pcc (coord s)); try contradiction;
      destruct Hfase as (Hq & _); exact (Hq i j Hj). }
  unfold joga_passo in Hpasso.
  destruct (pc j) eqn:Hpc.
  - (* J_laco *)
    inversion Hpasso; subst s'; clear Hpasso. split; [|reflexivity].
    apply (inv_passivo N s i j); auto.
    + unfold quieto. now rewrite Hpc.
    + unfold quieto. cbn. destruct (jogo_ativo (mem s)); reflexivity.
    + intros _ [H|[H|H]]; congruence.
  - (* J_espera_parada *)
    inversion Hpasso; subst s'; clear Hpasso. split; [|reflexivity].
    apply (inv_passivo N s i j); auto.
    + unfold quieto. now rewrite Hpc.
    + unfold quieto. cbn. destruct (musica_parada (mem s)); reflexivity.
    + intros _ [H|[H|H]]; congruence.
  - discriminate.
  - (* J_checa_ativo *)
    inversion Hpasso; subst s'; clear Hpasso. split; [|reflexivity].
    apply (inv_passivo N s i j); auto.
    + unfold quieto. now rewrite Hpc.
    + unfold quieto. cbn. destruct (jogo_ativo (mem s)); reflexivity.
    + intros _ [H|[H|H]]; congruence.
  - (* J_tenta *)
    destruct (pcc (coord s)) eqn:Hp; try discriminate.
    assert (Hin : In (jog_id j) (jogadores_ativos (mem s))).
    { apply existsb_exists in Hperm as (x & Hx & Heq).
      apply Z.eqb_eq in Heq. now subst. }
    destruct Hinv as (Hnd & Hids & Hmax & Hmus & Hrod & Hfase).
    rewrite Hp in Hfase.
    unfold try_acquire in Hpasso.
    destruct (Z.ltb_spec 0 (cadeira_sem (mem s))) as [Hlivre|Hcheio];
      inversion Hpasso; subst s'; clear Hpasso.
    + split; [|now apply restam_na_janela].
      unfold inv. cbn [mem jogadores coord]. rewrite Hp.
      split; [assumption|]. split.
      { now rewrite (map_id_insert _ _ _ _ Hj). }
      split; [assumption|]. split; [assumption|]. split.
      { unfold rodadas_por_vir in *. cbn [mem coord] in *. rewrite Hp in *.
        exact Hrod. }
      now apply inv_janela_tenta_livre.
    + split; [|now apply restam_na_janela].
      unfold inv. cbn [mem jogadores coord]. rewrite Hp.
      split; [assumption|]. split.
      { now rewrite (map_id_insert _ _ _ _ Hj). }
      split; [assumption|]. split; [assumption|]. split.
      { unfold rodadas_por_vir in *. cbn [mem coord] in *. rewrite Hp in *.
        exact Hrod. }
      now apply inv_janela_tenta_esgotado.
  - (* J_senta *)
    destruct (pcc (coord s)) eqn:Hp;
      try (exfalso; assert (Hq : quieto j = true) by (apply Hquieto; discriminate);
           unfold quieto in Hq; rewrite Hpc in Hq; discriminate).
    destruct Hinv as (Hnd & Hids & Hmax & Hmus & Hrod & Hfase).
    rewrite Hp in Hfase.
    inversion Hpasso; subst s'; clear Hpasso.
    split; [|now apply restam_na_janela].
    unfold inv. cbn [mem jogadores coord]. rewrite Hp.
    split; [assumption|]. split.
    { now rewrite (map_id_insert _ _ _ _ Hj). }
    split; [assumption|]. split; [assumption|]. split.
    { unfold rodadas_por_vir in *. cbn [mem coord] in *. rewrite Hp in *.
      exact Hrod. }
    now apply inv_janela_senta.
  - (* J_verifica *)
    destruct (pcc (coord s)) eqn:Hp;
      try (exfalso; assert (Hq : quieto j = true) by (apply Hquieto; discriminate);
           unfold quieto in Hq; rewrite Hpc in Hq; discriminate).
    destruct Hinv as (Hnd & Hids & Hmax & Hmus & Hrod & Hfase).
    rewrite Hp in Hfase.
    inversion Hpasso; subst s'; clear Hpasso.
    assert (Hver : jogadores_ativos (verificar_eliminacao j (mem s)) = jogadores_ativos (mem s)
                   \/ jogadores_ativos (verificar_eliminacao j (mem s))
                      = remove_id (jog_id j) (jogadores_ativos (mem s))).
    { unfold verificar_eliminacao. destruct (eliminado j); auto. }
    assert (Hsai : saida (verificar_eliminacao j (mem s)) = saida (mem s)
                   /\ cadeiras (verificar_eliminacao j (mem s)) = cadeiras (mem s)).
    { unfold verificar_eliminacao. destruct (eliminado j); auto. }
    destruct Hsai as [Hsai Hcad].
    split; [|now apply restam_na_janela].
    unfold inv. cbn [mem jogadores coord]. rewrite Hp.
    split.
    { destruct Hver as [->| ->]; [assumption | now apply remove_id_NoDup]. }
    split.
    { now rewrite (map_id_insert _ _ _ _ Hj). }
    split.
    { destruct Hver as [->| ->]; [assumption|].
      pose proof (remove_id_length_le (jog_id j) (jogadores_ativos (mem s))). lia. }
    split; [assumption|]. split.
    { unfold rodadas_por_vir in *. cbn [mem coord] in *. rewrite Hp in *.
      unfold rodadas_anunciadas in *. rewrite Hsai, Hcad. exact Hrod. }
    now apply inv_janela_verifica.
  - (* J_espera_retomada *)
    inversion Hpasso; subst s'; clear Hpasso. split; [|reflexivity].
    apply (inv_passivo N s i j); auto.
    + unfold quieto. now rewrite Hpc.
    + unfold quieto. cbn. destruct (musica_parada (mem s)); reflexivity.
    + intros Hp _. destruct Hinv as (_ & _ & _ & Hmus & _).
      rewrite (musica_na_janela s Hmus Hp). right; right. reflexivity.
  - discriminate.
  - discriminate.
Qed.

Lemma passo_espurio_inv (N : Z) (i : nat) (s s' : Estado) :
  inv N s ->
  passo N (E_espurio i) s = Some s' ->
  inv N s' /\ restam s' = restam s.
Proof.
  intros Hinv Hpasso. cbn [passo] in Hpasso.
  destruct (jogadores s !! i) as [j|] eqn:Hj; [|discriminate].
  destruct (dormindo j) eqn:Hd; [|discriminate].
  inversion Hpasso; subst s'; clear Hpasso. split; [|reflexivity].
  unfold dormindo in Hd.
  apply (inv_passivo N s i j); auto.
  - apply acorda_preserva.
  - apply acorda_preserva.
  - unfold quieto. destruct (pc j); try discriminate; reflexivity.
  - unfold quieto, acorda. destruct (pc j); try discriminate; reflexivity.
  - intros _ Hap. unfold apos_sentar, acorda in *.
    destruct (pc j) eqn:E; try discriminate.
    + destruct Hap as [H|[H|H]]; discriminate.
    + right; left. reflexivity.
Qed.

Lemma passo_inv (N : Z) (e : Evento) (s s' : Estado) :
  inv N s ->
  permitido e s = true ->
  passo N e s = Some s' ->
  inv N s'
  /\ (restam s' + match e with E_coord => 1 | _ => 0 end)%nat = restam s.
Proof.
  intros Hinv Hperm Hpasso. destruct e as [|i|i].
  - destruct (passo_coord_inv N s s' Hinv Hperm Hpasso). split; [assumption|lia].
  - destruct (passo_jogador_inv N i s s' Hinv Hperm Hpasso). split; [assumption|lia].
  - destruct (passo_espurio_inv N i s s' Hinv Hpasso). split; [assumption|lia].
Qed.

Lemma executa_inv (N : Z) (ag : list Evento) :
  forall s s',
    inv N s ->
    pontual N ag s = true ->
    executa N ag s = Some s' ->
    inv N s' /\ (restam s' + n_coord ag)%nat = restam s.
Proof.
  induction ag as [|e ag IH]; intros s s' Hinv Hpont Hrun; cbn in Hrun.
  - inversion Hrun; subst. split; [assumption|]. cbn. lia.
  - cbn [pontual] in Hpont. apply andb_prop in Hpont as [Hperm Hpont].
    destruct (passo N e s) as [s1|] eqn:E; [|discriminate].
    destruct (passo_inv N e s s1 Hinv Hperm E) as [Hinv1 Hr1].
    destruct (IH s1 s' Hinv1 Hpont Hrun) as [Hinv' Hr'].
    split; [assumption|].
    unfold n_coord in *. cbn [List.filter]. destruct e; cbn [length]; lia.
Qed.

Lemma inv_inicial (N : Z) : 2 <= N < 2 ^ 31 -> inv N (estado_inicial N).
Proof.
  intros HN. unfold inv, estado_inicial, memoria_inicial, novo_semaforo.
  cbn [mem jogadores coord pcc jogadores_ativos].
  rewrite length_ids_iniciais.
  split.
  { unfold ids_iniciais. apply Injective_map_NoDup.
    - intros a b. apply Nat2Z.inj.
    - apply List.seq_NoDup. }
  split.
  { unfold jogadores_iniciais. rewrite map_map. cbn [jog_id].
    rewrite map_id. unfold ids_iniciais. apply Injective_map_NoDup.
    - intros a b. apply Nat2Z.inj.
    - apply List.seq_NoDup. }
  split; [lia|]. split; [reflexivity|]. split.
  { unfold rodadas_por_vir, rodadas_anunciadas.
    cbn [mem coord pcc saida jogadores_ativos flat_map app].
    now rewrite length_ids_iniciais. }
  unfold inv_fora_da_janela, flags_fora.
  cbn [mem jogadores coord pcc jogadores_ativos cadeira_sem].
  rewrite length_ids_iniciais.
  split.
  { intros i j Hj. unfold jogadores_iniciais, ids_iniciais in Hj.
    rewrite map_map in Hj.
    revert i Hj. generalize 1%nat. induction (Z.to_nat N) as [|n IHn];
      intros a i Hj; [discriminate|].
    destruct i as [|i]; cbn in Hj.
    - inversion Hj; subst. reflexivity.
    - eapply IHn; eassumption. }
  split.
  { intros i j Hj He. apply lookup_jogadores_iniciais in Hj as [_ Hj]. congruence. }
  split; lia.
Qed.


(** *** Termination *)

Lemma pontual_app (N : Z) (a b : list Evento) :
  forall s,
    pontual N (a ++ b) s
    = pontual N a s
      && match executa N a s with
         | Some s' => pontual N b s'
         | None => true
         end.
Proof.
  induction a as [|e a IH]; intros s; cbn; [reflexivity|].
  destruct (passo N e s) as [s1|]; [|now rewrite !andb_true_r].
  rewrite IH. now rewrite andb_assoc.
Qed.


Lemma pendencias_insert (js : list Jogador) :
  forall i j j', js !! i = Some j ->
    (pendencias (<[i := j']> js) + pendencia j
     = pendencias js + pendencia j')%nat.
Proof.
  unfold pendencias, list_sum.
  induction js as [|a js IH]; intros i j j' Hi; [discriminate|].
  destruct i as [|i]; cbn in Hi.
  - inversion Hi; subst. cbn [insert list_insert List.map list_sum fold_right]. lia.
  - change (<[S i := j']> (a :: js)) with (a :: <[i := j']> js).
    cbn [List.map list_sum fold_right] in *. specialize (IH i j j' Hi). lia.
Qed.

Lemma pendencias_casos (js : list Jogador) :
  forallb quieto js = true
  \/ exists i j, js !! i = Some j /\ (pc j = J_senta \/ pc j = J_verifica).
Proof.
  induction js as [|a js [IH|(i & j & Hj & Hp)]].
  - now left.
  - destruct (pc a) eqn:E;
      try (left; cbn; unfold quieto at 1; rewrite E; exact IH);
      right; exists 0%nat, a; auto.
  - right. exists (S i), j. auto.
Qed.

(** The threads inside lines 127-137 finish them. *)
Lemma acalma (N : Z) :
  forall (n : nat) (s : Estado),
    pendencias (jogadores s) = n ->
    inv N s ->
    exists ag s',
      executa N ag s = Some s'
      /\ pontual N ag s = true
      /\ n_coord ag = 0%nat
      /\ inv N s'
      /\ coord s' = coord s
      /\ restam s' = restam s
      /\ forallb quieto (jogadores s') = true.
Proof.
  induction n as [n IH] using lt_wf_ind. intros s Hn Hinv.
  destruct (pendencias_casos (jogadores s)) as [Hq|(i & j & Hj & Hp)].
  - exists [], s.
    split; [reflexivity|]. split; [reflexivity|]. split; [reflexivity|].
    split; [assumption|]. split; [reflexivity|]. split; [reflexivity|].
    assumption.
  - assert (Hpasso : exists j' m',
               passo N (E_jogador i) s
               = Some {| mem := m'; jogadores := <[i := j']> (jogadores s);
                         coord := coord s |}
               /\ S (pendencia j') = pendencia j).
    { cbn [passo]. rewrite Hj. unfold joga_passo, pendencia.
      destruct Hp as [Hp|Hp]; rewrite Hp; eexists; eexists; split; reflexivity. }
    destruct Hpasso as (j' & m' & Hpasso & Hpend).
    set (s1 := {| mem := m'; jogadores := <[i := j']> (jogadores s);
                  coord := coord s |}) in *.
    assert (Hperm : permitido (E_jogador i) s = true).
    { unfold permitido. rewrite Hj. destruct Hp as [Hp|Hp]; now rewrite Hp. }
    destruct (passo_inv N _ s s1 Hinv Hperm Hpasso) as [Hinv1 Hr1].
    pose proof (pendencias_insert (jogadores s) i j j' Hj) as Hpi.
    destruct (IH (pendencias (jogadores s1)) ltac:(cbn [jogadores s1]; lia)
                 s1 eq_refl Hinv1)
      as (ag & s' & Hrun & Hpont & Hnc & Hinv' & Hc & Hr & Hq).
    exists (E_jogador i :: ag), s'.
    cbn [executa pontual]. rewrite Hpasso, Hperm.
    split; [assumption|]. split; [assumption|]. split; [assumption|].
    split; [assumption|]. split; [assumption|]. split; [lia|].
    assumption.
Qed.

Lemma coord_nao_bloqueia (N : Z) (s : Estado) :
  pcc (coord s) <> C_fim -> iniciar_jogo_passo N s <> None.
Proof.
  intros Hpc. unfold iniciar_jogo_passo.
  destruct (pcc (coord s)); try discriminate;
    try (destruct (procura_eliminado _ _); discriminate).
  contradiction.
Qed.

(** From every state of a run that keeps to the timing, the run can go on,
    keeping to the timing, until [iniciar_jogo] returns. *)
Lemma termina (N : Z) :
  forall (n : nat) (s : Estado),
    (restam s <= n)%nat ->
    inv N s ->
    exists ag s',
      executa N ag s = Some s'
      /\ pontual N ag s = true
      /\ pcc (coord s') = C_fim.
Proof.
  induction n as [|n IH]; intros s Hn Hinv.
  - destruct (pcc (coord s)) eqn:Hp; try (exists [], s; repeat split; assumption).
    all: exfalso.
    all: destruct (acalma N _ s eq_refl Hinv)
           as (ag & s1 & Hrun & Hpont & Hnc & Hinv1 & Hc & Hr & Hq).
    all: destruct (iniciar_jogo_passo N s1) as [s2|] eqn:E;
           [|apply (coord_nao_bloqueia N s1); [rewrite Hc, Hp; discriminate | exact E]].
    all: assert (Hperm : permitido E_coord s1 = true)
           by (unfold permitido; rewrite Hc, Hp; auto).
    all: destruct (passo_inv N E_coord s1 s2 Hinv1 Hperm E) as [_ Hr2]; lia.
  - destruct (pcc (coord s)) eqn:Hp; try (exists [], s; repeat split; assumption).
    all: destruct (acalma N _ s eq_refl Hinv)
           as (ag & s1 & Hrun & Hpont & Hnc & Hinv1 & Hc & Hr & Hq).
    all: destruct (iniciar_jogo_passo N s1) as [s2|] eqn:E;
           [|exfalso; apply (coord_nao_bloqueia N s1);
             [rewrite Hc, Hp; discriminate | exact E]].
    all: assert (Hperm : permitido E_coord s1 = true)
           by (unfold permitido; rewrite Hc, Hp; auto).
    all: destruct (passo_inv N E_coord s1 s2 Hinv1 Hperm E) as [Hinv2 Hr2].
    all: destruct (IH s2 ltac:(lia) Hinv2) as (ag2 & s' & Hrun2 & Hpont2 & Hfim).
    all: exists (ag ++ [E_coord] ++ ag2), s'.
    all: rewrite executa_app, Hrun; cbn [app executa passo]; rewrite E.
    all: split; [exact Hrun2|]; split; [|exact Hfim].
    all: rewrite pontual_app, Hpont, Hrun; cbn [app pontual andb passo].
    all: rewrite Hperm, E; exact Hpont2.
Qed.

Lemma length_rodadas_esperadas (k : nat) : length (rodadas_esperadas k) = k.
Proof. induction k as [|k IH]; [reflexivity|]. cbn [rodadas_esperadas length]. now rewrite IH. Qed.

(** C3, as the code has it.  Take any run of the [N >= 2] player threads
    and the coordinator that keeps to the timing of the sleeps: a thread
    runs [try_acquire] only while the coordinator sleeps at line 175 and
    only if its participant is in the Active Set, and the coordinator leaves
    that sleep only when no thread is between its [try_acquire] and the end
    of [verificar_eliminacao].  Then at every point of the run the rounds
    announced so far are the first of the rounds with [N], [N - 1], ..., 2
    players; the coordinator has taken 16 steps per round and takes 5 after
    the loop, [16 (N - 1) + 5] in all; when [iniciar_jogo] has returned,
    exactly [N - 1] rounds were played, each started with one participant
    less than the one before, and exactly one participant remains; and from
    every point the run can go on, keeping to the timing, until
    [iniciar_jogo] returns. *)
Theorem C3_rounds (N : Z) (ag : list Evento) (s : Estado) :
  2 <= N < 2 ^ 31 ->
  executa N ag (estado_inicial N) = Some s ->
  pontual N ag (estado_inicial N) = true ->
  (exists k, rodadas_anunciadas (mem s) ++ rodadas_esperadas k
             = rodadas_esperadas (Z.to_nat N - 1))
  /\ (restam s + n_coord ag = 16 * (Z.to_nat N - 1) + 5)%nat
  /\ (pcc (coord s) = C_fim ->
      rodadas_anunciadas (mem s) = rodadas_esperadas (Z.to_nat N - 1)
      /\ length (rodadas_anunciadas (mem s)) = (Z.to_nat N - 1)%nat
      /\ length (jogadores_ativos (mem s)) = 1%nat)
  /\ (exists ag' s',
        executa N ag' s = Some s'
        /\ pontual N ag' s = true
        /\ pcc (coord s') = C_fim).
Proof.
  intros HN Hrun Hpont.
  destruct (executa_inv N ag _ s (inv_inicial N HN) Hpont Hrun) as [Hinv Hr].
  pose proof Hinv as (_ & _ & _ & _ & Hrod & Hfase).
  split; [eexists; exact Hrod|]. split.
  { rewrite Hr. unfold restam, estado_inicial, memoria_inicial.
    cbn [mem coord pcc jogadores_ativos]. now rewrite length_ids_iniciais. }
  split.
  { intros Hfim. unfold rodadas_por_vir in Hrod.
    unfold inv_fora_da_janela in Hfase. rewrite Hfim in Hrod, Hfase.
    rewrite app_nil_r in Hrod. split; [exact Hrod|]. split.
    - rewrite Hrod. apply length_rodadas_esperadas.
    - destruct Hfase as (_ & _ & Ha). lia. }
  exact (termina N (restam s) s (Nat.le_refl _) Hinv).
Qed.

Lemma C3_rounds_witness :
  let s := estado_apos agenda_pontual in
  pcc (coord s) = C_fim
  /\ rodadas_anunciadas (mem s) = [(4, 3); (3, 2); (2, 1)]
  /\ length (jogadores_ativos (mem s)) = 1%nat
  /\ n_coord agenda_pontual = 53%nat.
Proof.
  cbv zeta.
  destruct (C3_rounds NUM_JOGADORES agenda_pontual (estado_apos agenda_pontual))
    as (_ & H2 & H3 & _).
  - vm_compute. split; [discriminate | reflexivity].
  - vm_compute. reflexivity.
  - vm_compute. reflexivity.
  - assert (Hfim : pcc (coord (estado_apos agenda_pontual)) = C_fim)
      by (vm_compute; reflexivity).
    destruct (H3 Hfim) as (Hr & _ & Ha).
    split; [exact Hfim|]. split; [exact Hr|]. split; [exact Ha|].
    vm_compute. reflexivity.
Defined.

(** C3 fails as stated, for two reasons.  A thread can be late: in the
    first run player 3 is preempted between [try_acquire] and the recording
    of its seat, the coordinator eliminates it while player 4 eliminated
    itself, and the game of four is over after two rounds.  And the thread of
    an eliminated player goes on claiming whenever its waits return, since
    [joga] tests [jogo_ativo] only: in the second run the thread of player 4
    is served first in round 2, players 2 and 3 both fail and take
    themselves out, and again two rounds are played. *)
Lemma C3_counterexample :
  (exists s,
      executa NUM_JOGADORES agenda_lento (estado_inicial NUM_JOGADORES) = Some s
      /\ pcc (coord s) = C_fim
      /\ List.map pc (jogadores s) = [J_fim; J_fim; J_fim; J_fim]
      /\ saida (mem s)
         = [S_rodada 4 3; S_parou; S_resultado [1; 2; 3] 3;
            S_rodada 2 1; S_parou; S_resultado [] 1;
            S_vencedor 2])
  /\ (exists s,
      executa NUM_JOGADORES agenda_volta (estado_inicial NUM_JOGADORES) = Some s
      /\ pcc (coord s) = C_fim
      /\ List.map pc (jogadores s) = [J_fim; J_fim; J_fim; J_fim]
      /\ saida (mem s)
         = [S_rodada 4 3; S_parou; S_resultado [1; 2; 3] (-1);
            S_rodada 3 2; S_parou; S_resultado [4; 1] (-1);
            S_vencedor 1]).
Proof.
  split.
  - eexists. split; [vm_compute; reflexivity|].
    vm_compute. repeat split.
  - eexists. split; [vm_compute; reflexivity|].
    vm_compute. repeat split.
Qed.

(** The runs of the counterexample do not keep to the timing: in
    [agenda_lento] the coordinator leaves the sleep of line 175 while
    player 3 has not recorded its seat, in [agenda_volta] the thread of the
    eliminated player 4 claims. *)
Lemma fora_do_tempo :
  pontual NUM_JOGADORES agenda_lento (estado_inicial NUM_JOGADORES) = false
  /\ pontual NUM_JOGADORES agenda_volta (estado_inicial NUM_JOGADORES) = false.
Proof. split; vm_compute; reflexivity. Qed.

(** In a run that keeps to the timing every round starts clean: when the
    coordinator enters [iniciar_rodada] the gate holds
    [size(Active Set) - 1] units and no thread holds a unit it has not
    recorded, and when [iniciar_rodada] has returned the gate holds the
    chair count and the Seated Set is empty. *)
Lemma rodada_comeca_limpa (N : Z) (ag : list Evento) (s : Estado) :
  2 <= N < 2 ^ 31 ->
  executa N ag (estado_inicial N) = Some s ->
  pontual N ag (estado_inicial N) = true ->
  let a := Z.of_nat (length (jogadores_ativos (mem s))) in
  (pcc (coord s) = C_rodada_cadeiras ->
   cadeira_sem (mem s) = a - 1 /\ n_sentando (jogadores s) = 0%nat
   /\ 2 <= a < 2 ^ 31)
  /\ (pcc (coord s) = C_dorme_musica ->
      cadeira_sem (mem s) = cadeiras (mem s) /\ cadeiras (mem s) = a - 1
      /\ cadeiras_ocupadas (mem s) = []).
Proof.
  intros HN Hrun Hpont a.
  destruct (executa_inv N ag _ s (inv_inicial N HN) Hpont Hrun) as [Hinv _].
  destruct Hinv as (_ & _ & Hmax & _ & _ & Hfase).
  unfold inv_fora_da_janela in Hfase. fold a in Hfase, Hmax.
  split; intros Hp; rewrite Hp in Hfase.
  - destruct Hfase as (Hq & _ & Hsem & Ha).
    split; [assumption|]. split; [now apply n_sentando_quietos | lia].
  - destruct Hfase as (_ & _ & Hsem & Ha & Hc & Ho).
    split; [congruence|]. split; assumption.
Qed.

(** * The rest of the program *)

(** ** The threads and their ids *)

Lemma passo_ids (N : Z) (e : Evento) (s s' : Estado) :
  passo N e s = Some s' ->
  List.map jog_id (jogadores s') = List.map jog_id (jogadores s).
Proof.
  destruct e as [|i|i]; cbn [passo].
  - intros H. caso_coord s H; cbn; try reflexivity; apply map_id_notify_all.
  - destruct (jogadores s !! i) as [j|] eqn:Hj; [|discriminate].
    destruct (joga_passo j (mem s)) as [[j' m']|] eqn:E; [|discriminate].
    intros H. inversion H; subst; cbn.
    apply joga_passo_preserva in E as (_ & _ & _ & _ & Hid).
    eapply map_id_insert; eassumption.
  - destruct (jogadores s !! i) as [j|] eqn:Hj; [|discriminate].
    destruct (dormindo j); [|discriminate].
    intros H. inversion H; subst; cbn.
    eapply map_id_insert; [eassumption|]. apply acorda_preserva.
Qed.

Lemma executa_ids (N : Z) (ag : list Evento) :
  forall s s', executa N ag s = Some s' ->
    List.map jog_id (jogadores s') = List.map jog_id (jogadores s).
Proof.
  induction ag as [|e ag IH]; intros s s' H; cbn in H.
  - inversion H; subst. reflexivity.
  - destruct (passo N e s) as [s1|] eqn:E; [|discriminate].
    rewrite (IH _ _ H). eapply passo_ids; eassumption.
Qed.

Lemma ids_jogadores_iniciais (N : Z) :
  List.map jog_id (jogadores_iniciais N) = ids_iniciais N.
Proof.
  unfold jogadores_iniciais. rewrite map_map. cbn. apply map_id.
Qed.

Lemma lookup_ids_seq (n : nat) :
  forall (a i : nat) (x : Z),
    List.map Z.of_nat (seq a n) !! i = Some x -> x = Z.of_nat (a + i).
Proof.
  induction n as [|n IH]; intros a i x H; [discriminate|].
  destruct i as [|i]; cbn in H.
  - inversion H; subst. f_equal. lia.
  - apply IH in H. rewrite H. f_equal. lia.
Qed.

Lemma ids_do_estado (N : Z) (ag : list Evento) (s : Estado) :
  executa N ag (estado_inicial N) = Some s ->
  List.map jog_id (jogadores s) = ids_iniciais N.
Proof.
  intros H. rewrite (executa_ids _ _ _ _ H). apply ids_jogadores_iniciais.
Qed.

Lemma id_do_jogador (N : Z) (ag : list Evento) (s : Estado)
  (i : nat) (j : Jogador) :
  executa N ag (estado_inicial N) = Some s ->
  jogadores s !! i = Some j ->
  jog_id j = Z.of_nat i + 1 /\ (i < Z.to_nat N)%nat.
Proof.
  intros H Hj. pose proof (ids_do_estado _ _ _ H) as Hids.
  pose proof (lookup_map_id _ _ _ Hj) as Hl. rewrite Hids in Hl.
  split.
  - unfold ids_iniciais in Hl. apply lookup_ids_seq in Hl. lia.
  - apply lookup_lt_Some in Hl. now rewrite length_ids_iniciais in Hl.
Qed.

(** X1.  The constructor of [JogoDasCadeiras] and [main] number the
    participants 1..N, and no step of any thread renumbers, adds or drops a
    player object: in every state the program reaches there are [N] player
    threads, their ids are the initial Active Set in its order, and thread
    [i] plays participant [i + 1]. *)
Theorem X1_threads_keep_ids (N : Z) (ag : list Evento) (s : Estado) :
  executa N ag (estado_inicial N) = Some s ->
  List.map jog_id (jogadores s) = jogadores_ativos (mem (estado_inicial N))
  /\ length (jogadores s) = Z.to_nat N
  /\ (forall i j, jogadores s !! i = Some j -> jog_id j = Z.of_nat i + 1)
  /\ (forall i, (i < Z.to_nat N)%nat ->
        jogadores_ativos (mem (estado_inicial N)) !! i = Some (Z.of_nat i + 1)).
Proof.
  intros H. pose proof (ids_do_estado _ _ _ H) as Hids.
  split; [exact Hids|].
  split.
  { rewrite <- (length_map jog_id), Hids. apply length_ids_iniciais. }
  split.
  { intros i j Hj. eapply id_do_jogador; eassumption. }
  intros i Hi. cbn [estado_inicial mem memoria_inicial jogadores_ativos].
  destruct (ids_iniciais N !! i) as [x|] eqn:E.
  - unfold ids_iniciais in E. apply lookup_ids_seq in E. rewrite E.
    f_equal. lia.
  - apply lookup_ge_None in E. rewrite length_ids_iniciais in E. lia.
Qed.

Lemma X1_threads_keep_ids_witness :
  List.map jog_id (jogadores (estado_apos agenda_pontual)) = [1; 2; 3; 4]
  /\ length (jogadores (estado_apos agenda_pontual)) = 4%nat.
Proof.
  destruct (X1_threads_keep_ids NUM_JOGADORES agenda_pontual
              (estado_apos agenda_pontual)) as (H1 & H2 & _).
  - vm_compute. reflexivity.
  - split; [exact H1 | exact H2].
Defined.

(** ** [eliminar_jogador]: the erase-remove of lines 96-97 *)

Lemma remove_id_comuta (a b : Z) (l : list Z) :
  remove_id a (remove_id b l) = remove_id b (remove_id a l).
Proof.
  unfold remove_id. induction l as [|x l IH]; [reflexivity|].
  cbn [List.filter].
  destruct (x =? b) eqn:Eb; destruct (x =? a) eqn:Ea; cbn [negb List.filter];
    rewrite ?Ea, ?Eb; cbn [negb]; rewrite IH; reflexivity.
Qed.

Lemma remove_id_conta (a : Z) (l : list Z) :
  (length (remove_id a l) + count_occ Z.eq_dec l a = length l)%nat.
Proof.
  unfold remove_id. induction l as [|x l IH]; [reflexivity|].
  cbn [List.filter count_occ length].
  destruct (Z.eq_dec x a) as [->|Hne].
  - rewrite Z.eqb_refl. cbn [negb]. lia.
  - apply Z.eqb_neq in Hne. rewrite Hne. cbn [negb length]. lia.
Qed.

Lemma remove_id_app (a : Z) (l1 l2 : list Z) :
  remove_id a (l1 ++ l2) = remove_id a l1 ++ remove_id a l2.
Proof. unfold remove_id. apply List.filter_app. Qed.

Lemma remove_id_sublist (a : Z) (l : list Z) :
  remove_id a l `sublist_of` l.
Proof.
  unfold remove_id. induction l as [|x l IH]; [constructor|].
  cbn [List.filter]. destruct (negb (x =? a)).
  - now apply sublist_skip.
  - now apply sublist_cons.
Qed.

(** X2.  [eliminar_jogador] erases every occurrence of the id and nothing
    else: the Active Set loses as many entries as the id had occurrences,
    what is left keeps its order (the removal distributes over
    concatenation and gives a sub-sequence), two removals commute, the
    removal of an absent id changes nothing, and no other global is
    touched. *)
Theorem X2_eliminar_jogador_algebra (a b : Z) (m : Memoria) (l1 l2 : list Z) :
  eliminar_jogador a (eliminar_jogador b m)
  = eliminar_jogador b (eliminar_jogador a m)
  /\ (length (jogadores_ativos (eliminar_jogador a m))
      + count_occ Z.eq_dec (jogadores_ativos m) a
      = length (jogadores_ativos m))%nat
  /\ jogadores_ativos (eliminar_jogador a m) `sublist_of` jogadores_ativos m
  /\ jogadores_ativos (eliminar_jogador a (com_ativos (l1 ++ l2) m))
     = jogadores_ativos (eliminar_jogador a (com_ativos l1 m))
       ++ jogadores_ativos (eliminar_jogador a (com_ativos l2 m))
  /\ (~ In a (jogadores_ativos m) -> eliminar_jogador a m = m)
  /\ (cadeira_sem (eliminar_jogador a m) = cadeira_sem m
      /\ musica_parada (eliminar_jogador a m) = musica_parada m
      /\ jogo_ativo (eliminar_jogador a m) = jogo_ativo m
      /\ cadeiras_ocupadas (eliminar_jogador a m) = cadeiras_ocupadas m
      /\ cadeiras (eliminar_jogador a m) = cadeiras m
      /\ saida (eliminar_jogador a m) = saida m).
Proof.
  split.
  { unfold eliminar_jogador, com_ativos.
    cbn [cadeira_sem musica_parada jogo_ativo jogadores_ativos
         cadeiras_ocupadas cadeiras saida].
    now rewrite remove_id_comuta. }
  split; [apply remove_id_conta|].
  split; [apply remove_id_sublist|].
  split; [apply remove_id_app|].
  split.
  { intros Ha. unfold eliminar_jogador, com_ativos.
    rewrite (remove_id_ausente _ _ Ha). now destruct m. }
  repeat split.
Qed.

Lemma X2_eliminar_jogador_algebra_witness :
  jogadores_ativos (eliminar_jogador 2 (eliminar_jogador 4 (memoria_inicial 4)))
  = [1; 3]
  /\ eliminar_jogador 7 (memoria_inicial 4) = memoria_inicial 4.
Proof.
  destruct (X2_eliminar_jogador_algebra 7 4 (memoria_inicial 4) [] [])
    as (_ & _ & _ & _ & H & _).
  split; [vm_compute; reflexivity|].
  apply H. vm_compute. intros Hin.
  repeat (destruct Hin as [Hin|Hin]; [discriminate|]). exact Hin.
Defined.

(** ** The Active Set in every execution *)

Lemma ids_iniciais_NoDup (N : Z) : List.NoDup (ids_iniciais N).
Proof.
  unfold ids_iniciais. apply Injective_map_NoDup; [|apply seq_NoDup].
  intros x y H. lia.
Qed.

Lemma ids_iniciais_In (N x : Z) : In x (ids_iniciais N) <-> 1 <= x <= N.
Proof.
  unfold ids_iniciais. rewrite in_map_iff. split.
  - intros (k & <- & Hk). apply in_seq in Hk. lia.
  - intros Hx. exists (Z.to_nat x). split; [lia|]. apply in_seq. lia.
Qed.

Lemma passo_sublist (N : Z) (e : Evento) (s s' : Estado) :
  passo N e s = Some s' ->
  jogadores_ativos (mem s') `sublist_of` jogadores_ativos (mem s).
Proof.
  intros H. destruct (passo_ativos N e s s' H) as [->|(x & ->)].
  - reflexivity.
  - apply remove_id_sublist.
Qed.

Lemma executa_sublist (N : Z) (ag : list Evento) :
  forall s s', executa N ag s = Some s' ->
    jogadores_ativos (mem s') `sublist_of` jogadores_ativos (mem s).
Proof.
  induction ag as [|e ag IH]; intros s s' H; cbn in H.
  - inversion H; subst. reflexivity.
  - destruct (passo N e s) as [s1|] eqn:E; [|discriminate].
    etransitivity; [eapply IH; eassumption|].
    eapply passo_sublist; eassumption.
Qed.

Lemma ativos_NoDup (N : Z) (ag : list Evento) (s : Estado) :
  executa N ag (estado_inicial N) = Some s ->
  List.NoDup (jogadores_ativos (mem s)).
Proof.
  intros H. apply NoDup_ListNoDup.
  eapply sublist_NoDup; [|eapply executa_sublist; eassumption].
  apply NoDup_ListNoDup. apply ids_iniciais_NoDup.
Qed.

Lemma ativos_intervalo (N : Z) (ag : list Evento) (s : Estado) (x : Z) :
  executa N ag (estado_inicial N) = Some s ->
  In x (jogadores_ativos (mem s)) -> 1 <= x <= N.
Proof.
  intros H Hx. apply ids_iniciais_In.
  exact (executa_ativos N ag _ _ H x Hx).
Qed.

(** X3.  Whatever the interleaving, the Active Set is a sub-sequence of
    1..N: its ids are distinct, lie between 1 and N and stay in increasing
    constructor order, and it never has more than [N] entries.  So the
    erase-remove of [eliminar_jogador] never finds an id twice: a step takes
    at most one entry out. *)
Theorem X3_active_set_shape (N : Z) (ag : list Evento) (s : Estado) :
  executa N ag (estado_inicial N) = Some s ->
  jogadores_ativos (mem s) `sublist_of` ids_iniciais N
  /\ List.NoDup (jogadores_ativos (mem s))
  /\ (forall x, In x (jogadores_ativos (mem s)) -> 1 <= x <= N)
  /\ (length (jogadores_ativos (mem s)) <= Z.to_nat N)%nat
  /\ (forall e s', passo N e s = Some s' ->
        (length (jogadores_ativos (mem s))
         <= S (length (jogadores_ativos (mem s'))))%nat).
Proof.
  intros H.
  assert (Hsub : jogadores_ativos (mem s) `sublist_of` ids_iniciais N)
    by exact (executa_sublist N ag _ _ H).
  pose proof (ativos_NoDup _ _ _ H) as Hnd.
  split; [exact Hsub|]. split; [exact Hnd|].
  split; [intros x; eapply ativos_intervalo; eassumption|].
  split.
  { apply sublist_length in Hsub. now rewrite length_ids_iniciais in Hsub. }
  intros e s' Hp. destruct (passo_ativos N e s s' Hp) as [->|(x & ->)]; [lia|].
  destruct (in_dec Z.eq_dec x (jogadores_ativos (mem s))) as [Hin|Hout].
  - rewrite <- (remove_id_length x _ Hnd Hin). lia.
  - rewrite (remove_id_ausente _ _ Hout). lia.
Qed.

Lemma X3_active_set_shape_witness :
  jogadores_ativos (mem (estado_apos agenda_volta)) `sublist_of` [1; 2; 3; 4]
  /\ List.NoDup (jogadores_ativos (mem (estado_apos agenda_volta))).
Proof.
  destruct (X3_active_set_shape NUM_JOGADORES agenda_volta
              (estado_apos agenda_volta)) as (H1 & H2 & _).
  - vm_compute. reflexivity.
  - split; [exact H1 | exact H2].
Defined.

(** ** The output of every execution *)

Lemma passo_saida_conforme (N : Z) (e : Evento) (s s' : Estado) :
  (forall x, In x (jogadores_ativos (mem s)) -> 1 <= x <= N) ->
  saida_conforme N s ->
  passo N e s = Some s' ->
  saida_conforme N s'.
Proof.
  intros Hr (rs & fim & Hs & Hc) H. destruct e as [|i|i]; cbn [passo] in H.
  - revert Hc. caso_coord s H; intros Hc;
      destruct fim as [|[] [|[] [|? ?]]]; try discriminate;
      unfold saida_conforme; cbn [mem coord pcc com_pcc].
    + exists rs, []. split; [exact Hs|].
      now destruct (1 <? length (jogadores_ativos (mem s)))%nat.
    + exists rs, []. split; [exact Hs | reflexivity].
    + exists rs, []. split; [exact Hs | reflexivity].
    + eexists rs, [_].
      split; [unfold iniciar_rodada_anuncia, imprime; cbn [saida];
              rewrite Hs, app_nil_r; reflexivity | reflexivity].
    + eexists rs, [_]. split; [exact Hs | reflexivity].
    + eexists rs, [_; _].
      split; [unfold parar_musica_anuncia, imprime; cbn [saida];
              rewrite Hs, <- app_assoc; reflexivity | reflexivity].
    + eexists rs, [_; _]. split; [exact Hs | reflexivity].
    + eexists rs, [_; _]. split; [exact Hs | reflexivity].
    + eexists rs, [_; _]. split; [exact Hs | reflexivity].
    + eexists rs, [_; _]. split; [exact Hs | reflexivity].
    + match goal with E : procura_eliminado _ _ = _ |- _ =>
        pose proof (procura_eliminado_resto (jogadores_sentados (coord s)) (mem s)) as Hp;
        cbv zeta in Hp; rewrite E in Hp; cbn [snd] in Hp
      end.
      destruct Hp as (_ & _ & _ & Hp).
      eexists rs, [_; _]. split; [rewrite Hp; exact Hs | reflexivity].
    + eexists (rs ++ [(_, _, _, _)]), [].
      split; [unfold exibir_resultado_rodada, imprime; cbn [saida];
              rewrite Hs, flat_map_app; cbn;
              rewrite <- !app_assoc; reflexivity | reflexivity].
    + exists rs, []. split; [exact Hs | reflexivity].
    + exists rs, []. split; [exact Hs | reflexivity].
    + exists rs, []. split; [exact Hs | reflexivity].
    + exists rs, []. split; [exact Hs | reflexivity].
    + exists rs, []. split; [exact Hs | reflexivity].
    + exists rs, []. split; [exact Hs | reflexivity].
    + unfold anuncia_vencedor.
      destruct (jogadores_ativos (mem s)) as [|v l] eqn:Ea.
      * exists rs, []. split; [exact Hs | reflexivity].
      * exists rs, [S_vencedor v]. split.
        { unfold imprime. cbn [saida]. now rewrite Hs, app_nil_r. }
        cbn. specialize (Hr v (or_introl eq_refl)).
        apply andb_true_intro. split; apply Z.leb_le; lia.
    + exists rs, []. split; [exact Hs | reflexivity].
    + eexists rs, [_]. split; [exact Hs | exact Hc].
  - destruct (jogadores s !! i) as [j|]; [|discriminate].
    destruct (joga_passo j (mem s)) as [[j' m']|] eqn:E; [|discriminate].
    inversion H; subst; clear H.
    apply joga_passo_preserva in E as (_ & _ & _ & Hsa & _).
    exists rs, fim. cbn [mem coord]. rewrite Hsa. split; assumption.
  - destruct (jogadores s !! i) as [j|]; [|discriminate].
    destruct (dormindo j); [|discriminate].
    inversion H; subst; clear H.
    exists rs, fim. split; assumption.
Qed.

Lemma executa_saida_conforme (N : Z) (ag : list Evento) :
  forall s s',
    (forall x, In x (jogadores_ativos (mem s)) -> 1 <= x <= N) ->
    saida_conforme N s ->
    executa N ag s = Some s' ->
    saida_conforme N s'.
Proof.
  induction ag as [|e ag IH]; intros s s' Hr Hs H; cbn in H.
  - inversion H; subst. assumption.
  - destruct (passo N e s) as [s1|] eqn:E; [|discriminate].
    apply (IH s1 s'); [|eapply passo_saida_conforme; eassumption|assumption].
    intros x Hx. apply Hr.
    exact (executa_ativos N [e] s s1 ltac:(cbn; now rewrite E) x Hx).
Qed.

(** X4.  Whatever the interleaving, the output is made of whole rounds,
    each the announcement of the round (lines 73-76), the stop of the music
    (line 83) and the result (lines 103-108) in that order, followed by what
    the iteration under way has printed so far.  The winner's line comes
    after the loop only, at most once and last, and names one of the ids
    1..N. *)
Theorem X4_output_shape (N : Z) (ag : list Evento) (s : Estado) :
  executa N ag (estado_inicial N) = Some s ->
  exists rs fim,
    saida (mem s) = flat_map linhas_da_rodada rs ++ fim
    /\ cauda_conforme N (pcc (coord s)) fim = true.
Proof.
  intros H.
  apply (executa_saida_conforme N ag (estado_inicial N) s); [| |exact H].
  - intros x Hx. now apply ids_iniciais_In.
  - exists [], []. split; reflexivity.
Qed.

Lemma X4_output_shape_witness :
  exists rs fim,
    saida (mem (estado_apos agenda_lento)) = flat_map linhas_da_rodada rs ++ fim
    /\ cauda_conforme 4 C_fim fim = true.
Proof.
  exact (X4_output_shape NUM_JOGADORES agenda_lento (estado_apos agenda_lento)
           ltac:(vm_compute; reflexivity)).
Defined.

(** ** The stop of the music is not missed *)

Lemma procura_eliminado_flags (sentados : list Z) (m : Memoria) :
  musica_parada (snd (procura_eliminado sentados m)) = musica_parada m
  /\ jogo_ativo (snd (procura_eliminado sentados m)) = jogo_ativo m.
Proof.
  unfold procura_eliminado.
  destruct (primeiro_em_pe sentados (jogadores_ativos m)); cbn; split; reflexivity.
Qed.

Lemma acorda_acordado (j : Jogador) :
  pc (acorda j) <> J_dorme_parada /\ pc (acorda j) <> J_dorme_retomada.
Proof.
  unfold acorda. destruct (pc j) eqn:E; cbn; rewrite ?E; split; discriminate.
Qed.

Lemma passo_parada_avisada (N : Z) (e : Evento) (s s' : Estado) :
  parada_avisada s -> passo N e s = Some s' -> parada_avisada s'.
Proof.
  unfold parada_avisada. intros IH H. destruct e as [|i|i]; cbn [passo] in H.
  - revert IH. caso_coord s H; intros IH k jk Hk Hpc Hm;
      cbn [mem jogadores coord pcc com_pcc musica_parada] in *;
      try reflexivity; try discriminate;
      try (specialize (IH k jk Hk Hpc Hm); congruence).
    + apply lookup_notify_all in Hk as (j0 & _ & ->).
      now destruct (acorda_acordado j0).
    + match goal with E : procura_eliminado _ _ = _ |- _ =>
        pose proof (procura_eliminado_flags (jogadores_sentados (coord s)) (mem s)) as Hp;
        rewrite E in Hp; cbn [snd] in Hp; destruct Hp as (Hp & _)
      end.
      rewrite Hp in Hm. specialize (IH k jk Hk Hpc Hm). congruence.
    + apply lookup_notify_all in Hk as (j0 & _ & ->).
      now destruct (acorda_acordado j0).
    + unfold anuncia_vencedor in Hm.
      destruct (jogadores_ativos (mem s)); cbn in Hm;
        specialize (IH k jk Hk Hpc Hm); congruence.
  - destruct (jogadores s !! i) as [j|] eqn:Hj; [|discriminate].
    destruct (joga_passo j (mem s)) as [[j' m']|] eqn:E; [|discriminate].
    inversion H; subst; clear H. intros k jk Hk Hpc Hm.
    cbn [mem jogadores coord] in *.
    pose proof (joga_passo_preserva _ _ _ _ E) as (Hmu & _).
    rewrite Hmu in Hm.
    apply lookup_insert_casos in Hk as [(-> & ->)|(Hne & Hk)].
    + exfalso. revert Hpc. caso_joga j (mem s) E; cbn; try discriminate;
        rewrite ?Hm; try discriminate;
        destruct (jogo_ativo (mem s)); discriminate.
    + exact (IH k jk Hk Hpc Hm).
  - destruct (jogadores s !! i) as [j|] eqn:Hj; [|discriminate].
    destruct (dormindo j); [|discriminate].
    inversion H; subst; clear H. intros k jk Hk Hpc Hm.
    cbn [mem jogadores coord] in *.
    apply lookup_insert_casos in Hk as [(-> & ->)|(Hne & Hk)].
    + now destruct (acorda_acordado j).
    + exact (IH k jk Hk Hpc Hm).
Qed.

Lemma executa_parada_avisada (N : Z) (ag : list Evento) :
  forall s s', parada_avisada s -> executa N ag s = Some s' ->
    parada_avisada s'.
Proof.
  induction ag as [|e ag IH]; intros s s' Hs H; cbn in H.
  - inversion H; subst. assumption.
  - destruct (passo N e s) as [s1|] eqn:E; [|discriminate].
    eapply IH; [|eassumption]. eapply passo_parada_avisada; eassumption.
Qed.

(** X5.  The stop of the music is not missed by a waiting thread: the
    flag is stored under [music_mutex] before the [notify_all] of line 90,
    and a thread goes to sleep at line 144 only on finding it clear under
    the same mutex.  So in every state the program reaches, once
    [parar_musica] is past line 90 and until the flag is cleared at line
    180, no thread is asleep in the wait of line 144, and a thread in that
    wait gets through it at its next step, to the test of line 147. *)
Theorem X5_stop_reaches_all (N : Z) (ag : list Evento) (s : Estado)
  (i : nat) (j : Jogador) :
  executa N ag (estado_inicial N) = Some s ->
  jogadores s !! i = Some j ->
  musica_parada (mem s) = true ->
  pcc (coord s) <> C_para_notifica ->
  pc j <> J_dorme_parada
  /\ (esperando_parada j = true ->
      passo N (E_jogador i) s
      = Some (com_jogador i (com_pc J_checa_ativo j) s)).
Proof.
  intros H Hj Hm Hp.
  assert (Hinv : parada_avisada s).
  { eapply executa_parada_avisada; [|exact H].
    intros k jk _ _ Hmk. discriminate Hmk. }
  assert (Hpc : pc j <> J_dorme_parada).
  { intros Hpc. apply Hp. exact (Hinv i j Hj Hpc Hm). }
  split; [exact Hpc|].
  intros He. cbn [passo]. rewrite Hj. unfold joga_passo, esperando_parada in *.
  destruct (pc j); try discriminate; [|congruence].
  rewrite Hm. reflexivity.
Qed.

Lemma X5_stop_reaches_all_witness :
  let s := estado_apos (agenda_espera ++ coordenador 8) in
  passo NUM_JOGADORES (E_jogador 2) s
  = Some (com_jogador 2
            {| jog_id := 3; eliminado := false; pc := J_checa_ativo |} s).
Proof.
  cbv zeta.
  refine (proj2 (X5_stop_reaches_all NUM_JOGADORES
                   (agenda_espera ++ coordenador 8)
                   (estado_apos (agenda_espera ++ coordenador 8)) 2
                   {| jog_id := 3; eliminado := false; pc := J_espera_parada |}
                   _ _ _ _) _).
  - vm_compute. reflexivity.
  - vm_compute. reflexivity.
  - vm_compute. reflexivity.
  - vm_compute. discriminate.
  - reflexivity.
Defined.

(** ** After the final broadcast *)

Lemma passo_inv_final (N : Z) (e : Evento) (s s' : Estado) :
  inv_final s -> passo N e s = Some s' -> inv_final s'.
Proof.
  unfold inv_final, apos_aviso_final.
  intros (Hf & Hm & Hja & Hd) H. destruct e as [|i|i]; cbn [passo] in H.
  - revert Hf. caso_coord s H; try discriminate; intros _;
      cbn [mem jogadores coord pcc com_pcc musica_parada jogo_ativo].
    + unfold anuncia_vencedor.
      destruct (jogadores_ativos (mem s)); cbn;
        (split; [reflexivity|]); (split; [assumption|]);
        (split; assumption).
    + split; [reflexivity|]. split; [assumption|]. split; assumption.
  - destruct (jogadores s !! i) as [j|] eqn:Hj; [|discriminate].
    destruct (joga_passo j (mem s)) as [[j' m']|] eqn:E; [|discriminate].
    inversion H; subst; clear H. cbn [mem jogadores coord].
    pose proof (joga_passo_preserva _ _ _ _ E) as (Hmu & Hjo & _).
    split; [assumption|]. split; [congruence|]. split; [congruence|].
    intros k jk Hk.
    apply lookup_insert_casos in Hk as [(-> & ->)|(Hne & Hk)]; [|eauto].
    caso_joga j (mem s) E; cbn; try discriminate;
      rewrite ?Hm, ?Hja; try discriminate.
  - destruct (jogadores s !! i) as [j|] eqn:Hj; [|discriminate].
    destruct (dormindo j); [|discriminate].
    inversion H; subst; clear H. cbn [mem jogadores coord].
    split; [assumption|]. split; [assumption|]. split; [assumption|].
    intros k jk Hk.
    apply lookup_insert_casos in Hk as [(-> & ->)|(Hne & Hk)]; [|eauto].
    now destruct (acorda_acordado j).
Qed.

Lemma passo_entra_final (N : Z) (e : Evento) (s s' : Estado) :
  musica_conforme s = true -> jogo_conforme s = true ->
  apos_aviso_final s = false ->
  passo N e s = Some s' ->
  apos_aviso_final s' = true ->
  inv_final s'.
Proof.
  unfold inv_final, apos_aviso_final, musica_conforme, jogo_conforme.
  intros Hmc Hjc Hf H. destruct e as [|i|i]; cbn [passo] in H.
  - revert Hmc Hjc Hf. caso_coord s H; intros Hmc Hjc Hf;
      cbn [mem jogadores coord pcc com_pcc musica_parada jogo_ativo];
      try discriminate.
    + destruct (1 <? length (jogadores_ativos (mem s)))%nat; discriminate.
    + intros _. split; [reflexivity|].
      destruct (musica_parada (mem s)); [discriminate|].
      destruct (jogo_ativo (mem s)); [discriminate|].
      split; [reflexivity|]. split; [reflexivity|].
      intros k jk Hk. apply lookup_notify_all in Hk as (j0 & _ & ->).
      now destruct (acorda_acordado j0).
  - destruct (jogadores s !! i) as [j|]; [|discriminate].
    destruct (joga_passo j (mem s)) as [[j' m']|]; [|discriminate].
    inversion H; subst; clear H. cbn [coord]. congruence.
  - destruct (jogadores s !! i) as [j|]; [|discriminate].
    destruct (dormindo j); [|discriminate].
    inversion H; subst; clear H. cbn [coord]. congruence.
Qed.

Lemma executa_entra_final (N : Z) (ag : list Evento) :
  forall s s',
    musica_conforme s = true -> jogo_conforme s = true ->
    (apos_aviso_final s = true -> inv_final s) ->
    executa N ag s = Some s' ->
    apos_aviso_final s' = true -> inv_final s'.
Proof.
  induction ag as [|e ag IH]; intros s s' Hmc Hjc Hs H; cbn in H.
  - inversion H; subst. assumption.
  - destruct (passo N e s) as [s1|] eqn:E; [|discriminate].
    apply (IH s1 s'); [..|assumption].
    + eapply passo_musica_conforme; eassumption.
    + eapply passo_jogo_conforme; eassumption.
    + intros Hf1. destruct (apos_aviso_final s) eqn:Hf.
      * eapply passo_inv_final; [|eassumption]. now apply Hs.
      * eapply passo_entra_final; eassumption.
Qed.

Lemma inv_final_alcancado (N : Z) (ag : list Evento) (s : Estado) :
  executa N ag (estado_inicial N) = Some s ->
  apos_aviso_final s = true -> inv_final s.
Proof.
  intros H. eapply executa_entra_final; [..|exact H].
  - apply musica_conforme_inicial.
  - reflexivity.
  - discriminate.
Qed.

Lemma passo_rumo_ao_fim (N : Z) (e : Evento) (s s' : Estado)
  (i : nat) (j : Jogador) :
  inv_final s ->
  jogadores s !! i = Some j ->
  esperando_parada j = false ->
  passo N e s = Some s' ->
  exists j',
    jogadores s' !! i = Some j'
    /\ esperando_parada j' = false
    /\ (n_jogador i [e] + passos_ate_fim j' <= passos_ate_fim j)%nat.
Proof.
  intros (Hf & Hm & Hja & Hd) Hj He H.
  assert (Hlen : (i < length (jogadores s))%nat)
    by (eapply lookup_lt_Some; eassumption).
  destruct e as [|k|k]; cbn [passo] in H.
  - exists j. unfold apos_aviso_final in Hf. revert Hf.
    caso_coord s H; try discriminate; intros _; cbn [jogadores];
      (split; [assumption|]); (split; [assumption|]); cbn; lia.
  - destruct (jogadores s !! k) as [jk|] eqn:Hk; [|discriminate].
    destruct (joga_passo jk (mem s)) as [[j' m']|] eqn:E; [|discriminate].
    inversion H; subst; clear H. cbn [jogadores].
    destruct (Nat.eq_dec k i) as [->|Hne].
    + rewrite Hj in Hk. inversion Hk; subst jk; clear Hk.
      exists j'. split; [now apply list_lookup_insert_eq|].
      unfold n_jogador. cbn [List.filter]. rewrite Nat.eqb_refl. cbn [length].
      unfold esperando_parada, passos_ate_fim in *.
      caso_joga j (mem s) E; cbn; rewrite ?Hm, ?Hja; cbn;
        try discriminate; split; try reflexivity; lia.
    + exists j. split; [now rewrite list_lookup_insert_ne|].
      split; [assumption|].
      unfold n_jogador. cbn [List.filter].
      apply Nat.eqb_neq in Hne. rewrite Hne. cbn. lia.
  - destruct (jogadores s !! k) as [jk|] eqn:Hk; [|discriminate].
    destruct (dormindo jk) eqn:Hdo; [|discriminate].
    inversion H; subst; clear H. cbn [jogadores].
    destruct (Nat.eq_dec k i) as [->|Hne].
    + rewrite Hj in Hk. inversion Hk; subst jk; clear Hk.
      exfalso. specialize (Hd i j Hj).
      unfold dormindo, esperando_parada in *.
      destruct (pc j); try discriminate. now apply Hd.
    + exists j. split; [now rewrite list_lookup_insert_ne|].
      split; [assumption|]. cbn. lia.
Qed.

Lemma n_jogador_cons (i : nat) (e : Evento) (ag : list Evento) :
  n_jogador i (e :: ag) = (n_jogador i [e] + n_jogador i ag)%nat.
Proof.
  unfold n_jogador. cbn [List.filter].
  destruct e as [|k|k]; try reflexivity.
  destruct (Nat.eqb k i); reflexivity.
Qed.

Lemma executa_rumo_ao_fim (N : Z) (ag : list Evento) :
  forall (s s' : Estado) (i : nat) (j : Jogador),
    inv_final s ->
    jogadores s !! i = Some j ->
    esperando_parada j = false ->
    executa N ag s = Some s' ->
    inv_final s'
    /\ exists j',
         jogadores s' !! i = Some j'
         /\ esperando_parada j' = false
         /\ (n_jogador i ag + passos_ate_fim j' <= passos_ate_fim j)%nat.
Proof.
  induction ag as [|e ag IH]; intros s s' i j Hs Hj He H; cbn in H.
  - inversion H; subst. split; [assumption|]. exists j.
    split; [assumption|]. split; [assumption|]. cbn. lia.
  - destruct (passo N e s) as [s1|] eqn:E; [|discriminate].
    destruct (passo_rumo_ao_fim N e s s1 i j Hs Hj He E)
      as (j1 & Hj1 & He1 & Hn1).
    pose proof (passo_inv_final N e s s1 Hs E) as Hs1.
    destruct (IH s1 s' i j1 Hs1 Hj1 He1 H) as (Hs' & j' & Hj' & He' & Hn').
    split; [assumption|]. exists j'.
    split; [assumption|]. split; [assumption|].
    rewrite n_jogador_cons. lia.
Qed.

Lemma jogador_pode_andar (N : Z) (s : Estado) (i : nat) (j : Jogador) :
  jogadores s !! i = Some j ->
  dormindo j = false -> pc j <> J_fim ->
  passo N (E_jogador i) s <> None.
Proof.
  intros Hj Hd Hf. cbn [passo]. rewrite Hj.
  unfold joga_passo, dormindo in *.
  destruct (pc j); try discriminate; try congruence.
  destruct (try_acquire (cadeira_sem (mem s))) as [[|] c]; discriminate.
Qed.

(** X6.  What of the exit the code does deliver.  In every state the
    program reaches after [jogo_ativo = false] and the broadcast of line
    189, a thread that is not in the wait of line 144 is on its way out
    whatever the scheduler does: it is never asleep on [music_cv] and never
    comes to the wait of line 144 again, it can take a step as long as
    [joga] has not returned, and [joga] returns within five of its steps
    (the claim and its recording, [verificar_eliminacao], the wait of line
    154 passed at once, the loop test). *)
Theorem X6_exit_after_final_broadcast (N : Z) (ag1 ag2 : list Evento)
  (s s' : Estado) (i : nat) (j : Jogador) :
  executa N ag1 (estado_inicial N) = Some s ->
  apos_aviso_final s = true ->
  jogadores s !! i = Some j ->
  esperando_parada j = false ->
  executa N ag2 s = Some s' ->
  (passos_ate_fim j <= 5)%nat
  /\ exists j',
       jogadores s' !! i = Some j'
       /\ dormindo j' = false
       /\ esperando_parada j' = false
       /\ (n_jogador i ag2 + passos_ate_fim j' <= passos_ate_fim j)%nat
       /\ (pc j' <> J_fim -> passo N (E_jogador i) s' <> None)
       /\ ((passos_ate_fim j <= n_jogador i ag2)%nat -> pc j' = J_fim).
Proof.
  intros H Hf Hj He H2.
  pose proof (inv_final_alcancado N ag1 s H Hf) as Hs.
  destruct (executa_rumo_ao_fim N ag2 s s' i j Hs Hj He H2)
    as (Hs' & j' & Hj' & He' & Hn').
  split; [unfold passos_ate_fim; destruct (pc j); lia|].
  exists j'.
  assert (Hd' : dormindo j' = false).
  { destruct Hs' as (_ & _ & _ & Hd). specialize (Hd i j' Hj').
    unfold dormindo, esperando_parada in *.
    destruct (pc j'); try reflexivity; try discriminate. now contradict Hd. }
  split; [assumption|]. split; [assumption|]. split; [assumption|].
  split; [assumption|].
  split.
  - intros Hpc. eapply jogador_pode_andar; eassumption.
  - intros Hn. assert (H0 : passos_ate_fim j' = 0%nat) by lia.
    unfold passos_ate_fim, dormindo, esperando_parada in *.
    destruct (pc j'); try discriminate; reflexivity.
Qed.

Lemma X6_exit_after_final_broadcast_witness :
  exists j',
    jogadores (estado_apos (agenda_fim_do_jogo ++ turno 0 2)) !! 0%nat = Some j'
    /\ pc j' = J_fim.
Proof.
  destruct (X6_exit_after_final_broadcast NUM_JOGADORES agenda_fim_do_jogo
              (turno 0 2) (estado_apos agenda_fim_do_jogo)
              (estado_apos (agenda_fim_do_jogo ++ turno 0 2)) 0
              {| jog_id := 1; eliminado := false; pc := J_espera_retomada |})
    as (_ & j' & Hj' & _ & _ & _ & _ & Hfim).
  - vm_compute. reflexivity.
  - vm_compute. reflexivity.
  - vm_compute. reflexivity.
  - reflexivity.
  - vm_compute. reflexivity.
  - exists j'. split; [exact Hj'|]. apply Hfim. vm_compute. lia.
Defined.

(** ** When [main] returns *)

Lemma forallb_lookup (f : Jogador -> bool) (js : list Jogador) :
  forallb f js = true <-> (forall i j, js !! i = Some j -> f j = true).
Proof.
  induction js as [|a js IH]; cbn [forallb].
  - split; [intros _ i j H; discriminate | reflexivity].
  - rewrite andb_true_iff, IH. split.
    + intros (Ha & Hjs) [|i] j H; cbn in H.
      * now inversion H; subst.
      * eauto.
    + intros H. split.
      * exact (H 0%nat a eq_refl).
      * intros i j Hi. exact (H (S i) j Hi).
Qed.

Lemma executa_preso (N : Z) (ag : list Evento) :
  forall (s s' : Estado) (i : nat) (j : Jogador),
    apos_aviso_final s = true ->
    musica_parada (mem s) = false ->
    jogadores s !! i = Some j ->
    esperando_parada j = true ->
    executa N ag s = Some s' ->
    exists j', jogadores s' !! i = Some j' /\ esperando_parada j' = true.
Proof.
  induction ag as [|e ag IH]; intros s s' i j Hf Hm Hj He H; cbn in H.
  - inversion H; subst. eauto.
  - destruct (passo N e s) as [s1|] eqn:E; [|discriminate].
    destruct (passo_preso N e s s1 i j Hf Hm Hj He E)
      as (Hf1 & Hm1 & j1 & Hj1 & He1).
    eapply IH; eassumption.
Qed.

Lemma passo_jogador_outros (N : Z) (i : nat) (s s' : Estado) :
  passo N (E_jogador i) s = Some s' ->
  coord s' = coord s
  /\ length (jogadores s') = length (jogadores s)
  /\ forall k, k <> i -> jogadores s' !! k = jogadores s !! k.
Proof.
  cbn [passo]. destruct (jogadores s !! i) as [j|]; [|discriminate].
  destruct (joga_passo j (mem s)) as [[j' m']|]; [|discriminate].
  intros H. inversion H; subst; clear H. cbn [coord jogadores].
  split; [reflexivity|]. split; [apply length_insert|].
  intros k Hk. now apply list_lookup_insert_ne.
Qed.

(** A thread that is on its way out, run alone, gets out. *)
Lemma corre_ate_o_fim (N : Z) :
  forall (n : nat) (s : Estado) (i : nat) (j : Jogador),
    (passos_ate_fim j <= n)%nat ->
    inv_final s ->
    jogadores s !! i = Some j ->
    esperando_parada j = false ->
    exists k s' j',
      executa N (turno i k) s = Some s'
      /\ inv_final s'
      /\ coord s' = coord s
      /\ length (jogadores s') = length (jogadores s)
      /\ jogadores s' !! i = Some j' /\ pc j' = J_fim
      /\ forall l, l <> i -> jogadores s' !! l = jogadores s !! l.
Proof.
  induction n as [|n IH]; intros s i j Hn Hs Hj He.
  - exists 0%nat, s, j. cbn.
    assert (Hd : pc j <> J_dorme_retomada)
      by (destruct Hs as (_ & _ & _ & Hd); eauto).
    split; [reflexivity|]. split; [assumption|]. split; [reflexivity|].
    split; [reflexivity|]. split; [assumption|].
    split; [|reflexivity].
    unfold passos_ate_fim, esperando_parada in *.
    destruct (pc j); try discriminate; try lia; [congruence|reflexivity].
  - destruct (pc j) eqn:Hpc;
      try (exists 0%nat, s, j; cbn;
           split; [reflexivity|]; split; [assumption|]; split; [reflexivity|];
           split; [reflexivity|]; split; [assumption|];
           split; [assumption|reflexivity]);
      try (unfold esperando_parada in He; rewrite Hpc in He; discriminate);
      try (destruct Hs as (_ & _ & _ & Hd); now apply Hd in Hj).
    all: assert (Hd : dormindo j = false)
           by (unfold dormindo; now rewrite Hpc).
    all: assert (Hnf : pc j <> J_fim) by (rewrite Hpc; discriminate).
    all: destruct (passo N (E_jogador i) s) as [s1|] eqn:E;
           [|now destruct (jogador_pode_andar N s i j Hj Hd Hnf)].
    all: destruct (passo_rumo_ao_fim N (E_jogador i) s s1 i j Hs Hj He E)
           as (j1 & Hj1 & He1 & Hn1).
    all: pose proof (passo_inv_final N _ s s1 Hs E) as Hs1.
    all: destruct (passo_jogador_outros N i s s1 E) as (Hc1 & Hl1 & Ho1).
    all: assert (Hm1 : (passos_ate_fim j1 <= n)%nat)
           by (unfold n_jogador in Hn1; cbn [List.filter] in Hn1;
               rewrite Nat.eqb_refl in Hn1; cbn [length] in Hn1; lia).
    all: destruct (IH s1 i j1 Hm1 Hs1 Hj1 He1)
           as (k & s' & j' & Hrun & Hs' & Hc' & Hl' & Hj' & Hf' & Ho').
    all: exists (S k), s', j'; cbn [turno repeat executa]; rewrite E;
           split; [exact Hrun|]; split; [assumption|];
           split; [congruence|]; split; [congruence|];
           split; [assumption|]; split; [assumption|];
           intros l Hl; rewrite (Ho' l Hl); now apply Ho1.
Qed.

Lemma todos_saem (N : Z) :
  forall (k : nat) (s : Estado),
    inv_final s ->
    (forall i j, jogadores s !! i = Some j -> esperando_parada j = false) ->
    exists ag s',
      executa N ag s = Some s'
      /\ inv_final s'
      /\ coord s' = coord s
      /\ length (jogadores s') = length (jogadores s)
      /\ (forall i j, jogadores s' !! i = Some j -> esperando_parada j = false)
      /\ (forall i j, (i < k)%nat -> jogadores s' !! i = Some j -> pc j = J_fim).
Proof.
  induction k as [|k IH]; intros s Hs Hall.
  - exists [], s. cbn. split; [reflexivity|]. split; [assumption|].
    split; [reflexivity|]. split; [reflexivity|]. split; [assumption|].
    intros i j Hi. lia.
  - destruct (IH s Hs Hall) as (ag & s1 & Hrun & Hs1 & Hc1 & Hl1 & Hall1 & Hf1).
    destruct (jogadores s1 !! k) as [jk|] eqn:Hk.
    + destruct (corre_ate_o_fim N (passos_ate_fim jk) s1 k jk
                  (Nat.le_refl _) Hs1 Hk (Hall1 k jk Hk))
        as (n & s' & j' & Hrun' & Hs' & Hc' & Hl' & Hj' & Hf' & Ho').
      exists (ag ++ turno k n), s'. rewrite executa_app, Hrun.
      split; [exact Hrun'|]. split; [assumption|]. split; [congruence|].
      split; [congruence|].
      split.
      * intros i j Hi. destruct (Nat.eq_dec i k) as [->|Hne].
        -- rewrite Hj' in Hi. inversion Hi; subst.
           unfold esperando_parada. now rewrite Hf'.
        -- rewrite (Ho' i Hne) in Hi. eauto.
      * intros i j Hi Hj. destruct (Nat.eq_dec i k) as [->|Hne].
        -- rewrite Hj' in Hj. now inversion Hj; subst.
        -- rewrite (Ho' i Hne) in Hj. apply (Hf1 i j); [lia|assumption].
    + exists ag, s1. split; [assumption|]. split; [assumption|].
      split; [assumption|]. split; [assumption|]. split; [assumption|].
      intros i j Hi Hj. destruct (Nat.eq_dec i k) as [->|Hne].
      * congruence.
      * apply (Hf1 i j); [lia|assumption].
Qed.

Lemma coordenador_sai (N : Z) (s : Estado) :
  apos_aviso_final s = true ->
  exists n s',
    executa N (coordenador n) s = Some s'
    /\ pcc (coord s') = C_fim
    /\ jogadores s' = jogadores s.
Proof.
  unfold apos_aviso_final. intros Hf.
  destruct (pcc (coord s)) eqn:Hp; try discriminate.
  - exists 2%nat. cbn [coordenador repeat executa passo].
    unfold iniciar_jogo_passo at 1. rewrite Hp. cbv beta iota zeta.
    unfold iniciar_jogo_passo. cbn [coord pcc com_pcc mem jogadores].
    eexists. split; [reflexivity|]. split; reflexivity.
  - exists 1%nat. cbn [coordenador repeat executa passo].
    unfold iniciar_jogo_passo. rewrite Hp. cbv beta iota zeta.
    eexists. split; [reflexivity|]. split; reflexivity.
  - exists 0%nat, s. cbn. split; [reflexivity|]. split; [assumption|reflexivity].
Qed.

(** X7.  [main] returns when its joins do (lines 248-256).  Take any state
    the program reaches after the broadcast of line 189.  Some continuation
    brings every thread to its end, so that [main] returns, exactly when no
    player thread is then in the wait of line 144; if one is, [main] never
    returns, whatever the scheduler does. *)
Theorem X7_main_returns (N : Z) (ag : list Evento) (s : Estado) :
  executa N ag (estado_inicial N) = Some s ->
  apos_aviso_final s = true ->
  (exists ag' s', executa N ag' s = Some s' /\ main_retorna s' = true)
  <-> forallb (fun j => negb (esperando_parada j)) (jogadores s) = true.
Proof.
  intros H Hf. pose proof (inv_final_alcancado N ag s H Hf) as Hs.
  rewrite forallb_lookup. split.
  - intros (ag' & s' & Hrun & Hmain) i j Hj.
    destruct (esperando_parada j) eqn:He; [|reflexivity]. exfalso.
    destruct Hs as (_ & Hm & _).
    destruct (executa_preso N ag' s s' i j Hf Hm Hj He Hrun) as (j' & Hj' & He').
    unfold main_retorna in Hmain. apply andb_true_iff in Hmain as (Hall & _).
    pose proof (proj1 (forallb_lookup saiu _) Hall i j' Hj') as Hsaiu.
    unfold saiu, esperando_parada in *. destruct (pc j'); discriminate.
  - intros Hall.
    assert (Hall' : forall i j, jogadores s !! i = Some j ->
                                esperando_parada j = false).
    { intros i j Hj. specialize (Hall i j Hj).
      now destruct (esperando_parada j). }
    destruct (todos_saem N (length (jogadores s)) s Hs Hall')
      as (ag1 & s1 & Hrun1 & Hs1 & Hc1 & Hl1 & _ & Hfim1).
    destruct Hs1 as (Hf1 & _).
    destruct (coordenador_sai N s1 Hf1) as (n & s2 & Hrun2 & Hp2 & Hj2).
    exists (ag1 ++ coordenador n), s2. rewrite executa_app, Hrun1.
    split; [exact Hrun2|].
    unfold main_retorna. rewrite Hp2, andb_true_r, Hj2.
    apply forallb_lookup. intros i j Hj.
    assert (Hi : (i < length (jogadores s))%nat).
    { rewrite <- Hl1. eapply lookup_lt_Some; eassumption. }
    unfold saiu. now rewrite (Hfim1 i j Hi Hj).
Qed.

Lemma X7_main_returns_witness :
  (exists ag' s',
      executa NUM_JOGADORES ag' (estado_apos agenda_fim_do_jogo) = Some s'
      /\ main_retorna s' = true)
  /\ ~ (exists ag' s',
          executa NUM_JOGADORES ag' (estado_apos agenda_espurio) = Some s'
          /\ main_retorna s' = true).
Proof.
  split.
  - apply (X7_main_returns NUM_JOGADORES agenda_fim_do_jogo
             (estado_apos agenda_fim_do_jogo)).
    + vm_compute. reflexivity.
    + vm_compute. reflexivity.
    + vm_compute. reflexivity.
  - intros Hex.
    apply (X7_main_returns NUM_JOGADORES agenda_espurio
             (estado_apos agenda_espurio)) in Hex.
    + vm_compute in Hex. discriminate Hex.
    + vm_compute. reflexivity.
    + vm_compute. reflexivity.
Defined.

(** ** The flag [eliminado] *)

Lemma passo_flags_resolvidos (N : Z) (e : Evento) (s s' : Estado) :
  flags_resolvidos s -> passo N e s = Some s' -> flags_resolvidos s'.
Proof.
  unfold flags_resolvidos. intros IH H k jk Hk Hel Hpc Hin.
  assert (Hsub : In (jog_id jk) (jogadores_ativos (mem s))).
  { exact (executa_ativos N [e] s s' ltac:(cbn; now rewrite H) _ Hin). }
  destruct e as [|i|i]; cbn [passo] in H.
  - assert (Hjs : jogadores s' = jogadores s
                  \/ jogadores s' = notify_all (jogadores s)).
    { caso_coord s H; cbn [jogadores]; auto. }
    destruct Hjs as [Hjs|Hjs]; rewrite Hjs in Hk.
    + exact (IH k jk Hk Hel Hpc Hsub).
    + apply lookup_notify_all in Hk as (j0 & Hk & ->).
      destruct (acorda_preserva j0) as (Hid & Hfl & _).
      rewrite Hid in Hsub. rewrite Hfl in Hel.
      apply (IH k j0 Hk Hel); [|assumption].
      intros Hv. apply Hpc. unfold acorda. now rewrite Hv.
  - destruct (jogadores s !! i) as [j|] eqn:Hj; [|discriminate].
    destruct (joga_passo j (mem s)) as [[j' m']|] eqn:E; [|discriminate].
    inversion H; subst; clear H. cbn [mem jogadores] in *.
    apply lookup_insert_casos in Hk as [(-> & ->)|(Hne & Hk)];
      [|exact (IH k jk Hk Hel Hpc Hsub)].
    revert Hel Hpc Hin Hsub. caso_joga j (mem s) E;
      cbn [pc eliminado com_pc com_eliminado jog_id];
      intros Hel Hpc Hin Hsub;
      try congruence;
      try (apply (IH i j Hj Hel);
           [match goal with Hp : pc j = _ |- _ => rewrite Hp; discriminate end
           | exact Hsub]).
    unfold verificar_eliminacao in Hin. rewrite Hel in Hin.
    unfold eliminar_jogador in Hin. cbn [jogadores_ativos com_ativos] in Hin.
    apply remove_id_In in Hin as (_ & Hne). now apply Hne.
  - destruct (jogadores s !! i) as [j|] eqn:Hj; [|discriminate].
    destruct (dormindo j); [|discriminate].
    inversion H; subst; clear H. cbn [mem jogadores] in *.
    apply lookup_insert_casos in Hk as [(-> & ->)|(Hne & Hk)];
      [|exact (IH k jk Hk Hel Hpc Hsub)].
    destruct (acorda_preserva j) as (Hid & Hfl & _).
    rewrite Hid in Hsub. rewrite Hfl in Hel.
    apply (IH i j Hj Hel); [|assumption].
    intros Hv. apply Hpc. unfold acorda. now rewrite Hv.
Qed.

Lemma lookup_notify_all_Some (js : list Jogador) :
  forall i j, js !! i = Some j -> notify_all js !! i = Some (acorda j).
Proof.
  induction js as [|a js IH]; intros [|i] j H; try discriminate; cbn in *.
  - now inversion H.
  - now apply IH.
Qed.

Lemma passo_flag_fica (N : Z) (e : Evento) (s s' : Estado)
  (i : nat) (j : Jogador) :
  jogadores s !! i = Some j -> eliminado j = true ->
  passo N e s = Some s' ->
  exists j', jogadores s' !! i = Some j' /\ eliminado j' = true.
Proof.
  intros Hj Hel H.
  assert (Hlen : (i < length (jogadores s))%nat)
    by (eapply lookup_lt_Some; eassumption).
  destruct e as [|k|k]; cbn [passo] in H.
  - assert (Hjs : jogadores s' = jogadores s
                  \/ jogadores s' = notify_all (jogadores s)).
    { caso_coord s H; cbn [jogadores]; auto. }
    destruct Hjs as [->| ->]; [eauto|].
    exists (acorda j). split.
    + now apply lookup_notify_all_Some.
    + destruct (acorda_preserva j) as (_ & -> & _). assumption.
  - destruct (jogadores s !! k) as [jk|] eqn:Hk; [|discriminate].
    destruct (joga_passo jk (mem s)) as [[j' m']|] eqn:E; [|discriminate].
    inversion H; subst; clear H. cbn [jogadores].
    destruct (Nat.eq_dec k i) as [->|Hne].
    + rewrite Hj in Hk. inversion Hk; subst jk; clear Hk.
      exists j'. split; [now apply list_lookup_insert_eq|].
      revert Hel. caso_joga j (mem s) E; cbn; auto.
    + exists j. split; [now rewrite list_lookup_insert_ne|assumption].
  - destruct (jogadores s !! k) as [jk|] eqn:Hk; [|discriminate].
    destruct (dormindo jk); [|discriminate].
    inversion H; subst; clear H. cbn [jogadores].
    destruct (Nat.eq_dec k i) as [->|Hne].
    + rewrite Hj in Hk. inversion Hk; subst jk; clear Hk.
      exists (acorda j). split; [now apply list_lookup_insert_eq|].
      destruct (acorda_preserva j) as (_ & -> & _). assumption.
    + exists j. split; [now rewrite list_lookup_insert_ne|assumption].
Qed.

Lemma executa_flags_resolvidos (N : Z) (ag : list Evento) :
  forall s s', flags_resolvidos s -> executa N ag s = Some s' ->
    flags_resolvidos s'.
Proof.
  induction ag as [|e ag IH]; intros s s' Hs H; cbn in H.
  - inversion H; subst. assumption.
  - destruct (passo N e s) as [s1|] eqn:E; [|discriminate].
    eapply IH; [|eassumption]. eapply passo_flags_resolvidos; eassumption.
Qed.

Lemma executa_flag_fica (N : Z) (ag : list Evento) :
  forall (s s' : Estado) (i : nat) (j : Jogador),
    jogadores s !! i = Some j -> eliminado j = true ->
    executa N ag s = Some s' ->
    exists j', jogadores s' !! i = Some j' /\ eliminado j' = true.
Proof.
  induction ag as [|e ag IH]; intros s s' i j Hj Hel H; cbn in H.
  - inversion H; subst. eauto.
  - destruct (passo N e s) as [s1|] eqn:E; [|discriminate].
    destruct (passo_flag_fica N e s s1 i j Hj Hel E) as (j1 & Hj1 & Hel1).
    eapply IH; eassumption.
Qed.

(** X8.  The flag [eliminado] is written at line 130 only and never
    cleared.  In every execution, once a thread's claim failed its flag
    stays set, and from the end of its [verificar_eliminacao] on the id of
    its participant is out of the Active Set for good: whatever the thread
    does in later rounds (it goes on claiming whenever its waits return),
    it never plays as an active participant again. *)
Theorem X8_flag_means_out (N : Z) (ag1 ag2 : list Evento) (s s' : Estado)
  (i : nat) (j : Jogador) :
  executa N ag1 (estado_inicial N) = Some s ->
  jogadores s !! i = Some j ->
  eliminado j = true ->
  executa N ag2 s = Some s' ->
  exists j',
    jogadores s' !! i = Some j'
    /\ jog_id j' = jog_id j
    /\ eliminado j' = true
    /\ (pc j' <> J_verifica -> ~ In (jog_id j) (jogadores_ativos (mem s'))).
Proof.
  intros H Hj Hel H2.
  destruct (executa_flag_fica N ag2 s s' i j Hj Hel H2) as (j' & Hj' & Hel').
  assert (Hid : jog_id j' = jog_id j).
  { pose proof (executa_ids N ag2 s s' H2) as Hids.
    pose proof (lookup_map_id _ _ _ Hj) as H1.
    pose proof (lookup_map_id _ _ _ Hj') as H1'.
    rewrite Hids in H1'. congruence. }
  exists j'. split; [assumption|]. split; [assumption|].
  split; [assumption|].
  intros Hpc. rewrite <- Hid.
  assert (Hinv : flags_resolvidos s').
  { eapply executa_flags_resolvidos; [|exact H2].
    eapply executa_flags_resolvidos; [|exact H].
    intros k jk Hk Hek. apply lookup_jogadores_iniciais in Hk as (_ & Hk).
    congruence. }
  exact (Hinv i j' Hj' Hel' Hpc).
Qed.

Lemma X8_flag_means_out_witness :
  exists j',
    jogadores (estado_apos agenda_volta) !! 3%nat = Some j'
    /\ jog_id j' = 4
    /\ eliminado j' = true
    /\ (pc j' <> J_verifica
        -> ~ In 4 (jogadores_ativos (mem (estado_apos agenda_volta)))).
Proof.
  apply (X8_flag_means_out NUM_JOGADORES agenda_sem_cadeira
           (turno 3 2 ++ turno 0 1 ++ turno 1 1 ++ turno 2 1 ++ coordenador 8
            ++ coordenador 4
            ++ [E_espurio 0] ++ turno 0 3 ++ [E_espurio 1] ++ turno 1 3
            ++ [E_espurio 2] ++ turno 2 3 ++ [E_espurio 3] ++ turno 3 3
            ++ coordenador 4
            ++ turno 3 6 ++ turno 0 6 ++ turno 1 5 ++ turno 2 5
            ++ coordenador 8
            ++ coordenador 5
            ++ turno 0 2 ++ turno 1 2 ++ turno 2 2 ++ turno 3 2)
           (estado_apos agenda_sem_cadeira) (estado_apos agenda_volta) 3
           {| jog_id := 4; eliminado := true; pc := J_verifica |}).
  - vm_compute. reflexivity.
  - vm_compute. reflexivity.
  - reflexivity.
  - vm_compute. reflexivity.
Defined.

(** ** What the player threads do to the globals *)

Lemma efeito_de_jogadores_refl (s : Estado) : efeito_de_jogadores s s.
Proof.
  unfold efeito_de_jogadores. do 7 (split; [reflexivity|]).
  split; [lia|]. split; [reflexivity|].
  exists []. split; [now rewrite app_nil_r|]. intros p [].
Qed.

Lemma efeito_de_jogadores_trans (s1 s2 s3 : Estado) :
  efeito_de_jogadores s1 s2 -> efeito_de_jogadores s2 s3 ->
  efeito_de_jogadores s1 s3.
Proof.
  unfold efeito_de_jogadores.
  intros (A1 & A2 & A3 & A4 & A5 & A6 & A7 & A8 & A9 & n1 & A10 & A11)
         (B1 & B2 & B3 & B4 & B5 & B6 & B7 & B8 & B9 & n2 & B10 & B11).
  split; [congruence|]. split; [congruence|]. split; [congruence|].
  split; [congruence|]. split; [congruence|]. split; [congruence|].
  split; [congruence|]. split; [lia|].
  split; [etransitivity; eassumption|].
  exists (n1 ++ n2). split.
  - rewrite B10, A10. now rewrite app_assoc.
  - intros p Hp. apply in_app_or in Hp as [Hp|Hp]; [auto|].
    rewrite <- A6. auto.
Qed.

Lemma passo_efeito_de_jogadores (N : Z) (e : Evento) (s s' : Estado) :
  e <> E_coord -> passo N e s = Some s' -> efeito_de_jogadores s s'.
Proof.
  intros He H.
  pose proof (passo_ids N e s s' H) as Hids.
  pose proof (passo_sublist N e s s' H) as Hsub.
  unfold efeito_de_jogadores, permissoes.
  destruct e as [|i|i]; [congruence| |]; cbn [passo] in H.
  - destruct (jogadores s !! i) as [j|] eqn:Ej; [|discriminate].
    destruct (joga_passo j (mem s)) as [[j' m']|] eqn:E; [|discriminate].
    inversion H; subst; clear H. cbn [mem jogadores coord] in *.
    pose proof (joga_passo_preserva _ _ _ _ E) as (P1 & P2 & P3 & P4 & _).
    pose proof (n_sentando_insert (jogadores s) i j j' Ej) as Hn.
    unfold sentando in Hn.
    split; [reflexivity|]. split; [assumption|]. split; [assumption|].
    split; [assumption|]. split; [assumption|]. split; [assumption|].
    assert (Hresto :
      cadeira_sem m' + Z.of_nat (length (cadeiras_ocupadas m'))
      + Z.of_nat (n_sentando (<[i:=j']> (jogadores s)))
      = cadeira_sem (mem s) + Z.of_nat (length (cadeiras_ocupadas (mem s)))
        + Z.of_nat (n_sentando (jogadores s))
      /\ cadeira_sem m' <= cadeira_sem (mem s)
      /\ (cadeiras_ocupadas m' = cadeiras_ocupadas (mem s)
          \/ cadeiras_ocupadas m'
             = cadeiras_ocupadas (mem s) ++ [(jog_id j, jog_id j)])).
    { clear Hids Hsub P1 P2 P3 P4.
      caso_joga j (mem s) E;
        destruct (jogo_ativo (mem s)); destruct (musica_parada (mem s));
        cbn in *;
        try match goal with
            | H : try_acquire _ = _ |- _ =>
                unfold try_acquire in H;
                destruct (Z.ltb_spec 0 (cadeira_sem (mem s)));
                inversion H; subst; clear H
            end;
        rewrite ?length_app; cbn;
        try (unfold verificar_eliminacao; destruct (eliminado j); cbn);
        repeat split; auto; try lia. }
    destruct Hresto as (R1 & R2 & R3).
    split; [exact R1|]. split; [exact R2|]. split; [exact Hsub|].
    destruct R3 as [R3|R3]; rewrite R3.
    + exists []. split; [now rewrite app_nil_r|]. intros p [].
    + exists [(jog_id j, jog_id j)]. split; [reflexivity|].
      intros p [<-|[]]. split; [reflexivity|]. cbn [fst].
      apply in_map_iff. exists j. split; [reflexivity|].
      apply list_elem_of_In. eapply list_elem_of_lookup_2. eassumption.
  - destruct (jogadores s !! i) as [j|] eqn:Ej; [|discriminate].
    destruct (dormindo j); [|discriminate].
    inversion H; subst; clear H. cbn [mem jogadores coord] in *.
    rewrite (n_sentando_acorda _ _ _ Ej).
    do 5 (split; [reflexivity|]). split; [assumption|].
    split; [reflexivity|]. split; [lia|]. split; [reflexivity|].
    exists []. split; [now rewrite app_nil_r|]. intros p [].
Qed.

Lemma n_coord_cons (e : Evento) (ag : list Evento) :
  n_coord (e :: ag) = 0%nat -> e <> E_coord /\ n_coord ag = 0%nat.
Proof.
  unfold n_coord. cbn [List.filter].
  destruct e; cbn [length]; intros H; try discriminate;
    (split; [discriminate | assumption]).
Qed.

(** X9.  What the player threads never do.  Along any schedule in which
    the coordinator does not run (player steps and wake-ups only), from any
    state: the coordinator's place, both flags, the chair count and the
    output are untouched (a player prints nothing and writes neither
    [musica_parada] nor [jogo_ativo]); the Seated Set is only appended to,
    with entries [(id, id)] of player threads; the gate never gains a unit,
    and every unit taken is either recorded as a seat or held by a thread
    that is about to record it; the Active Set only loses ids. *)
Theorem X9_players_only (N : Z) (ag : list Evento) (s s' : Estado) :
  n_coord ag = 0%nat ->
  executa N ag s = Some s' ->
  coord s' = coord s
  /\ musica_parada (mem s') = musica_parada (mem s)
  /\ jogo_ativo (mem s') = jogo_ativo (mem s)
  /\ cadeiras (mem s') = cadeiras (mem s)
  /\ saida (mem s') = saida (mem s)
  /\ List.map jog_id (jogadores s') = List.map jog_id (jogadores s)
  /\ permissoes s' = permissoes s
  /\ cadeira_sem (mem s') <= cadeira_sem (mem s)
  /\ jogadores_ativos (mem s') `sublist_of` jogadores_ativos (mem s)
  /\ exists novos,
       cadeiras_ocupadas (mem s') = cadeiras_ocupadas (mem s) ++ novos
       /\ forall p, In p novos ->
            snd p = fst p /\ In (fst p) (List.map jog_id (jogadores s)).
Proof.
  change (n_coord ag = 0%nat -> executa N ag s = Some s' ->
          efeito_de_jogadores s s').
  revert s. induction ag as [|e ag IH]; intros s Hn H; cbn in H.
  - inversion H; subst. apply efeito_de_jogadores_refl.
  - apply n_coord_cons in Hn as (He & Hn).
    destruct (passo N e s) as [s1|] eqn:E; [|discriminate].
    eapply efeito_de_jogadores_trans.
    + eapply passo_efeito_de_jogadores; eassumption.
    + now apply IH.
Qed.

Lemma X9_players_only_witness :
  let s := estado_apos (agenda_espera ++ coordenador 8) in
  let s' := estado_apos (agenda_espera ++ coordenador 8
                         ++ turno 0 5 ++ turno 1 3 ++ turno 3 2) in
  saida (mem s') = saida (mem s)
  /\ permissoes s' = permissoes s
  /\ cadeiras_ocupadas (mem s') = [(1, 1)]
  /\ cadeira_sem (mem s') = 1.
Proof.
  cbv zeta.
  destruct (X9_players_only NUM_JOGADORES
              (turno 0 5 ++ turno 1 3 ++ turno 3 2)
              (estado_apos (agenda_espera ++ coordenador 8))
              (estado_apos (agenda_espera ++ coordenador 8
                            ++ turno 0 5 ++ turno 1 3 ++ turno 3 2)))
    as (_ & _ & _ & _ & H5 & _ & H7 & _).
  - vm_compute. reflexivity.
  - vm_compute. reflexivity.
  - split; [exact H5|]. split; [exact H7|].
    split; vm_compute; reflexivity.
Defined.

(** ** The winner, when the sleeps time the game *)

Lemma passo_vencedor_anunciado (N : Z) (e : Evento) (s s' : Estado) :
  inv N s ->
  vencedor_anunciado s ->
  passo N e s = Some s' ->
  vencedor_anunciado s'.
Proof.
  intros (_ & _ & _ & _ & _ & Hfase) Hv H.
  unfold vencedor_anunciado in *.
  destruct e as [|i|i]; cbn [passo] in H.
  - revert Hv Hfase. caso_coord s H; intros Hv Hfase;
      cbn [mem coord pcc com_pcc]; try exact I; try exact Hv.
    + now destruct (1 <? length (jogadores_ativos (mem s)))%nat.
    + unfold inv_fora_da_janela in Hfase.
      match goal with Hp : pcc (coord s) = C_vencedor |- _ =>
        rewrite Hp in Hfase
      end.
      destruct Hfase as (_ & _ & Ha).
      unfold anuncia_vencedor.
      destruct (jogadores_ativos (mem s)) as [|v [|w l]] eqn:Ea;
        cbn [length] in Ha; try lia.
      exists v, (saida (mem s)). cbn. now rewrite Ea.
  - destruct (jogadores s !! i) as [j|] eqn:Hj; [|discriminate].
    destruct (joga_passo j (mem s)) as [[j' m']|] eqn:E; [|discriminate].
    inversion H; subst; clear H. cbn [mem coord].
    pose proof (joga_passo_preserva _ _ _ _ E) as (_ & _ & _ & Hsa & _).
    assert (Hat : pcc (coord s) <> C_dorme_sentar ->
                  jogadores_ativos m' = jogadores_ativos (mem s)).
    { intros Hp.
      destruct (joga_passo_ativos _ _ _ _ E) as [Hat|(Hpc & _)]; [exact Hat|].
      exfalso. destruct (pcc (coord s)) eqn:Hpcc; try congruence;
        destruct Hfase as (Hq & _); specialize (Hq i j Hj);
        unfold quieto in Hq; rewrite Hpc in Hq; discriminate. }
    destruct (pcc (coord s)); try exact I;
      rewrite Hsa, Hat by discriminate; exact Hv.
  - destruct (jogadores s !! i) as [j|]; [|discriminate].
    destruct (dormindo j); [|discriminate].
    inversion H; subst; clear H. exact Hv.
Qed.

Lemma executa_vencedor_anunciado (N : Z) (ag : list Evento) :
  forall s s',
    inv N s ->
    vencedor_anunciado s ->
    pontual N ag s = true ->
    executa N ag s = Some s' ->
    inv N s' /\ vencedor_anunciado s'.
Proof.
  induction ag as [|e ag IH]; intros s s' Hi Hv Hp H; cbn in H, Hp.
  - inversion H; subst. split; assumption.
  - apply andb_prop in Hp as (Hperm & Hp).
    destruct (passo N e s) as [s1|] eqn:E; [|discriminate].
    apply (IH s1 s'); [| |assumption|assumption].
    + now destruct (passo_inv N e s s1 Hi Hperm E).
    + eapply passo_vencedor_anunciado; eassumption.
Qed.

(** X10.  When the execution keeps to the timing of the sleeps, the game
    ends as lines 191-197 mean it to: once [iniciar_jogo] returned, the
    Active Set holds exactly one id, the last line of the output is the
    winner's line and names that id, the id is one of 1..N, and the flag
    [eliminado] of its thread is clear (the winner never failed a
    claim). *)
Theorem X10_winner_is_the_one_left (N : Z) (ag : list Evento) (s : Estado) :
  2 <= N < 2 ^ 31 ->
  executa N ag (estado_inicial N) = Some s ->
  pontual N ag (estado_inicial N) = true ->
  pcc (coord s) = C_fim ->
  exists v antes,
    jogadores_ativos (mem s) = [v]
    /\ saida (mem s) = antes ++ [S_vencedor v]
    /\ 1 <= v <= N
    /\ (forall i j, jogadores s !! i = Some j -> jog_id j = v ->
                    eliminado j = false).
Proof.
  intros HN H Hp Hfim.
  destruct (executa_vencedor_anunciado N ag (estado_inicial N) s
              (inv_inicial N HN) I Hp H) as (Hi & Hv).
  unfold vencedor_anunciado in Hv. rewrite Hfim in Hv.
  destruct Hv as (v & antes & Ha & Hs).
  exists v, antes. split; [assumption|]. split; [assumption|].
  split.
  - apply (ativos_intervalo N ag s v H). rewrite Ha. now left.
  - intros i j Hj Hid.
    destruct Hi as (_ & _ & _ & _ & _ & Hfase). rewrite Hfim in Hfase.
    destruct Hfase as (_ & Hfl & _).
    destruct (eliminado j) eqn:He; [|reflexivity]. exfalso.
    destruct (Hfl i j Hj He ltac:(discriminate)) as (Hout & _).
    apply Hout. rewrite Hid, Ha. now left.
Qed.

Lemma X10_winner_is_the_one_left_witness :
  exists v antes,
    jogadores_ativos (mem (estado_apos agenda_pontual)) = [v]
    /\ saida (mem (estado_apos agenda_pontual)) = antes ++ [S_vencedor v]
    /\ 1 <= v <= 4
    /\ (forall i j, jogadores (estado_apos agenda_pontual) !! i = Some j ->
                    jog_id j = v -> eliminado j = false).
Proof.
  apply (X10_winner_is_the_one_left NUM_JOGADORES agenda_pontual
           (estado_apos agenda_pontual)).
  - vm_compute. split; [discriminate | reflexivity].
  - vm_compute. reflexivity.
  - vm_compute. reflexivity.
  - vm_compute. reflexivity.
Defined.

(** ** What the coordinator does to the player threads *)

Lemma acorda_acorda (j : Jogador) : acorda (acorda j) = acorda j.
Proof. unfold acorda. destruct (pc j) eqn:E; cbn; rewrite ?E; reflexivity. Qed.

Lemma iniciar_jogo_passo_jogadores (N : Z) (s s' : Estado) :
  iniciar_jogo_passo N s = Some s' ->
  (jogadores s' = jogadores s \/ jogadores s' = notify_all (jogadores s))
  /\ (cadeiras_ocupadas (mem s') = cadeiras_ocupadas (mem s)
      \/ cadeiras_ocupadas (mem s') = []).
Proof.
  intros H. caso_coord s H; cbn [jogadores mem]; split; auto.
  - match goal with E : procura_eliminado _ _ = _ |- _ =>
      pose proof (procura_eliminado_resto (jogadores_sentados (coord s)) (mem s)) as Hp;
      cbv zeta in Hp; rewrite E in Hp; cbn [snd] in Hp
    end.
    destruct Hp as (_ & Hp & _). now left.
  - left. unfold anuncia_vencedor. now destruct (jogadores_ativos (mem s)).
Qed.

(** X11.  What the coordinator never does.  Along any schedule in which
    only the coordinator runs, from any state: it acts on a player thread
    only by waking it ([notify_all], lines 90 and 189); it never writes a
    player's flag [eliminado], so the thread of a participant it removes at
    line 215 is not told; it never adds a seat, the Seated Set is left as it
    was or emptied (line 68); and the Active Set only loses ids. *)
Theorem X11_coordinator_only (N : Z) (ag : list Evento) (s s' : Estado) :
  so_coordenador ag = true ->
  executa N ag s = Some s' ->
  length (jogadores s') = length (jogadores s)
  /\ (forall i j, jogadores s !! i = Some j ->
        jogadores s' !! i = Some j \/ jogadores s' !! i = Some (acorda j))
  /\ List.map eliminado (jogadores s') = List.map eliminado (jogadores s)
  /\ List.map jog_id (jogadores s') = List.map jog_id (jogadores s)
  /\ (cadeiras_ocupadas (mem s') = cadeiras_ocupadas (mem s)
      \/ cadeiras_ocupadas (mem s') = [])
  /\ jogadores_ativos (mem s') `sublist_of` jogadores_ativos (mem s).
Proof.
  intros Hag H.
  split; [|split; [|split; [|split; [exact (executa_ids N ag s s' H)|split;
    [|exact (executa_sublist N ag s s' H)]]]]].
  - rewrite <- !(length_map jog_id). now rewrite (executa_ids N ag s s' H).
  - revert s Hag H. induction ag as [|e ag IH]; intros s Hag H i j Hj; cbn in H.
    + inversion H; subst. now left.
    + cbn [so_coordenador forallb] in Hag. apply andb_prop in Hag as (He & Hag).
      destruct e; try discriminate. cbn [passo] in H.
      destruct (iniciar_jogo_passo N s) as [s1|] eqn:E; [|discriminate].
      destruct (iniciar_jogo_passo_jogadores N s s1 E) as ([Hjs|Hjs] & _).
      * apply (IH s1 Hag H). now rewrite Hjs.
      * assert (Hj1 : jogadores s1 !! i = Some (acorda j)).
        { rewrite Hjs. now apply lookup_notify_all_Some. }
        destruct (IH s1 Hag H i (acorda j) Hj1) as [Hr|Hr];
          right; [exact Hr|]. now rewrite acorda_acorda in Hr.
  - revert s Hag H. induction ag as [|e ag IH]; intros s Hag H; cbn in H.
    + inversion H; subst. reflexivity.
    + cbn [so_coordenador forallb] in Hag. apply andb_prop in Hag as (He & Hag).
      destruct e; try discriminate. cbn [passo] in H.
      destruct (iniciar_jogo_passo N s) as [s1|] eqn:E; [|discriminate].
      rewrite (IH s1 Hag H).
      destruct (iniciar_jogo_passo_jogadores N s s1 E) as ([Hjs|Hjs] & _);
        rewrite Hjs; [reflexivity|].
      unfold notify_all. rewrite map_map. apply map_ext.
      intros a. apply acorda_preserva.
  - revert s Hag H. induction ag as [|e ag IH]; intros s Hag H; cbn in H.
    + inversion H; subst. now left.
    + cbn [so_coordenador forallb] in Hag. apply andb_prop in Hag as (He & Hag).
      destruct e; try discriminate. cbn [passo] in H.
      destruct (iniciar_jogo_passo N s) as [s1|] eqn:E; [|discriminate].
      destruct (IH s1 Hag H) as [Hr|Hr]; [|now right].
      destruct (iniciar_jogo_passo_jogadores N s s1 E) as (_ & [Ho|Ho]);
        rewrite Hr, Ho; auto.
Qed.

Lemma X11_coordinator_only_witness :
  let s := estado_apos (agenda_espera ++ coordenador 8
                        ++ turno 0 5 ++ turno 1 5) in
  let s' := estado_apos (agenda_espera ++ coordenador 8
                         ++ turno 0 5 ++ turno 1 5 ++ coordenador 3) in
  List.map eliminado (jogadores s') = [false; false; false; false]
  /\ jogadores_ativos (mem s) = [1; 2; 3; 4]
  /\ jogadores_ativos (mem s') = [1; 2; 4].
Proof.
  cbv zeta.
  destruct (X11_coordinator_only NUM_JOGADORES (coordenador 3)
              (estado_apos (agenda_espera ++ coordenador 8
                            ++ turno 0 5 ++ turno 1 5))
              (estado_apos (agenda_espera ++ coordenador 8
                            ++ turno 0 5 ++ turno 1 5 ++ coordenador 3)))
    as (_ & _ & H3 & _).
  - reflexivity.
  - vm_compute. reflexivity.
  - split; [rewrite H3|split]; vm_compute; reflexivity.
Defined.

(** ** The waits on [music_cv] *)


Lemma com_jogador_mesmo (s : Estado) (i : nat) (j : Jogador) :
  jogadores s !! i = Some j -> com_jogador i j s = s.
Proof.
  intros Hj. unfold com_jogador. rewrite (list_insert_id _ _ _ Hj).
  now destruct s.
Qed.



(** ** The seats of a round, when the sleeps time the game *)

(** X13.  When the execution keeps to the timing of the sleeps, then at
    every moment of the coordinator's sleep of line 175: no participant is
    seated twice; only participants of the Active Set are seated; the thread
    of a seated participant has its flag [eliminado] clear and is past its
    claim, in [verificar_eliminacao] or in the wait of line 154; and the
    units left in the gate, the seats recorded and the units held by
    threads about to record a seat add up to the number of chairs of the
    round. *)
Theorem X13_seats_of_a_timely_round (N : Z) (ag : list Evento) (s : Estado) :
  2 <= N < 2 ^ 31 ->
  executa N ag (estado_inicial N) = Some s ->
  pontual N ag (estado_inicial N) = true ->
  pcc (coord s) = C_dorme_sentar ->
  List.NoDup (le_sentados (mem s))
  /\ incl (le_sentados (mem s)) (jogadores_ativos (mem s))
  /\ (forall i j, jogadores s !! i = Some j ->
        In (jog_id j) (le_sentados (mem s)) ->
        eliminado j = false
        /\ (pc j = J_verifica \/ pc j = J_espera_retomada
            \/ pc j = J_dorme_retomada))
  /\ permissoes s = cadeiras (mem s)
  /\ 0 <= cadeira_sem (mem s)
  /\ cadeiras (mem s) = Z.of_nat (length (le_sentados (mem s)))
                        + cadeira_sem (mem s)
                        + Z.of_nat (n_sentando (jogadores s)).
Proof.
  intros HN H Hp Hpc.
  destruct (executa_inv N ag (estado_inicial N) s (inv_inicial N HN) Hp H)
    as ((_ & _ & _ & _ & _ & Hfase) & _).
  rewrite Hpc in Hfase.
  destruct Hfase as (_ & Hperm & Hsem & Hnd & Hincl & Hsent & _).
  split; [assumption|]. split; [assumption|].
  split.
  { intros i j Hj Hin. destruct (Hsent i j Hj Hin) as (Ha & He).
    split; [assumption | exact Ha]. }
  split; [assumption|]. split; [assumption|].
  rewrite <- Hperm. unfold permissoes, le_sentados.
  rewrite length_map. lia.
Qed.

Lemma X13_seats_of_a_timely_round_witness :
  let s := estado_apos agenda_sentar in
  List.NoDup (le_sentados (mem s))
  /\ incl (le_sentados (mem s)) (jogadores_ativos (mem s))
  /\ permissoes s = 3.
Proof.
  cbv zeta.
  destruct (X13_seats_of_a_timely_round NUM_JOGADORES agenda_sentar
              (estado_apos agenda_sentar)) as (H1 & H2 & _ & H4 & _).
  - vm_compute. split; [discriminate | reflexivity].
  - vm_compute. reflexivity.
  - vm_compute. reflexivity.
  - vm_compute. reflexivity.
  - split; [exact H1|]. split; [exact H2|]. rewrite H4.
    vm_compute. reflexivity.
Defined.

(** ** Claims made in sequence: who gets the chairs *)

Lemma tentativas_assentos (js : list Jogador) :
  forall m,
    cadeiras_ocupadas (snd (tentativas js m))
    = cadeiras_ocupadas m
      ++ List.map assento (firstn (Z.to_nat (cadeira_sem m)) js)
    /\ cadeira_sem (snd (tentativas js m))
       = (if 0 <=? cadeira_sem m
          then cadeira_sem m
               - Z.of_nat (length (firstn (Z.to_nat (cadeira_sem m)) js))
          else cadeira_sem m)
    /\ musica_parada (snd (tentativas js m)) = musica_parada m
    /\ jogo_ativo (snd (tentativas js m)) = jogo_ativo m
    /\ cadeiras (snd (tentativas js m)) = cadeiras m
    /\ saida (snd (tentativas js m)) = saida m.
Proof.
  induction js as [|j js IH]; intros m.
  - cbn [tentativas snd]. rewrite firstn_nil. cbn [List.map length].
    rewrite app_nil_r. destruct (0 <=? cadeira_sem m);
      repeat split; lia.
  - cbn [tentativas]. unfold tentar_ocupar_cadeira, try_acquire.
    destruct (Z.ltb_spec 0 (cadeira_sem m)) as [Hpos|Hneg].
    + destruct (tentativas js (senta (jog_id j) (com_sem (cadeira_sem m - 1) m)))
        as [n m2] eqn:E.
      specialize (IH (senta (jog_id j) (com_sem (cadeira_sem m - 1) m))).
      rewrite E in IH. cbn [snd] in *.
      cbn [senta com_sem com_ocupadas cadeira_sem cadeiras_ocupadas
           musica_parada jogo_ativo cadeiras saida] in IH.
      destruct IH as (I1 & I2 & I3 & I4 & I5 & I6).
      replace (Z.to_nat (cadeira_sem m))
        with (S (Z.to_nat (cadeira_sem m - 1))) by lia.
      cbn [firstn List.map length].
      split; [rewrite I1, <- app_assoc; reflexivity|].
      split.
      { rewrite I2.
        destruct (Z.leb_spec 0 (cadeira_sem m - 1));
          destruct (Z.leb_spec 0 (cadeira_sem m)); lia. }
      repeat split; assumption.
    + destruct (tentativas js m) as [n m2] eqn:E.
      specialize (IH m). rewrite E in IH. cbn [snd] in *.
      destruct IH as (I1 & I2 & I3 & I4 & I5 & I6).
      replace (Z.to_nat (cadeira_sem m)) with 0%nat in * by lia.
      cbn [firstn List.map length] in *.
      repeat split; assumption.
Qed.

(** X14.  First come, first served.  When the players of [js] call
    [tentar_ocupar_cadeira] one after the other on a gate holding [c]
    units, the chairs go to the first [c] callers, recorded in the order of
    their calls after the seats already there; the gate keeps what the
    callers did not take; nothing else in the globals changes. *)
Theorem X14_first_come_first_served (js : list Jogador) (m : Memoria) :
  let c := Z.to_nat (cadeira_sem m) in
  let m' := snd (tentativas js m) in
  cadeiras_ocupadas m' = cadeiras_ocupadas m ++ List.map assento (firstn c js)
  /\ fst (tentativas js m) = length (firstn c js)
  /\ (0 <= cadeira_sem m ->
      cadeira_sem m' = cadeira_sem m - Z.of_nat (length (firstn c js)))
  /\ jogadores_ativos m' = jogadores_ativos m
  /\ musica_parada m' = musica_parada m
  /\ jogo_ativo m' = jogo_ativo m
  /\ cadeiras m' = cadeiras m
  /\ saida m' = saida m.
Proof.
  cbv zeta.
  destruct (tentativas_assentos js m) as (A1 & A2 & A3 & A4 & A5 & A6).
  split; [exact A1|].
  split.
  { destruct (Z.le_gt_cases 0 (cadeira_sem m)) as [Hc|Hc].
    - destruct (tentativas_conta js m Hc) as (T1 & _).
      rewrite length_firstn. lia.
    - replace (Z.to_nat (cadeira_sem m)) with 0%nat by lia.
      cbn [firstn length].
      clear A1 A2 A3 A4 A5 A6. revert Hc.
      induction js as [|j js IH]; intros Hc; [reflexivity|].
      cbn [tentativas]. unfold tentar_ocupar_cadeira, try_acquire.
      destruct (Z.ltb_spec 0 (cadeira_sem m)); [lia|].
      specialize (IH Hc). destruct (tentativas js m). cbn [fst] in *.
      assumption. }
  split.
  { intros Hc. rewrite A2. destruct (Z.leb_spec 0 (cadeira_sem m)); [reflexivity|lia]. }
  split.
  { destruct (Z.le_gt_cases 0 (cadeira_sem m)) as [Hc|Hc].
    - now destruct (tentativas_conta js m Hc) as (_ & _ & _ & T4).
    - clear A1 A2 A3 A4 A5 A6. revert Hc.
      induction js as [|j js IH]; intros Hc; [reflexivity|].
      cbn [tentativas]. unfold tentar_ocupar_cadeira, try_acquire.
      destruct (Z.ltb_spec 0 (cadeira_sem m)); [lia|].
      specialize (IH Hc). destruct (tentativas js m). cbn [snd] in *.
      assumption. }
  repeat split; assumption.
Qed.

Lemma X14_first_come_first_served_witness :
  cadeiras_ocupadas
    (snd (tentativas (rev (jogadores_iniciais 4)) (memoria_inicial 4)))
  = [(4, 4); (3, 3); (2, 2)]
  /\ cadeira_sem
       (snd (tentativas (rev (jogadores_iniciais 4)) (memoria_inicial 4))) = 0.
Proof.
  destruct (X14_first_come_first_served (rev (jogadores_iniciais 4))
              (memoria_inicial 4)) as (H1 & _ & H3 & _).
  split.
  - rewrite H1. vm_compute. reflexivity.
  - rewrite H3; vm_compute; [reflexivity | discriminate].
Defined.

(** ** How the game ends, in every execution *)

Lemma sublist_de_um (l : list Z) (v : Z) :
  l `sublist_of` [v] -> l = [v] \/ l = [].
Proof.
  intros H. apply sublist_length in H as Hl.
  destruct l as [|x [|y l]]; cbn in Hl; try lia; [now right|left].
  f_equal. apply sublist_cons_l in H as (k1 & k2 & Hk & _).
  destruct k1 as [|a [|b k1]]; cbn in Hk; inversion Hk; subst; reflexivity.
Qed.

Lemma passo_desfecho (N : Z) (e : Evento) (s s' : Estado) :
  desfecho s -> passo N e s = Some s' -> desfecho s'.
Proof.
  intros Hd H.
  pose proof (passo_sublist N e s s' H) as Hsub.
  assert (Hlen : (length (jogadores_ativos (mem s'))
                  <= length (jogadores_ativos (mem s)))%nat)
    by now apply sublist_length.
  unfold desfecho in *.
  destruct e as [|i|i]; cbn [passo] in H.
  - revert Hd. caso_coord s H; intros Hd;
      cbn [mem coord pcc com_pcc jogadores_ativos com_jogo_ativo] in *;
      try exact I; try exact Hd; try lia.
    + destruct (1 <? length (jogadores_ativos (mem s)))%nat eqn:E; [exact I|].
      apply Nat.ltb_ge in E. exact E.
    + unfold anuncia_vencedor in *.
      destruct (jogadores_ativos (mem s)) as [|v [|w l]] eqn:Ea;
        cbn [length] in Hd; try lia; [now left|].
      right. exists v, (saida (mem s)). cbn. now rewrite Ea.
  - destruct (jogadores s !! i) as [j|] eqn:Hj; [|discriminate].
    destruct (joga_passo j (mem s)) as [[j' m']|] eqn:E; [|discriminate].
    inversion H; subst; clear H. cbn [mem coord] in *.
    pose proof (joga_passo_preserva _ _ _ _ E) as (_ & _ & _ & Hsa & _).
    destruct (pcc (coord s)); try exact I; try lia.
    all: destruct Hd as [Ha|(v & antes & Hs & Ha)];
      [left; rewrite Ha in Hsub; now apply sublist_nil_r in Hsub|].
    all: rewrite Ha in Hsub; apply sublist_de_um in Hsub as [Hv|Hv];
      [right; exists v, antes; rewrite Hsa; now split | now left].
  - destruct (jogadores s !! i) as [j|]; [|discriminate].
    destruct (dormindo j); [|discriminate].
    inversion H; subst; clear H. exact Hd.
Qed.

Lemma executa_desfecho (N : Z) (ag : list Evento) :
  forall s s', desfecho s -> executa N ag s = Some s' -> desfecho s'.
Proof.
  induction ag as [|e ag IH]; intros s s' Hs H; cbn in H.
  - inversion H; subst. assumption.
  - destruct (passo N e s) as [s1|] eqn:E; [|discriminate].
    eapply IH; [|eassumption]. eapply passo_desfecho; eassumption.
Qed.

Lemma rodadas_sem_vencedor (rs : list (Z * Z * list Z * Z)) (v : Z) :
  ~ In (S_vencedor v) (flat_map linhas_da_rodada rs).
Proof.
  intros H. apply in_flat_map in H as ([[[n c] oc] e] & _ & H).
  cbn in H. destruct H as [H|[H|[H|[]]]]; discriminate.
Qed.

(** X15.  How the game ends, whatever the interleaving.  Past the loop of
    [iniciar_jogo] at most one participant is active.  When [iniciar_jogo]
    has returned, the lines of the game are whole rounds followed by at most
    one winner's line: with no such line, nobody was left (the guard of line
    191); with one, it names an id of 1..N which is the only active
    participant, unless its thread has since taken it out of the Active Set
    in [verificar_eliminacao]. *)
Theorem X15_end_of_game (N : Z) (ag : list Evento) (s : Estado) :
  executa N ag (estado_inicial N) = Some s ->
  (match pcc (coord s) with
   | C_encerra | C_notifica_fim | C_vencedor | C_destroi | C_fim => true
   | _ => false
   end = true ->
   (length (jogadores_ativos (mem s)) <= 1)%nat)
  /\ (pcc (coord s) = C_fim ->
      exists rs,
        (saida (mem s) = flat_map linhas_da_rodada rs
         /\ jogadores_ativos (mem s) = [])
        \/ exists v,
             saida (mem s) = flat_map linhas_da_rodada rs ++ [S_vencedor v]
             /\ 1 <= v <= N
             /\ (jogadores_ativos (mem s) = [v]
                 \/ jogadores_ativos (mem s) = [])).
Proof.
  intros H.
  assert (Hd : desfecho s).
  { eapply executa_desfecho; [|exact H]. exact I. }
  assert (Hs : saida_conforme N s).
  { apply (executa_saida_conforme N ag (estado_inicial N) s); [| |exact H].
    - intros x Hx. now apply ids_iniciais_In.
    - exists [], []. split; reflexivity. }
  unfold desfecho in Hd. split.
  - destruct (pcc (coord s)); try discriminate; intros _; try exact Hd;
      destruct Hd as [->|(v & antes & _ & ->)]; cbn; lia.
  - intros Hfim. rewrite Hfim in Hd.
    destruct Hs as (rs & fim & Hs & Hc). rewrite Hfim in Hc. exists rs.
    destruct fim as [|[? ?| |? ?|w] [|? ?]]; try discriminate.
    + left. rewrite app_nil_r in Hs. split; [exact Hs|].
      destruct Hd as [Ha|(v & antes & Hv & _)]; [exact Ha|].
      exfalso. apply (rodadas_sem_vencedor rs v).
      rewrite <- Hs, Hv. apply in_or_app. right. now left.
    + right. exists w. split; [exact Hs|].
      cbn in Hc. apply andb_prop in Hc as (H1 & H2).
      apply Z.leb_le in H1, H2. split; [lia|].
      destruct Hd as [Ha|(v & antes & Hv & Ha)]; [now right|].
      left. rewrite Hv in Hs. apply app_inj_tail in Hs as (_ & Hs).
      inversion Hs; subst. exact Ha.
Qed.

Lemma X15_end_of_game_witness :
  (length (jogadores_ativos (mem (estado_apos agenda_espurio))) <= 1)%nat.
Proof.
  apply (X15_end_of_game NUM_JOGADORES agenda_espurio
           (estado_apos agenda_espurio)).
  - vm_compute. reflexivity.
  - vm_compute. reflexivity.
Defined.

(** ** The result lines, when the sleeps time the game *)

Lemma joga_passo_ocupadas (j j' : Jogador) (m m' : Memoria) :
  joga_passo j m = Some (j', m') -> pc j <> J_senta ->
  cadeiras_ocupadas m' = cadeiras_ocupadas m.
Proof.
  intros E Hpc. caso_joga j m E; try reflexivity; try congruence.
  unfold verificar_eliminacao. now destruct (eliminado j).
Qed.

Lemma passo_resultados_conformes (N : Z) (e : Evento) (s s' : Estado) :
  inv N s ->
  permitido e s = true ->
  (forall x, In x (jogadores_ativos (mem s)) -> 1 <= x <= N) ->
  resultados_conformes N s ->
  passo N e s = Some s' ->
  resultados_conformes N s'.
Proof.
  intros (_ & _ & _ & _ & _ & Hfase) Hperm Hr (Hl & Hc) H.
  unfold resultados_conformes.
  destruct e as [|i|i]; cbn [passo] in H.
  - revert Hc Hfase. caso_coord s H; intros Hc Hfase;
      cbn [mem coord pcc com_pcc jogadores_sentados eliminado_id];
      try (split; [exact Hl | exact I]).
    + split; [exact Hl|].
      now destruct (1 <? length (jogadores_ativos (mem s)))%nat.
    + split; [|exact I]. unfold iniciar_rodada_anuncia, imprime. cbn [saida].
      apply Forall_app. split; [exact Hl|]. now repeat constructor.
    + split; [|exact I]. unfold parar_musica_anuncia, imprime. cbn [saida].
      apply Forall_app. split; [exact Hl|]. now repeat constructor.
    + split; [exact Hl|]. now destruct Hfase as (_ & _ & _ & Hnd & _).
    + split; [exact Hl|]. split; [exact Hc | reflexivity].
    + match goal with E : procura_eliminado _ _ = _ |- _ =>
        pose proof (procura_eliminado_resto (jogadores_sentados (coord s)) (mem s)) as Hp;
        cbv zeta in Hp; rewrite E in Hp; cbn [snd] in Hp;
        destruct Hp as (_ & Hoc & _ & Hsa);
        unfold procura_eliminado in E;
        destruct (primeiro_em_pe (jogadores_sentados (coord s))
                                 (jogadores_ativos (mem s))) as [x|] eqn:Ex;
        inversion E; subst; clear E
      end.
      * split; [exact Hl|]. destruct Hc as (Hnd & Hsn).
        unfold le_sentados in *. cbn [eliminar_jogador com_ativos cadeiras_ocupadas].
        split; [exact Hnd|]. right.
        apply primeiro_em_pe_Some in Ex as (Hin & Hout).
        split; [now apply Hr|]. now rewrite <- Hsn.
      * split; [exact Hl|]. destruct Hc as (Hnd & _).
        split; [exact Hnd | now left].
    + split; [|exact I]. unfold exibir_resultado_rodada, imprime. cbn [saida].
      apply Forall_app. split; [exact Hl|]. constructor; [|constructor].
      exact Hc.
    + split; [|exact I]. unfold anuncia_vencedor.
      destruct (jogadores_ativos (mem s)); [exact Hl|].
      unfold imprime. cbn [saida].
      apply Forall_app. split; [exact Hl|]. now repeat constructor.
  - destruct (jogadores s !! i) as [j|] eqn:Hj; [|discriminate].
    destruct (joga_passo j (mem s)) as [[j' m']|] eqn:E; [|discriminate].
    inversion H; subst; clear H. cbn [mem coord].
    pose proof (joga_passo_preserva _ _ _ _ E) as (_ & _ & _ & Hsa & _).
    rewrite Hsa. split; [exact Hl|].
    assert (Hoc : pcc (coord s) <> C_dorme_sentar ->
                  le_sentados m' = le_sentados (mem s)).
    { intros Hp. unfold le_sentados. f_equal.
      apply (joga_passo_ocupadas _ _ _ _ E). intros Hpc.
      destruct (pcc (coord s)) eqn:Hpcc; try congruence;
        destruct Hfase as (Hq & _); specialize (Hq i j Hj);
        unfold quieto in Hq; rewrite Hpc in Hq; discriminate. }
    destruct (pcc (coord s)); try exact I;
      rewrite Hoc by discriminate; exact Hc.
  - destruct (jogadores s !! i) as [j|]; [|discriminate].
    destruct (dormindo j); [|discriminate].
    inversion H; subst; clear H. split; [exact Hl | exact Hc].
Qed.

Lemma executa_resultados_conformes (N : Z) (ag : list Evento) :
  forall s s',
    inv N s ->
    (forall x, In x (jogadores_ativos (mem s)) -> 1 <= x <= N) ->
    resultados_conformes N s ->
    pontual N ag s = true ->
    executa N ag s = Some s' ->
    resultados_conformes N s'.
Proof.
  induction ag as [|e ag IH]; intros s s' Hi Hr Hc Hp H; cbn in H, Hp.
  - inversion H; subst. assumption.
  - apply andb_prop in Hp as (Hperm & Hp).
    destruct (passo N e s) as [s1|] eqn:E; [|discriminate].
    apply (IH s1 s'); [| | |assumption|assumption].
    + now destruct (passo_inv N e s s1 Hi Hperm E).
    + intros x Hx. apply Hr.
      exact (executa_ativos N [e] s s1 ltac:(cbn; now rewrite E) x Hx).
    + eapply passo_resultados_conformes; eassumption.
Qed.

(** X16.  When the execution keeps to the timing of the sleeps, every
    result line the game prints (lines 103-108) is consistent: no
    participant is listed on two chairs, and the participant reported as
    eliminated is either the sentinel -1 or an id of 1..N that is not listed
    as seated.  (Out of that timing a participant can be listed as seated
    and reported as eliminated in the same line.) *)
Theorem X16_result_lines_consistent (N : Z) (ag : list Evento) (s : Estado)
  (ocupantes : list Z) (e : Z) :
  2 <= N < 2 ^ 31 ->
  executa N ag (estado_inicial N) = Some s ->
  pontual N ag (estado_inicial N) = true ->
  In (S_resultado ocupantes e) (saida (mem s)) ->
  List.NoDup ocupantes
  /\ (e = -1 \/ (1 <= e <= N /\ ~ In e ocupantes)).
Proof.
  intros HN H Hp Hin.
  assert (Hc : resultados_conformes N s).
  { apply (executa_resultados_conformes N ag (estado_inicial N) s);
      [now apply inv_inicial| | |assumption|assumption].
    - intros x Hx. now apply ids_iniciais_In.
    - split; [constructor | exact I]. }
  destruct Hc as (Hl & _).
  rewrite List.Forall_forall in Hl. exact (Hl _ Hin).
Qed.

Lemma X16_result_lines_consistent_witness :
  @List.NoDup Z [] /\ (1 = -1 \/ (1 <= 1 <= 4 /\ ~ In 1 [])).
Proof.
  apply (X16_result_lines_consistent NUM_JOGADORES agenda_pontual
           (estado_apos agenda_pontual)).
  - vm_compute. split; [discriminate | reflexivity].
  - vm_compute. reflexivity.
  - vm_compute. reflexivity.
  - vm_compute. do 5 right. left. reflexivity.
Defined.

(** ** The program can run to its end *)

Lemma pc_jogadores_iniciais (N : Z) (i : nat) (j : Jogador) :
  jogadores_iniciais N !! i = Some j -> pc j = J_laco.
Proof.
  intros H. apply list_elem_of_lookup_2, list_elem_of_In in H.
  unfold jogadores_iniciais in H. apply in_map_iff in H as (x & <- & _).
  reflexivity.
Qed.






(** ** Seats and result lines in every execution *)

Lemma passo_assentos_conformes (N : Z) (e : Evento) (s s' : Estado) :
  (forall i j, jogadores s !! i = Some j -> 1 <= jog_id j <= N) ->
  (forall x, In x (jogadores_ativos (mem s)) -> 1 <= x <= N) ->
  assentos_conformes N s ->
  passo N e s = Some s' ->
  assentos_conformes N s'.
Proof.
  intros Hids Hr (Ho & Hl & Hc) H. unfold assentos_conformes.
  destruct e as [|i|i]; cbn [passo] in H.
  - revert Hc. caso_coord s H; intros Hc;
      cbn [mem coord pcc com_pcc eliminado_id];
      try (split; [exact Ho|]; split; [exact Hl | discriminate]).
    + split; [exact Ho|]. split; [exact Hl|].
      now destruct (1 <? length (jogadores_ativos (mem s)))%nat.
    + split; [constructor|]. split; [exact Hl | discriminate].
    + split; [exact Ho|]. split; [|discriminate].
      unfold iniciar_rodada_anuncia, imprime. cbn [saida].
      apply Forall_app. split; [exact Hl|]. now repeat constructor.
    + split; [exact Ho|]. split; [|discriminate].
      unfold parar_musica_anuncia, imprime. cbn [saida].
      apply Forall_app. split; [exact Hl|]. now repeat constructor.
    + match goal with E : procura_eliminado _ _ = _ |- _ =>
        pose proof (procura_eliminado_resto (jogadores_sentados (coord s)) (mem s)) as Hp;
        cbv zeta in Hp; rewrite E in Hp; cbn [snd] in Hp;
        destruct Hp as (_ & Hoc & _ & Hsa);
        unfold procura_eliminado in E;
        destruct (primeiro_em_pe (jogadores_sentados (coord s))
                                 (jogadores_ativos (mem s))) as [x|] eqn:Ex;
        inversion E; subst; clear E
      end.
      * split; [exact Ho|]. split; [exact Hl|]. intros _. right.
        apply primeiro_em_pe_Some in Ex as (Hin & _). now apply Hr.
      * split; [exact Ho|]. split; [exact Hl|]. intros _. now left.
    + split; [exact Ho|]. split; [|discriminate].
      unfold exibir_resultado_rodada, imprime. cbn [saida].
      apply Forall_app. split; [exact Hl|]. constructor; [|constructor].
      split; [|now apply Hc].
      intros x Hx. apply in_map_iff in Hx as (p & <- & Hp).
      rewrite List.Forall_forall in Ho. now apply Ho.
    + unfold anuncia_vencedor.
      destruct (jogadores_ativos (mem s));
        (split; [exact Ho|]); (split; [|discriminate]); [exact Hl|].
      unfold imprime. cbn [saida].
      apply Forall_app. split; [exact Hl|]. now repeat constructor.
  - destruct (jogadores s !! i) as [j|] eqn:Hj; [|discriminate].
    destruct (joga_passo j (mem s)) as [[j' m']|] eqn:E; [|discriminate].
    inversion H; subst; clear H. cbn [mem coord].
    pose proof (joga_passo_preserva _ _ _ _ E) as (_ & _ & _ & Hsa & _).
    rewrite Hsa. split; [|split; assumption].
    specialize (Hids i j Hj).
    caso_joga j (mem s) E; try exact Ho.
    + unfold senta. cbn [cadeiras_ocupadas com_ocupadas].
      apply Forall_app. split; [exact Ho|]. constructor; [|constructor].
      split; [reflexivity | exact Hids].
    + unfold verificar_eliminacao. now destruct (eliminado j).
  - destruct (jogadores s !! i) as [j|]; [|discriminate].
    destruct (dormindo j); [|discriminate].
    inversion H; subst; clear H. split; [exact Ho|]. split; assumption.
Qed.

Lemma executa_assentos_conformes (N : Z) (ag : list Evento) :
  forall s s',
    (forall i j, jogadores s !! i = Some j -> 1 <= jog_id j <= N) ->
    (forall x, In x (jogadores_ativos (mem s)) -> 1 <= x <= N) ->
    assentos_conformes N s ->
    executa N ag s = Some s' ->
    assentos_conformes N s'.
Proof.
  induction ag as [|e ag IH]; intros s s' Hids Hr Hs H; cbn in H.
  - inversion H; subst. assumption.
  - destruct (passo N e s) as [s1|] eqn:E; [|discriminate].
    apply (IH s1 s'); [| | |assumption].
    + intros i j Hj.
      pose proof (passo_ids N e s s1 E) as Hm.
      pose proof (lookup_map_id _ _ _ Hj) as Hl. rewrite Hm in Hl.
      destruct (jogadores s !! i) as [j0|] eqn:Hj0.
      * rewrite (lookup_map_id _ _ _ Hj0) in Hl. injection Hl as Hid.
        rewrite <- Hid. eapply Hids; eassumption.
      * apply lookup_ge_None in Hj0. apply lookup_lt_Some in Hl.
        rewrite length_map in Hl. lia.
    + intros x Hx. apply Hr.
      exact (executa_ativos N [e] s s1 ltac:(cbn; now rewrite E) x Hx).
    + eapply passo_assentos_conformes; eassumption.
Qed.

(** X18.  Whatever the interleaving: every entry of the Seated Set is a
    pair [(id, id)] with [id] one of 1..N (line 128 records the
    participant's id on both sides, never a chair number), every result
    line lists ids of 1..N only, and the id it reports as eliminated is the
    sentinel -1 or one of 1..N. *)
Theorem X18_seats_and_results_in_range (N : Z) (ag : list Evento) (s : Estado) :
  executa N ag (estado_inicial N) = Some s ->
  (forall p, In p (cadeiras_ocupadas (mem s)) ->
             snd p = fst p /\ 1 <= fst p <= N)
  /\ (forall ocupantes e, In (S_resultado ocupantes e) (saida (mem s)) ->
        (forall x, In x ocupantes -> 1 <= x <= N)
        /\ (e = -1 \/ 1 <= e <= N)).
Proof.
  intros H.
  assert (Hc : assentos_conformes N s).
  { apply (executa_assentos_conformes N ag (estado_inicial N) s);
      [| | |exact H].
    - intros i j Hj.
      destruct (id_do_jogador N [] (estado_inicial N) i j eq_refl Hj). lia.
    - intros x Hx. now apply ids_iniciais_In.
    - split; [constructor|]. split; [constructor | discriminate]. }
  destruct Hc as (Ho & Hl & _).
  rewrite List.Forall_forall in Ho, Hl. split.
  - intros p Hp. exact (Ho p Hp).
  - intros oc e Hin. exact (Hl _ Hin).
Qed.

Lemma X18_seats_and_results_in_range_witness :
  (forall x, In x [4; 1] -> 1 <= x <= 4) /\ (-1 = -1 \/ 1 <= -1 <= 4).
Proof.
  apply (X18_seats_and_results_in_range NUM_JOGADORES agenda_volta
           (estado_apos agenda_volta)).
  - vm_compute. reflexivity.
  - vm_compute. do 5 right. left. reflexivity.
Defined.

(** ** Who is eliminated when several participants stand *)

Lemma crescente_seq (n : nat) :
  forall a, crescente (List.map Z.of_nat (seq a n)).
Proof.
  induction n as [|n IH]; intros a; cbn [seq List.map crescente]; [exact I|].
  split; [|apply IH].
  intros y Hy. apply in_map_iff in Hy as (k & <- & Hk).
  apply in_seq in Hk. lia.
Qed.

Lemma crescente_sublist (l1 l2 : list Z) :
  l1 `sublist_of` l2 -> crescente l2 -> crescente l1.
Proof.
  induction 1 as [|x l1 l2 Hs IH|x l1 l2 Hs IH]; cbn [crescente].
  - auto.
  - intros (Hx & Hc). split; [|auto].
    intros y Hy. apply Hx. apply list_elem_of_In.
    eapply elem_of_sublist; [|exact Hs]. now apply list_elem_of_In.
  - intros (_ & Hc). auto.
Qed.

Lemma ativos_crescente (N : Z) (ag : list Evento) (s : Estado) :
  executa N ag (estado_inicial N) = Some s ->
  crescente (jogadores_ativos (mem s)).
Proof.
  intros H. eapply crescente_sublist.
  - exact (executa_sublist N ag _ _ H).
  - apply crescente_seq.
Qed.

Lemma primeiro_em_pe_menor (sentados : list Z) (ativos : list Z) (x : Z) :
  crescente ativos ->
  primeiro_em_pe sentados ativos = Some x ->
  forall y, In y ativos -> ~ In y sentados -> x <= y.
Proof.
  unfold primeiro_em_pe.
  induction ativos as [|a l IH]; intros Hc Hf y Hy Hout; [destruct Hy|].
  cbn [List.find] in Hf. destruct Hc as (Ha & Hc).
  destruct (negb (sentado sentados a)) eqn:Es.
  - inversion Hf; subst. destruct Hy as [->|Hy]; [lia|].
    specialize (Ha y Hy). lia.
  - destruct Hy as [->|Hy]; [|now apply IH].
    exfalso. apply Hout. apply sentado_In.
    now destruct (sentado sentados y).
Qed.

(** X19.  Ties go against the lowest id.  In every execution, when the
    coordinator runs the loop of lines 212-218, the participant it removes
    is the one with the smallest id among the active participants that are
    not in its copy of the Seated Set: the Active Set is kept in increasing
    order and the loop stops at the first participant found standing.  It
    reports -1 and removes nobody exactly when every active participant is
    in the copy. *)
Theorem X19_lowest_standing_id (N : Z) (ag : list Evento) (s s' : Estado) :
  executa N ag (estado_inicial N) = Some s ->
  pcc (coord s) = C_procura ->
  passo N E_coord s = Some s' ->
  let e := eliminado_id (coord s') in
  let copia := jogadores_sentados (coord s) in
  (e = -1
   /\ jogadores_ativos (mem s') = jogadores_ativos (mem s)
   /\ forall y, In y (jogadores_ativos (mem s)) -> In y copia)
  \/ (In e (jogadores_ativos (mem s))
      /\ ~ In e copia
      /\ (forall y, In y (jogadores_ativos (mem s)) -> ~ In y copia -> e <= y)
      /\ jogadores_ativos (mem s') = remove_id e (jogadores_ativos (mem s))
      /\ S (length (jogadores_ativos (mem s')))
         = length (jogadores_ativos (mem s))).
Proof.
  intros H Hp Hstep. cbv zeta.
  pose proof (ativos_crescente N ag s H) as Hc.
  pose proof (ativos_NoDup N ag s H) as Hnd.
  cbn [passo] in Hstep. unfold iniciar_jogo_passo in Hstep.
  rewrite Hp in Hstep. cbv beta iota zeta in Hstep.
  unfold procura_eliminado in Hstep.
  destruct (primeiro_em_pe (jogadores_sentados (coord s))
                           (jogadores_ativos (mem s))) as [x|] eqn:Ex;
    inversion Hstep; subst; clear Hstep; cbn [coord mem eliminado_id].
  - right. destruct (primeiro_em_pe_Some _ _ _ Ex) as (Hin & Hout).
    split; [exact Hin|]. split; [exact Hout|].
    split; [exact (primeiro_em_pe_menor _ _ _ Hc Ex)|].
    split; [reflexivity|].
    unfold eliminar_jogador. cbn [jogadores_ativos com_ativos].
    now apply remove_id_length.
  - left. split; [reflexivity|]. split; [reflexivity|].
    now apply primeiro_em_pe_None.
Qed.

Lemma X19_lowest_standing_id_witness :
  let s := estado_apos (agenda_espera ++ coordenador 16 ++ coordenador 10) in
  let s' := estado_apos (agenda_espera ++ coordenador 16 ++ coordenador 11) in
  eliminado_id (coord s') = 2
  /\ jogadores_ativos (mem s) = [2; 3; 4]
  /\ jogadores_ativos (mem s') = remove_id 2 (jogadores_ativos (mem s)).
Proof.
  cbv zeta.
  destruct (X19_lowest_standing_id NUM_JOGADORES
              (agenda_espera ++ coordenador 16 ++ coordenador 10)
              (estado_apos (agenda_espera ++ coordenador 16 ++ coordenador 10))
              (estado_apos (agenda_espera ++ coordenador 16 ++ coordenador 11)))
    as [(He & _)|(_ & _ & _ & Hr & _)].
  - vm_compute. reflexivity.
  - vm_compute. reflexivity.
  - vm_compute. reflexivity.
  - vm_compute in He. discriminate He.
  - split; [vm_compute; reflexivity|]. split; [vm_compute; reflexivity|].
    exact Hr.
Defined.

(** ** The whole output of a game the sleeps time *)

Lemma rodadas_anunciadas_linhas (rs : list (Z * Z * list Z * Z))
  (fim : list Saida) (m : Memoria) :
  saida m = flat_map linhas_da_rodada rs ++ fim ->
  rodadas_anunciadas m
  = List.map anuncio rs
    ++ flat_map (fun o => match o with S_rodada n c => [(n, c)] | _ => [] end)
                fim.
Proof.
  unfold rodadas_anunciadas. intros ->. rewrite flat_map_app. f_equal.
  induction rs as [|[[[n c] oc] e] rs IH]; [reflexivity|].
  cbn [flat_map linhas_da_rodada List.map anuncio app]. now rewrite IH.
Qed.

(** X20.  The whole output of a game that keeps to the timing of the
    sleeps, once [iniciar_jogo] returned: N-1 rounds, each printed as the
    announcement, the stop of the music and the result; the announcements
    are those of N players and N-1 chairs down to 2 players and 1 chair;
    then the winner's line, naming the one participant left.  That is
    3 (N - 1) + 1 lines. *)
Theorem X20_output_of_a_timely_game (N : Z) (ag : list Evento) (s : Estado) :
  2 <= N < 2 ^ 31 ->
  executa N ag (estado_inicial N) = Some s ->
  pontual N ag (estado_inicial N) = true ->
  pcc (coord s) = C_fim ->
  exists rs v,
    saida (mem s) = flat_map linhas_da_rodada rs ++ [S_vencedor v]
    /\ List.map anuncio rs = rodadas_esperadas (Z.to_nat N - 1)
    /\ length rs = (Z.to_nat N - 1)%nat
    /\ length (saida (mem s)) = (3 * (Z.to_nat N - 1) + 1)%nat
    /\ jogadores_ativos (mem s) = [v].
Proof.
  intros HN H Hp Hfim.
  destruct (executa_vencedor_anunciado N ag (estado_inicial N) s
              (inv_inicial N HN) I Hp H) as (Hi & Hv).
  unfold vencedor_anunciado in Hv. rewrite Hfim in Hv.
  destruct Hv as (v & antes & Ha & Hs).
  assert (Hc : saida_conforme N s).
  { apply (executa_saida_conforme N ag (estado_inicial N) s); [| |exact H].
    - intros x Hx. now apply ids_iniciais_In.
    - exists [], []. split; reflexivity. }
  destruct Hc as (rs & fim & Hsa & Hcau). rewrite Hfim in Hcau.
  assert (Hf : fim = [S_vencedor v]).
  { destruct fim as [|[? ?| |? ?|w] [|? ?]]; try discriminate.
    - exfalso. apply (rodadas_sem_vencedor rs v).
      rewrite app_nil_r in Hsa. rewrite <- Hsa, Hs.
      apply in_or_app. right. now left.
    - rewrite Hs in Hsa. apply app_inj_tail in Hsa as (_ & Hw).
      now inversion Hw. }
  subst fim. exists rs, v.
  assert (Hrod : List.map anuncio rs = rodadas_esperadas (Z.to_nat N - 1)).
  { destruct Hi as (_ & _ & _ & _ & Hrod & _).
    unfold rodadas_por_vir in Hrod. rewrite Hfim in Hrod.
    cbn [rodadas_esperadas] in Hrod. rewrite app_nil_r in Hrod.
    rewrite (rodadas_anunciadas_linhas rs _ _ Hsa) in Hrod.
    cbn [flat_map] in Hrod. now rewrite app_nil_r in Hrod. }
  assert (Hlen : length rs = (Z.to_nat N - 1)%nat).
  { rewrite <- (length_map anuncio), Hrod. apply length_rodadas_esperadas. }
  split; [exact Hsa|]. split; [exact Hrod|]. split; [exact Hlen|].
  split; [|exact Ha].
  rewrite Hsa, length_app. cbn [length]. rewrite <- Hlen.
  clear. induction rs as [|[[[n c] oc] e] rs IH]; [reflexivity|].
  cbn [flat_map linhas_da_rodada app length] in *. lia.
Qed.

Lemma X20_output_of_a_timely_game_witness :
  exists rs v,
    saida (mem (estado_apos agenda_pontual))
    = flat_map linhas_da_rodada rs ++ [S_vencedor v]
    /\ List.map anuncio rs = [(4, 3); (3, 2); (2, 1)]
    /\ length rs = 3%nat
    /\ length (saida (mem (estado_apos agenda_pontual))) = 10%nat
    /\ jogadores_ativos (mem (estado_apos agenda_pontual)) = [v].
Proof.
  apply (X20_output_of_a_timely_game NUM_JOGADORES agenda_pontual
           (estado_apos agenda_pontual)).
  - vm_compute. split; [discriminate | reflexivity].
  - vm_compute. reflexivity.
  - vm_compute. reflexivity.
  - vm_compute. reflexivity.
Defined.

(** ** A game of fewer than two players *)

Lemma passo_sem_rodadas (N : Z) (e : Evento) (s s' : Estado) :
  N <= 1 ->
  sem_rodadas N s -> passo N e s = Some s' -> sem_rodadas N s'.
Proof.
  intros HN (Hm & Ha & Ho & Hpc & Hs) H. unfold sem_rodadas.
  assert (Hlen : (length (jogadores_ativos (mem s)) <= 1)%nat)
    by (rewrite Ha, length_ids_iniciais; lia).
  destruct e as [|i|i]; cbn [passo] in H.
  - revert Hs. caso_coord s H; intros Hs; try contradiction;
      cbn [mem jogadores coord pcc com_pcc musica_parada jogadores_ativos
           cadeiras_ocupadas saida com_jogo_ativo].
    + destruct (1 <? length (jogadores_ativos (mem s)))%nat eqn:E.
      { apply Nat.ltb_lt in E. lia. }
      repeat (split; [assumption|]). exact Hs.
    + repeat (split; [assumption|]). exact Hs.
    + split; [assumption|]. split; [assumption|]. split; [assumption|].
      split; [|exact Hs].
      intros k jk Hk. apply lookup_notify_all in Hk as (j0 & Hk & ->).
      destruct (Hpc k j0 Hk) as [Hp|[Hp|[Hp|Hp]]];
        unfold acorda; rewrite Hp; cbn; auto.
    + unfold anuncia_vencedor. rewrite <- Ha.
      destruct (jogadores_ativos (mem s)) as [|v [|w l]] eqn:Ea;
        cbn [length] in Hlen; [| |lia];
        cbn [imprime musica_parada jogadores_ativos cadeiras_ocupadas saida
             List.map];
        (split; [assumption|]); (split; [assumption|]);
        (split; [assumption|]); (split; [assumption|]);
        rewrite Hs; reflexivity.
    + repeat (split; [assumption|]). exact Hs.
  - destruct (jogadores s !! i) as [j|] eqn:Hj; [|discriminate].
    destruct (joga_passo j (mem s)) as [[j' m']|] eqn:E; [|discriminate].
    inversion H; subst; clear H. cbn [mem jogadores coord].
    assert (Hmem : m' = mem s /\ (pc j' = J_laco \/ pc j' = J_espera_parada
                                  \/ pc j' = J_dorme_parada \/ pc j' = J_fim)).
    { destruct (Hpc i j Hj) as [Hp|[Hp|[Hp|Hp]]];
        unfold joga_passo in E; rewrite Hp in E; try discriminate;
        cbv beta iota in E; rewrite ?Hm in E;
        inversion E; subst; clear E; cbn;
        (split; [reflexivity|]); destruct (jogo_ativo (mem s)); auto. }
    destruct Hmem as (-> & Hp').
    do 3 (split; [assumption|]). split; [|exact Hs].
    intros k jk Hk.
    apply lookup_insert_casos in Hk as [(-> & ->)|(Hne & Hk)]; eauto.
  - destruct (jogadores s !! i) as [j|] eqn:Hj; [|discriminate].
    destruct (dormindo j) eqn:Hd; [|discriminate].
    inversion H; subst; clear H. cbn [mem jogadores coord].
    do 3 (split; [assumption|]). split; [|exact Hs].
    intros k jk Hk.
    apply lookup_insert_casos in Hk as [(-> & ->)|(Hne & Hk)]; [|eauto].
    destruct (Hpc i j Hj) as [Hp|[Hp|[Hp|Hp]]];
      unfold acorda; rewrite Hp; cbn; auto.
Qed.

Lemma executa_sem_rodadas (N : Z) (ag : list Evento) :
  N <= 1 ->
  forall s s', sem_rodadas N s -> executa N ag s = Some s' ->
    sem_rodadas N s'.
Proof.
  intros HN. induction ag as [|e ag IH]; intros s s' Hs H; cbn in H.
  - inversion H; subst. assumption.
  - destruct (passo N e s) as [s1|] eqn:E; [|discriminate].
    eapply IH; [|eassumption]. eapply passo_sem_rodadas; eassumption.
Qed.

(** X21.  The edge of the loop of line 171.  With one player, or none, no
    round is played whatever the interleaving: the music never stops, no
    thread gets past the wait of line 144, nobody is seated or removed, and
    no round is announced.  When [iniciar_jogo] has returned, the game has
    printed the winner's line for participant 1 and nothing else if there
    is one player, and nothing at all if there is none (the guard of line
    191). *)
Theorem X21_no_round_below_two (N : Z) (ag : list Evento) (s : Estado) :
  N <= 1 ->
  executa N ag (estado_inicial N) = Some s ->
  musica_parada (mem s) = false
  /\ jogadores_ativos (mem s) = ids_iniciais N
  /\ cadeiras_ocupadas (mem s) = []
  /\ rodadas_anunciadas (mem s) = []
  /\ (forall i j, jogadores s !! i = Some j ->
        pc j = J_laco \/ pc j = J_espera_parada \/ pc j = J_dorme_parada
        \/ pc j = J_fim)
  /\ (pcc (coord s) = C_fim ->
      saida (mem s) = if N =? 1 then [S_vencedor 1] else []).
Proof.
  intros HN H.
  assert (Hs : sem_rodadas N s).
  { apply (executa_sem_rodadas N ag HN (estado_inicial N) s); [|exact H].
    unfold sem_rodadas. cbn.
    repeat (split; [reflexivity|]). split; [|reflexivity].
    intros i j Hj. left. exact (pc_jogadores_iniciais N i j Hj). }
  destruct Hs as (Hm & Ha & Ho & Hpc & Hsa).
  assert (Hids : ids_iniciais N = if N =? 1 then [1] else []).
  { unfold ids_iniciais. destruct (Z.eqb_spec N 1) as [->|Hne]; [reflexivity|].
    replace (Z.to_nat N) with 0%nat by lia. reflexivity. }
  split; [assumption|]. split; [assumption|]. split; [assumption|].
  split.
  { unfold rodadas_anunciadas.
    destruct (pcc (coord s)); try contradiction; rewrite Hsa; try reflexivity;
      rewrite Hids; destruct (N =? 1); reflexivity. }
  split; [assumption|].
  intros Hfim. rewrite Hfim in Hsa. rewrite Hsa, Hids.
  destruct (N =? 1); reflexivity.
Qed.

Lemma X21_no_round_below_two_witness :
  let s := estado_apos_de 1 (turno 0 2 ++ coordenador 5) in
  saida (mem s) = [S_vencedor 1]
  /\ List.map pc (jogadores s) = [J_espera_parada].
Proof.
  cbv zeta.
  destruct (X21_no_round_below_two 1 (turno 0 2 ++ coordenador 5)
              (estado_apos_de 1 (turno 0 2 ++ coordenador 5)))
    as (_ & _ & _ & _ & _ & Hs).
  - lia.
  - vm_compute. reflexivity.
  - split; [apply Hs|]; vm_compute; reflexivity.
Defined.
